(** * Sequence engine of the Asana API explorer

    A shallow embedding of the sequence execution, variable resolution,
    reference rewriting, import and flattening code of class
    [AsanaAPIExplorer], with the properties the specification states
    about them.

    Conventions of the embedding:
    - JavaScript strings are [string]; every character is one unit.
    - Values decoded from JSON are the type [jsvalue]; [JUndefined] is the
      result of reading a property that is not there.  Numbers are the
      integers [Z]; only own properties of decoded data are modelled
      (nothing inherited from a prototype).  An object is the list of
      its properties in the order in which the engine lists them.
    - The [Map] [sequenceResults] is a [gmap string jsvalue].
    - The HTTP collaborator, the id generator and the URL encoders are
      parameters of the sections that use them. *)

From Stdlib Require Import String Ascii List ZArith Lia Bool.
From Stdlib Require Import DecimalString DecimalNat.
From stdpp Require Import gmap strings.

Open Scope string_scope.

#[local] Set Warnings "-register-all".

(** ** Strings *)

Module Str.

(** [s.includes(c)] for a one-character needle. *)
Fixpoint includes_char (c : ascii) (s : string) : bool :=
match s with
| EmptyString => false
| String a s' => if Ascii.eqb a c then true else includes_char c s'
end.

(** [s.startsWith(p)]. *)
Fixpoint startsWith (p s : string) : bool :=
match p, s with
| EmptyString, _ => true
| String a p', String b s' => Ascii.eqb a b && startsWith p' s'
| String _ _, EmptyString => false
end.

(** [s.includes(p)] for any needle. *)
Fixpoint includes (p s : string) : bool :=
startsWith p s ||
match s with
| EmptyString => false
| String _ s' => includes p s'
end.

(** [s.endsWith(p)]. *)
Fixpoint endsWith (p s : string) : bool :=
String.eqb p s ||
match s with
| EmptyString => false
| String _ s' => endsWith p s'
end.

(** [s.substring(n)]: [s] without its first [n] characters. *)
Fixpoint drop (n : nat) (s : string) : string :=
match n, s with
| O, _ => s
| S n', String _ s' => drop n' s'
| S _, EmptyString => EmptyString
end.

(** The pieces of [s.split(c)], head and tail apart: the result of
  [split] is never empty. *)
Fixpoint split_char (c : ascii) (s : string) : string * list string :=
match s with
| EmptyString => (EmptyString, [])
| String a s' =>
    let (h, t) := split_char c s' in
    if Ascii.eqb a c then (EmptyString, h :: t) else (String a h, t)
end.

Definition split (c : ascii) (s : string) : list string :=
let (h, t) := split_char c s in h :: t.

(** [s.replace(p, r)] with a string pattern: the first occurrence only.
  ([r] holds no [$], which [replace] would interpret.) *)
Fixpoint replace_first (p r s : string) : string :=
if startsWith p s then r +:+ drop (String.length p) s
else match s with
     | EmptyString => EmptyString
     | String a s' => String a (replace_first p r s')
     end.

(** [s.slice(0, -1)]. *)
Fixpoint drop_last (s : string) : string :=
match s with
| EmptyString => EmptyString
| String a EmptyString => EmptyString
| String a s' => String a (drop_last s')
end.

(** [s.slice(1, -1)]. *)
Definition slice_1_m1 (s : string) : string :=
match s with
| EmptyString => EmptyString
| String _ s' => drop_last s'
end.

(** [pieces.join(sep)]. *)
Fixpoint join (sep : string) (l : list string) : string :=
match l with
| [] => EmptyString
| [x] => x
| x :: l' => x +:+ sep +:+ join sep l'
end.

Definition is_digit (a : ascii) : bool :=
let n := nat_of_ascii a in (48 <=? n)%nat && (n <=? 57)%nat.

(** The longest prefix of characters satisfying [f], and what follows. *)
Fixpoint span (f : ascii -> bool) (s : string) : string * string :=
match s with
| EmptyString => (EmptyString, EmptyString)
| String a s' =>
    if f a then let (h, t) := span f s' in (String a h, t)
    else (EmptyString, s)
end.

(** Every character of [s] satisfies [f]. *)
Fixpoint all (f : ascii -> bool) (s : string) : bool :=
match s with
| EmptyString => true
| String a s' => f a && all f s'
end.

(** Decimal text of a number, as template literals and [String(n)]
  produce it. *)
Definition of_nat (n : nat) : string :=
NilEmpty.string_of_uint (Nat.to_uint n).

Definition of_Z (z : Z) : string :=
if (z <? 0)%Z then "-" +:+ of_nat (Z.abs_nat z) else of_nat (Z.to_nat z).

(** The value of a run of decimal digits. *)
Definition nat_of_digits (ds : string) : nat :=
match NilEmpty.uint_of_string ds with
| Some d => Nat.of_uint d
| None => 0
end.

End Str.

(** ** Values decoded from JSON *)

Inductive jsvalue : Type :=
| JUndefined
| JNull
| JBool (b : bool)
| JNum (n : Z)
| JStr (s : string)
| JArr (items : list jsvalue)
| JObj (fields : list (string * jsvalue)).

(** [!v] is false. *)
Definition truthy (v : jsvalue) : bool :=
  match v with
  | JUndefined | JNull => false
  | JBool b => b
  | JNum n => negb (n =? 0)%Z
  | JStr s => negb (String.eqb s "")
  | JArr _ | JObj _ => true
  end.

(** [v === undefined || v === null]. *)
Definition nullish (v : jsvalue) : bool :=
  match v with
  | JUndefined | JNull => true
  | _ => false
  end.

(** Own property [key] of an object literal. *)
Fixpoint assoc (key : string) (fields : list (string * jsvalue)) : jsvalue :=
  match fields with
  | [] => JUndefined
  | (k, v) :: rest => if String.eqb k key then v else assoc key rest
  end.

(** A property key that is an array index: the canonical decimal text
    of a natural number. *)
Definition array_index (key : string) : option nat :=
  let n := Str.nat_of_digits key in
  if String.eqb (Str.of_nat n) key then Some n else None.

Definition char_at (s : string) (i : nat) : jsvalue :=
  match String.get i s with
  | Some c => JStr (String c EmptyString)
  | None => JUndefined
  end.

(** [v[key]] for a [v] that is neither null nor undefined. *)
Definition js_get (v : jsvalue) (key : string) : jsvalue :=
  match v with
  | JObj fields => assoc key fields
  | JArr items =>
      if String.eqb key "length" then JNum (Z.of_nat (List.length items))
      else match array_index key with
           | Some i => nth i items JUndefined
           | None => JUndefined
           end
  | JStr s =>
      if String.eqb key "length" then JNum (Z.of_nat (String.length s))
      else match array_index key with
           | Some i => char_at s i
           | None => JUndefined
           end
  | _ => JUndefined
  end.

(** A JavaScript number that came out of [parseInt]. *)
Inductive jsint : Type :=
| NaN
| Int (z : Z).

Definition is_space (a : ascii) : bool :=
  let n := nat_of_ascii a in
  (n =? 32)%nat || ((9 <=? n)%nat && (n <=? 13)%nat).

Definition hex_digit (a : ascii) : option nat :=
  let n := nat_of_ascii a in
  if Str.is_digit a then Some (n - 48)%nat
  else if (97 <=? n)%nat && (n <=? 102)%nat then Some (n - 87)%nat
  else if (65 <=? n)%nat && (n <=? 70)%nat then Some (n - 55)%nat
  else None.

Definition is_hex_digit (a : ascii) : bool :=
  match hex_digit a with Some _ => true | None => false end.

Fixpoint nat_of_hex (acc : nat) (s : string) : nat :=
  match s with
  | EmptyString => acc
  | String a s' =>
      match hex_digit a with
      | Some d => nat_of_hex (16 * acc + d) s'
      | None => acc
      end
  end.

(** The digits of [parseInt] after white space and sign: hexadecimal
    after a [0x] prefix, decimal otherwise; [NaN] without a digit. *)
Definition parse_magnitude (s : string) : option nat :=
  if Str.startsWith "0x" s || Str.startsWith "0X" s then
    let hs := fst (Str.span is_hex_digit (Str.drop 2 s)) in
    if String.eqb hs "" then None else Some (nat_of_hex 0 hs)
  else
    let ds := fst (Str.span Str.is_digit s) in
    if String.eqb ds "" then None else Some (Str.nat_of_digits ds).

(** [parseInt(s)] on integers of any size (a JavaScript number is exact
    up to 2^53). *)
Definition parseInt (s : string) : jsint :=
  let s1 := snd (Str.span is_space s) in
  let (neg, s2) :=
    match s1 with
    | String "-" r => (true, r)
    | String "+" r => (false, r)
    | _ => (false, s1)
    end in
  match parse_magnitude s2 with
  | None => NaN
  | Some n => Int (if neg then - Z.of_nat n else Z.of_nat n)
  end.

(** The property key a number turns into. *)
Definition key_of_jsint (i : jsint) : string :=
  match i with
  | NaN => "NaN"
  | Int z => Str.of_Z z
  end.

(** [v?.[index]]. *)
Definition js_opt_index (v : jsvalue) (index : jsint) : jsvalue :=
  if nullish v then JUndefined else js_get v (key_of_jsint index).

(** ** VariableResolver: [resolveVariable] *)

Section Resolver.

Variable sequenceResults : gmap string jsvalue.

(** One turn of the loop over [pathParts]: the new [value].  A part
    that includes an opening bracket splits into two pieces at least,
    so the last case of the [match] is never reached. *)
Definition resolve_part (value : jsvalue) (part : string) : jsvalue :=
  if Str.includes_char "[" part && Str.includes_char "]" part then
    match Str.split "[" part with
    | arrayName :: indexStr :: _ =>
        let index := parseInt (Str.replace_first "]" "" indexStr) in
        js_opt_index (js_get value arrayName) index
    | _ => JUndefined
    end
  else js_get value part.

(** The loop: [null] as soon as a value is null or undefined. *)
Fixpoint resolve_parts (value : jsvalue) (pathParts : list string)
  : jsvalue :=
  match pathParts with
  | [] => value
  | part :: rest =>
      let value' := resolve_part value part in
      if nullish value' then JNull else resolve_parts value' rest
  end.

(** [resolveVariable(variablePath)]: [null] when the [Map] has nothing
    under the first piece or holds a falsy value there. *)
Definition resolveVariable (variablePath : string) : jsvalue :=
  let (itemId, pathParts) := Str.split_char "." variablePath in
  match sequenceResults !! itemId with
  | None => JNull
  | Some result =>
      if truthy result then resolve_parts result pathParts else JNull
  end.

End Resolver.

(** *** The walk the specification describes

    The expression grammar [<stepId>.<segment>(.<segment>)*] and the
    accesses one would make by hand, written down independently of the
    text processing of [resolveVariable]. *)

Inductive segment : Type :=
| Field (name : string)
| Index (name : string) (index : nat).

Definition render_segment (seg : segment) : string :=
  match seg with
  | Field name => name
  | Index name index => name +:+ "[" +:+ Str.of_nat index +:+ "]"
  end.

Definition render_expression (stepId : string) (segs : list segment) : string :=
  Str.join "." (stepId :: map render_segment segs).

(** [v[i]] with a number [i]: an element of an array, a character of a
    string, the property named by the number of an object. *)
Definition element (v : jsvalue) (i : nat) : jsvalue :=
  match v with
  | JArr items => nth i items JUndefined
  | JStr s => char_at s i
  | JObj fields => assoc (Str.of_nat i) fields
  | _ => JUndefined
  end.

Definition access (v : jsvalue) (seg : segment) : jsvalue :=
  match seg with
  | Field name => js_get v name
  | Index name index =>
      let a := js_get v name in
      if nullish a then JUndefined else element a index
  end.

Fixpoint handWalk (v : jsvalue) (segs : list segment) : jsvalue :=
  match segs with
  | [] => v
  | seg :: rest =>
      let v' := access v seg in
      if nullish v' then JNull else handWalk v' rest
  end.

(** A name of the grammar: no dot and no bracket. *)
Definition name_ok (name : string) : bool :=
  negb (Str.includes_char "." name)
  && negb (Str.includes_char "[" name)
  && negb (Str.includes_char "]" name).

Definition segment_ok (seg : segment) : bool :=
  match seg with
  | Field name => name_ok name
  | Index name _ => name_ok name
  end.

(** ** Inline placeholders: [resolveVariablePlaceholder] *)

(** The pattern [\{\{([^}]+)\}\}] at the start of [s]: the captured
    text.  The greedy class stops at the first closing brace, and no
    shorter run can be followed by one. *)
Definition match_placeholder_here (s : string) : option string :=
  match s with
  | String "{" (String "{" r) =>
      let (body, rest) := Str.span (fun a => negb (Ascii.eqb a "}")) r in
      if String.eqb body "" then None
      else if Str.startsWith "}}" rest then Some body else None
  | _ => None
  end.

(** [value.match(...)]: the leftmost match. *)
Fixpoint find_placeholder (s : string) : option string :=
  match match_placeholder_here s with
  | Some e => Some e
  | None =>
      match s with
      | EmptyString => None
      | String _ s' => find_placeholder s'
      end
  end.

Definition resolveVariablePlaceholder
    (sequenceResults : gmap string jsvalue) (value : string) : jsvalue :=
  match find_placeholder value with
  | Some variablePath => resolveVariable sequenceResults variablePath
  | None => JStr value
  end.

(** ** The sequence *)

Record Endpoint : Type := {
  method : jsvalue;
  path : jsvalue;
  summary : jsvalue;
  description : jsvalue;
  tags : jsvalue;
  operationId : string;
  security : list string
}.

Record SequenceItem : Type := {
  id : string;
  endpoint : Endpoint;
  endpointIndex : Z;
  parameters : jsvalue;
  variableMappings : jsvalue;
  executed : bool;
  result : jsvalue;
  error : option string;
  isImported : bool
}.

(** [apiSequence.findIndex(item => item.id === sequenceId)]; [None] is
    the source's [-1]. *)
Fixpoint findIndex (sequenceId : string) (apiSequence : list SequenceItem)
  : option nat :=
  match apiSequence with
  | [] => None
  | item :: rest =>
      if String.eqb (id item) sequenceId then Some 0
      else option_map S (findIndex sequenceId rest)
  end.

(** ** ReferenceRewriter *)

(** [[a-zA-Z0-9_]]. *)
Definition is_word (a : ascii) : bool :=
  let n := nat_of_ascii a in
  Str.is_digit a
  || ((97 <=? n)%nat && (n <=? 122)%nat)
  || ((65 <=? n)%nat && (n <=? 90)%nat)
  || (n =? 95)%nat.

(** What [.] of a regular expression does not match. *)
Definition is_line_terminator (a : ascii) : bool :=
  let n := nat_of_ascii a in (n =? 10)%nat || (n =? 13)%nat.

(** [.*?\}\}] at the start of [s]: the shortest run of characters, none
    a line terminator, that two closing braces follow. *)
Fixpoint lazy_path (s : string) : option string :=
  if Str.startsWith "}}" s then Some EmptyString
  else match s with
       | EmptyString => None
       | String a s' =>
           if is_line_terminator a then None
           else option_map (String a) (lazy_path s')
       end.

(** [\{\{ lit cls+ (\..*?) \}\}] at the start of [s]: the run of class
    characters and the second group. *)
Definition match_reference_here
    (lit : string) (cls : ascii -> bool) (s : string)
  : option (string * string) :=
  if Str.startsWith ("{{" +:+ lit) s then
    let (run, rest) := Str.span cls (Str.drop (2 + String.length lit) s) in
    if String.eqb run "" then None
    else match rest with
         | String "." rest' =>
             match lazy_path rest' with
             | Some p => Some (run, String "." p)
             | None => None
             end
         | _ => None
         end
  else None.

(** [s.replace(re, fn)] with a global pattern: [m] gives, where the
    pattern matches at the start of its argument, the text that [fn]
    returns and the length of the match; [skip] characters of a match
    remain to be passed over. *)
Fixpoint replace_global
    (m : string -> option (string * nat)) (skip : nat) (s : string)
    {struct s} : string :=
  match s with
  | EmptyString =>
      match skip with
      | O => match m EmptyString with Some (r, _) => r | None => EmptyString end
      | S _ => EmptyString
      end
  | String a s' =>
      match skip with
      | S k => replace_global m k s'
      | O =>
          match m s with
          | Some (r, len) => r +:+ replace_global m (len - 1) s'
          | None => String a (replace_global m 0 s')
          end
      end
  end.

(** [/step(\d+)/] at the start of [s], then anywhere in it: group 1. *)
Definition match_step_here (s : string) : option string :=
  if Str.startsWith "step" s then
    let ds := fst (Str.span Str.is_digit (Str.drop 4 s)) in
    if String.eqb ds "" then None else Some ds
  else None.

Fixpoint find_step (s : string) : option string :=
  match match_step_here s with
  | Some ds => Some ds
  | None =>
      match s with
      | EmptyString => None
      | String _ s' => find_step s'
      end
  end.

Section Rewriter.

Variable apiSequence : list SequenceItem.

(** The callback of [convertVariableToStepReference] on one match of
    [\{\{(seq_[a-zA-Z0-9_]+)(\..*?)\}\}]. *)
Definition stable_replacement (currentStepIndex : nat) (s : string)
  : option (string * nat) :=
  match match_reference_here "seq_" is_word s with
  | None => None
  | Some (run, path) =>
      let sequenceId := "seq_" +:+ run in
      let matched := "{{" +:+ sequenceId +:+ path +:+ "}}" in
      let len := String.length matched in
      match findIndex sequenceId apiSequence with
      | Some stepIndex =>
          if (stepIndex <? currentStepIndex)%nat
          then Some ("{{step" +:+ Str.of_nat stepIndex +:+ path +:+ "}}", len)
          else match find_step sequenceId with
               | Some ds => Some ("{{step" +:+ ds +:+ path +:+ "}}", len)
               | None => Some (matched, len)
               end
      | None =>
          match find_step sequenceId with
          | Some ds => Some ("{{step" +:+ ds +:+ path +:+ "}}", len)
          | None => Some (matched, len)
          end
      end
  end.

Definition convertVariableToStepReference
    (value : jsvalue) (currentStepIndex : nat) : jsvalue :=
  match value with
  | JStr s => JStr (replace_global (stable_replacement currentStepIndex) 0 s)
  | _ => value
  end.

(** The callback of [convertStepReferenceToVariable] on one match of
    [\{\{step(\d+)(\..*?)\}\}]. *)
Definition runtime_replacement (currentStepIndex : nat) (s : string)
  : option (string * nat) :=
  match match_reference_here "step" Str.is_digit s with
  | None => None
  | Some (stepIndex, path) =>
      let matched := "{{step" +:+ stepIndex +:+ path +:+ "}}" in
      let len := String.length matched in
      match parseInt stepIndex with
      | Int stepNum =>
          if (stepNum <? Z.of_nat currentStepIndex)%Z
             && (stepNum <? Z.of_nat (List.length apiSequence))%Z
          then match apiSequence !! Z.to_nat stepNum with
               | Some referencedItem =>
                   Some ("{{" +:+ id referencedItem +:+ path +:+ "}}", len)
               | None => Some (matched, len)
               end
          else Some (matched, len)
      | NaN => Some (matched, len)
      end
  end.

Definition convertStepReferenceToVariable
    (value : jsvalue) (currentStepIndex : nat) : jsvalue :=
  match value with
  | JStr s => JStr (replace_global (runtime_replacement currentStepIndex) 0 s)
  | _ => value
  end.

End Rewriter.

(** *** Expressions with backward references

    The expressions the round trip is stated for: literal text and
    references [{{seq_<run><path>}}] to steps of the sequence, written
    down independently of the pattern matching above. *)

Inductive chunk : Type :=
| Text (text : string)
| Ref (run : string) (pathTail : string).

Definition runtime_id (run : string) : string := "seq_" +:+ run.

(** A character a path may hold: no closing brace, no line terminator. *)
Definition is_path_char (a : ascii) : bool :=
  negb (Ascii.eqb a "}") && negb (is_line_terminator a).

Definition render_chunk (c : chunk) : string :=
  match c with
  | Text text => text
  | Ref run pathTail => "{{" +:+ runtime_id run +:+ "." +:+ pathTail +:+ "}}"
  end.

Fixpoint render_chunks (l : list chunk) : string :=
  match l with
  | [] => EmptyString
  | c :: l' => render_chunk c +:+ render_chunks l'
  end.

(** The same expression with every reference in the stable form, by the
    position of the referenced step. *)
Definition render_stable_chunk (apiSequence : list SequenceItem) (c : chunk)
  : string :=
  match c with
  | Text text => text
  | Ref run pathTail =>
      match findIndex (runtime_id run) apiSequence with
      | Some stepIndex =>
          "{{step" +:+ Str.of_nat stepIndex +:+ "." +:+ pathTail +:+ "}}"
      | None => render_chunk c
      end
  end.

Fixpoint render_stable (apiSequence : list SequenceItem) (l : list chunk)
  : string :=
  match l with
  | [] => EmptyString
  | c :: l' => render_stable_chunk apiSequence c +:+ render_stable apiSequence l'
  end.

(** Literal text holds no two opening braces in a row and does not end
    in one; a reference names, by a runtime id of the generated form, a
    step strictly before position [currentStepIndex]. *)
Definition chunk_ok (apiSequence : list SequenceItem)
    (currentStepIndex : nat) (c : chunk) : bool :=
  match c with
  | Text text => negb (Str.includes "{{" text) && negb (Str.endsWith "{" text)
  | Ref run pathTail =>
      negb (String.eqb run "") && Str.all is_word run
      && Str.all is_path_char pathTail
      && match findIndex (runtime_id run) apiSequence with
         | Some stepIndex => (stepIndex <? currentStepIndex)%nat
         | None => false
         end
  end.

(** ** Coercions of the language *)

(** [String(v)], as template literals, [encodeURIComponent] and
    [URLSearchParams.append] apply it. *)
Fixpoint to_string (v : jsvalue) : string :=
  match v with
  | JUndefined => "undefined"
  | JNull => "null"
  | JBool true => "true"
  | JBool false => "false"
  | JNum n => Str.of_Z n
  | JStr s => s
  | JArr items =>
      Str.join ","
        (map (fun x => if nullish x then EmptyString else to_string x) items)
  | JObj _ => "[object Object]"
  end.

Fixpoint indexed {A : Type} (i : nat) (l : list A) : list (string * A) :=
  match l with
  | [] => []
  | x :: l' => (Str.of_nat i, x) :: indexed (S i) l'
  end.

Fixpoint chars (s : string) : list jsvalue :=
  match s with
  | EmptyString => []
  | String a s' => JStr (String a EmptyString) :: chars s'
  end.

(** The own enumerable properties of a value that is neither null nor
    undefined, in enumeration order: what [Object.entries], [for ... in]
    with [hasOwnProperty] and object spread see. *)
Definition own_entries (v : jsvalue) : list (string * jsvalue) :=
  match v with
  | JObj fields => fields
  | JArr items => indexed 0 items
  | JStr s => indexed 0 (chars s)
  | _ => []
  end.

(** ** Exceptions *)

Inductive thrown : Type :=
| TypeError (site : string)
| Rejected (message : string).

Inductive outcome (A : Type) : Type :=
| Ok (a : A)
| Throw (e : thrown).

Arguments Ok {A} a.
Arguments Throw {A} e.

Definition bind {A B : Type} (x : outcome A) (f : A -> outcome B) : outcome B :=
  match x with
  | Ok a => f a
  | Throw e => Throw e
  end.

Notation "'try' x <- c ; k" := (bind c (fun x => k))
  (at level 10, x name, c at level 100, k at level 200).

(** [v[key]], which throws on null and undefined. *)
Definition get_or_throw (v : jsvalue) (key : string) : outcome jsvalue :=
  if nullish v then Throw (TypeError key) else Ok (js_get v key).

(** ** ParameterBuilder *)

(** All matches of a pattern from left to right, each given by [m] as
    the text kept and the length of the match. *)
Fixpoint scan_matches
    (m : string -> option (string * nat)) (skip : nat) (s : string)
    {struct s} : list string :=
  match s with
  | EmptyString => []
  | String a s' =>
      match skip with
      | S k => scan_matches m k s'
      | O =>
          match m s with
          | Some (r, len) => r :: scan_matches m (len - 1) s'
          | None => scan_matches m 0 s'
          end
      end
  end.

(** [{([^}]+)}] at the start of [s]; the text kept is
    [match.slice(1, -1)]. *)
Definition match_path_parameter (s : string) : option (string * nat) :=
  match s with
  | String "{" r =>
      let (body, rest) := Str.span (fun a => negb (Ascii.eqb a "}")) r in
      if String.eqb body "" then None
      else if Str.startsWith "}" rest
           then Some (body, 2 + String.length body)
           else None
  | _ => None
  end.

(** [extractPathParameters(path)]; a [path] that is no string has no
    [match] method. *)
Definition extractPathParameters (path : jsvalue) : outcome (list string) :=
  match path with
  | JStr p => Ok (scan_matches match_path_parameter 0 p)
  | _ => Throw (TypeError "path.match")
  end.

Record Request : Type := {
  req_url : string;
  req_method : jsvalue;
  req_token : string;
  req_body : option jsvalue
}.

Inductive FetchResult : Type :=
| FetchThrows (message : string)
| Response (ok : bool) (status : nat) (responseData : jsvalue).

Record State : Type := {
  apiSequence : list SequenceItem;
  sequenceResults : gmap string jsvalue;
  personalAccessToken : string;
  baseUrl : string;
  (** Not a field of the class: the requests handed to [fetch] so far,
      oldest first. *)
  issued : list Request
}.

Definition with_sequence (st : State) (l : list SequenceItem) : State :=
  {| apiSequence := l;
     sequenceResults := sequenceResults st;
     personalAccessToken := personalAccessToken st;
     baseUrl := baseUrl st;
     issued := issued st |}.

(** Assignments to the fields of the item at position [i]. *)
Definition update_item (i : nat) (f : SequenceItem -> SequenceItem)
    (st : State) : State :=
  with_sequence st (alter f i (apiSequence st)).

Definition set_outcome (executed' : bool) (result' : jsvalue)
    (error' : option string) (item : SequenceItem) : SequenceItem :=
  {| id := id item;
     endpoint := endpoint item;
     endpointIndex := endpointIndex item;
     parameters := parameters item;
     variableMappings := variableMappings item;
     executed := executed';
     result := result';
     error := error';
     isImported := isImported item |}.

Section Executor.

(** The collaborators: the HTTP API with whatever state it has, the
    two URL encoders of the platform, and the text of the engine's
    type errors. *)
Variable World : Type.
Variable fetch : Request -> World -> FetchResult * World.
Variable encodeURIComponent : string -> string.
Variable searchParamsToString : list (string * string) -> string.
Variable typeErrorMessage : string -> string.

Definition message_of (e : thrown) : string :=
  match e with
  | TypeError site => typeErrorMessage site
  | Rejected message => message
  end.

(** The body of [pathParams.forEach] in [executeSequenceItem]: the URL
    after the turn for [param]. *)
Definition apply_path_param (results : gmap string jsvalue)
    (item : SequenceItem) (url : string) (param : string)
  : outcome string :=
  try pathValues <- get_or_throw (parameters item) "path" ;
  try value <- get_or_throw pathValues param ;
  try mapping <- get_or_throw (variableMappings item) param ;
  try value <- (if truthy mapping then
              match mapping with
              | JStr variablePath => Ok (resolveVariable results variablePath)
              | _ => Throw (TypeError "variablePath.split")
              end
            else Ok value) ;
  let value :=
    match value with
    | JStr s =>
        if truthy value && Str.includes "{{" s && Str.includes "}}" s
        then resolveVariablePlaceholder results s
        else value
    | _ => value
    end in
  if truthy value
  then Ok (Str.replace_first ("{" +:+ param +:+ "}")
             (encodeURIComponent (to_string value)) url)
  else Ok url.

Fixpoint apply_path_params (results : gmap string jsvalue)
    (item : SequenceItem) (url : string) (pathParams : list string)
  : outcome string :=
  match pathParams with
  | [] => Ok url
  | param :: rest =>
      try url' <- apply_path_param results item url param ;
      apply_path_params results item url' rest
  end.

(** The body of the [forEach] of [buildQueryParameters] for a sequence
    item: what one entry appends. *)
Definition query_entry (results : gmap string jsvalue)
    (entry : string * jsvalue) : list (string * string) :=
  let (key, value) := entry in
  if truthy value then
    match value with
    | JStr s =>
        if Str.includes "{{" s && Str.includes "}}" s then
          match resolveVariablePlaceholder results s with
          | JNull => []
          | resolvedValue => [(key, to_string resolvedValue)]
          end
        else [(key, s)]
    | _ => [(key, to_string value)]
    end
  else [].

(** [buildQueryParameters] with [currentSequenceItem] set. *)
Definition buildQueryParameters (results : gmap string jsvalue)
    (sequenceItem : SequenceItem) : outcome (list (string * string)) :=
  try query <- get_or_throw (parameters sequenceItem) "query" ;
  if nullish query then Throw (TypeError "Object.entries")
  else Ok (List.app (flat_map (query_entry results) (own_entries query))
                    [("opt_pretty", "true")]).

Definition sends_body (m : jsvalue) : bool :=
  match m with
  | JStr s => String.eqb s "POST" || String.eqb s "PUT" || String.eqb s "PATCH"
  | _ => false
  end.

(** The part of [executeSequenceItem] from the URL to the options of
    [fetch]. *)
Definition build_request (st : State) (item : SequenceItem)
  : outcome Request :=
  let url := baseUrl st +:+ to_string (path (endpoint item)) in
  try pathParams <- extractPathParameters (path (endpoint item)) ;
  try url <- apply_path_params (sequenceResults st) item url pathParams ;
  try queryParams <- buildQueryParameters (sequenceResults st) item ;
  let qs := searchParamsToString queryParams in
  let url := if String.eqb qs "" then url else url +:+ "?" +:+ qs in
  try body <- get_or_throw (parameters item) "body" ;
  Ok {| req_url := url;
        req_method := method (endpoint item);
        req_token := personalAccessToken st;
        req_body := if truthy body && sends_body (method (endpoint item))
                    then Some body else None |}.

(** [responseData.errors?.[0]?.message || 'API call failed']. *)
Definition api_error_text (responseData : jsvalue) : outcome string :=
  try errors <- get_or_throw responseData "errors" ;
  let first := if nullish errors then JUndefined else js_get errors "0" in
  let message := if nullish first then JUndefined else js_get first "message" in
  Ok (if truthy message then to_string message else "API call failed").

Definition log_request (req : Request) (st : State) : State :=
  {| apiSequence := apiSequence st;
     sequenceResults := sequenceResults st;
     personalAccessToken := personalAccessToken st;
     baseUrl := baseUrl st;
     issued := List.app (issued st) [req] |}.

Definition store_result (key : string) (data : jsvalue) (st : State) : State :=
  {| apiSequence := apiSequence st;
     sequenceResults := <[key := data]> (sequenceResults st);
     personalAccessToken := personalAccessToken st;
     baseUrl := baseUrl st;
     issued := issued st |}.

Definition network_error (i : nat) (e : thrown) (st : State) : State :=
  update_item i
    (set_outcome true JNull (Some ("Network Error: " +:+ message_of e))) st.

(** [executeSequenceItem(itemId)]: the item is reset, the request is
    built and handed to [fetch], and the outcome is written to the
    item, and to [sequenceResults] under the item's id when the
    response is ok.  Whatever is thrown on the way becomes the item's
    [Network Error]. *)
Definition executeSequenceItem (itemId : string) (st : State) (w : World)
  : State * World :=
  match findIndex itemId (apiSequence st) with
  | None => (st, w)
  | Some i =>
      match apiSequence st !! i with
      | None => (st, w)
      | Some item =>
          let st := update_item i (set_outcome false JNull None) st in
          match build_request st item with
          | Throw e => (network_error i e st, w)
          | Ok req =>
              let st := log_request req st in
              match fetch req w with
              | (FetchThrows message, w') =>
                  (network_error i (Rejected message) st, w')
              | (Response true _ responseData, w') =>
                  (store_result (id item) responseData
                     (update_item i (set_outcome true responseData None) st),
                   w')
              | (Response false status responseData, w') =>
                  match api_error_text responseData with
                  | Throw e => (network_error i e st, w')
                  | Ok text =>
                      (update_item i
                         (set_outcome true JNull
                            (Some (Str.of_nat status +:+ ": " +:+ text))) st,
                       w')
                  end
              end
          end
      end
  end.

(** [if (item.error)]. *)
Definition has_error (item : SequenceItem) : bool :=
  match error item with
  | Some e => negb (String.eqb e "")
  | None => false
  end.

(** The [for] loop of [executeSequence] from index [i], with [n] turns
    left. *)
Fixpoint executeSequence_from (n i : nat) (st : State) (w : World)
  : State * World :=
  match n with
  | O => (st, w)
  | S n' =>
      match apiSequence st !! i with
      | None => (st, w)
      | Some item =>
          let (st', w') := executeSequenceItem (id item) st w in
          match apiSequence st' !! i with
          | Some item' =>
              if has_error item' then (st', w')
              else executeSequence_from n' (S i) st' w'
          | None => (st', w')
          end
      end
  end.

(** The first [n] turns from index [i] without the test that ends the
    loop: the calls of [executeSequenceItem] in positional order. *)
Fixpoint run_steps (n i : nat) (st : State) (w : World) : State * World :=
  match n with
  | O => (st, w)
  | S n' =>
      match apiSequence st !! i with
      | None => (st, w)
      | Some item =>
          let (st', w') := executeSequenceItem (id item) st w in
          run_steps n' (S i) st' w'
      end
  end.

(** [item.error] is set on the item at position [i]. *)
Definition error_at (i : nat) (st : State) : bool :=
  match apiSequence st !! i with
  | Some item => has_error item
  | None => false
  end.

(** [executeSequence()]: nothing is run for an empty sequence or
    without a token. *)
Definition executeSequence (st : State) (w : World) : State * World :=
  if (List.length (apiSequence st) =? 0)%nat then (st, w)
  else if String.eqb (personalAccessToken st) "" then (st, w)
  else executeSequence_from (List.length (apiSequence st)) 0 st w.

End Executor.

(** The runtime ids of a sequence. *)
Definition ids (l : list SequenceItem) : list string := map id l.

(** What one call of [executeSequenceItem] may change. *)
Record touches (i : option nat) (st st' : State) : Prop := {
  touches_items :
    exists f, (forall item, id (f item) = id item)
              /\ apiSequence st'
                 = match i with
                   | Some i => alter f i (apiSequence st)
                   | None => apiSequence st
                   end;
  touches_issued :
    (List.length (issued st') <= S (List.length (issued st)))%nat;
  touches_store :
    forall key, ~ In key (ids (apiSequence st)) ->
                sequenceResults st' !! key = sequenceResults st !! key;
  touches_token : personalAccessToken st' = personalAccessToken st
}.

(** ** Import: [loadSequenceFromData] *)

(** [a === b] where one side is a string of the catalog: two distinct
    objects or arrays are never identical. *)
Definition strict_eq (a b : jsvalue) : bool :=
  match a, b with
  | JUndefined, JUndefined => true
  | JNull, JNull => true
  | JBool x, JBool y => Bool.eqb x y
  | JNum x, JNum y => (x =? y)%Z
  | JStr x, JStr y => String.eqb x y
  | _, _ => false
  end.

(** [a || b]. *)
Definition or_else (a b : jsvalue) : jsvalue :=
  if truthy a then a else b.

(** [s.slice(2, -2)]. *)
Definition slice_2_m2 (s : string) : string :=
  Str.drop_last (Str.drop_last (Str.drop 2 s)).

(** [{ path: {}, query: {}, body: null }]. *)
Definition empty_parameters : jsvalue :=
  JObj [("path", JObj []); ("query", JObj []); ("body", JNull)].

Definition clearSequence (st : State) : State :=
  {| apiSequence := [];
     sequenceResults := ∅;
     personalAccessToken := personalAccessToken st;
     baseUrl := baseUrl st;
     issued := issued st |}.

Section Importer.

(** The catalog, the ids that [Date.now()] and [Math.random()] give
    the entry at each index, the answer to the [confirm] dialog, and
    the text of the engine's type errors. *)
Variable endpoints : list Endpoint.
Variable newId : nat -> string.
Variable confirmed : bool.
Variable typeErrorMessage : string -> string.

(** The [Object.keys(...).forEach] of [convertParametersForImport]
    over a copy of one of the two tables. *)
Definition convert_table (apiSequence : list SequenceItem)
    (table : jsvalue) (stepIndex : nat) : jsvalue :=
  JObj (map (fun kv : string * jsvalue =>
               if truthy (snd kv)
               then (fst kv,
                     convertStepReferenceToVariable apiSequence (snd kv) stepIndex)
               else kv)
            (own_entries table)).

Definition convertParametersForImport (apiSequence : list SequenceItem)
    (parameters : jsvalue) (stepIndex : nat) : jsvalue :=
  let body := js_get parameters "body" in
  JObj [("path", convert_table apiSequence (js_get parameters "path") stepIndex);
        ("query", convert_table apiSequence (js_get parameters "query") stepIndex);
        ("body", if truthy body
                 then convertStepReferenceToVariable apiSequence body stepIndex
                 else body)].

(** One turn of the [forEach] of [convertVariableMappingsForImport]. *)
Definition convert_mapping (apiSequence : list SequenceItem)
    (stepIndex : nat) (kv : string * jsvalue)
  : outcome (string * jsvalue) :=
  let (key, originalValue) := kv in
  if truthy originalValue then
    match originalValue with
    | JStr original =>
        let wrappedValue :=
          if Str.startsWith "{{" original then original
          else "{{" +:+ original +:+ "}}" in
        match convertStepReferenceToVariable apiSequence
                (JStr wrappedValue) stepIndex with
        | JStr converted =>
            if Str.startsWith "{{" converted && Str.endsWith "}}" converted
            then Ok (key, JStr (slice_2_m2 converted))
            else Ok (key, JStr converted)
        | other => Ok (key, other)
        end
    | _ => Throw (TypeError "originalValue.startsWith")
    end
  else Ok kv.

Fixpoint convert_mappings (apiSequence : list SequenceItem)
    (stepIndex : nat) (l : list (string * jsvalue))
  : outcome (list (string * jsvalue)) :=
  match l with
  | [] => Ok []
  | kv :: rest =>
      try kv' <- convert_mapping apiSequence stepIndex kv ;
      try rest' <- convert_mappings apiSequence stepIndex rest ;
      Ok (kv' :: rest')
  end.

Definition convertVariableMappingsForImport
    (apiSequence : list SequenceItem) (variableMappings : jsvalue)
    (stepIndex : nat) : outcome jsvalue :=
  try l <- convert_mappings apiSequence stepIndex (own_entries variableMappings) ;
  Ok (JObj l).

(** [this.endpoints.find(ep => ep.method === importItem.method &&
    ep.path === importItem.path)]. *)
Definition find_endpoint (importItem : jsvalue) : outcome (option Endpoint) :=
  match endpoints with
  | [] => Ok None
  | _ :: _ =>
      if nullish importItem then Throw (TypeError "importItem.method")
      else Ok (List.find
                 (fun ep => strict_eq (method ep) (js_get importItem "method")
                            && strict_eq (path ep) (js_get importItem "path"))
                 endpoints)
  end.

Definition new_item (index : nat) (ep : Endpoint) (parameters' : jsvalue)
    (variableMappings' : jsvalue) (imported : bool) : SequenceItem :=
  {| id := newId index;
     endpoint := ep;
     endpointIndex := (-1)%Z;
     parameters := parameters';
     variableMappings := variableMappings';
     executed := false;
     result := JNull;
     error := None;
     isImported := imported |}.

Definition set_parameters (v : jsvalue) (item : SequenceItem) : SequenceItem :=
  {| id := id item; endpoint := endpoint item;
     endpointIndex := endpointIndex item;
     parameters := v; variableMappings := variableMappings item;
     executed := executed item; result := result item;
     error := error item; isImported := isImported item |}.

Definition set_variableMappings (v : jsvalue) (item : SequenceItem)
  : SequenceItem :=
  {| id := id item; endpoint := endpoint item;
     endpointIndex := endpointIndex item;
     parameters := parameters item; variableMappings := v;
     executed := executed item; result := result item;
     error := error item; isImported := isImported item |}.

(** The body of the [try] for one entry: the sequence afterwards, and
    whether the entry counted as loaded ([true]) or threw and counted
    as skipped ([false]).  An item pushed before the exception stays
    in the sequence. *)
Definition import_entry (apiSequence : list SequenceItem)
    (index : nat) (importItem : jsvalue) : list SequenceItem * bool :=
  match find_endpoint importItem with
  | Throw _ => (apiSequence, false)
  | Ok (Some matchingEndpoint) =>
      let sequenceItem :=
        new_item index matchingEndpoint empty_parameters (JObj []) false in
      let pushed := List.app apiSequence [sequenceItem] in
      let last := (List.length pushed - 1)%nat in
      let pushed :=
        alter (set_parameters
                 (convertParametersForImport pushed
                    (or_else (js_get importItem "parameters") empty_parameters)
                    last)) last pushed in
      match convertVariableMappingsForImport pushed
              (or_else (js_get importItem "variableMappings") (JObj []))
              last with
      | Throw _ => (pushed, false)
      | Ok mappings => (alter (set_variableMappings mappings) last pushed, true)
      end
  | Ok None =>
      if nullish importItem then (apiSequence, false)
      else
        let placeholderEndpoint :=
          {| method := js_get importItem "method";
             path := js_get importItem "path";
             summary := or_else (js_get importItem "summary")
                          (JStr "Imported endpoint");
             description := or_else (js_get importItem "description")
               (JStr "This endpoint was imported but not found in current API spec");
             tags := or_else (js_get importItem "tags") (JArr [JStr "imported"]);
             operationId := "imported_" +:+ Str.of_nat index;
             security := ["oauth2"] |} in
        (List.app apiSequence
           [new_item index placeholderEndpoint
              (or_else (js_get importItem "parameters") empty_parameters)
              (or_else (js_get importItem "variableMappings") (JObj []))
              true],
         true)
  end.

(** The [forEach] over [importData.sequence] from index [index]:
    sequence, [loadedCount], [skippedCount]. *)
Fixpoint import_entries (apiSequence : list SequenceItem)
    (loadedCount skippedCount index : nat) (entries : list jsvalue)
  : list SequenceItem * nat * nat :=
  match entries with
  | [] => (apiSequence, loadedCount, skippedCount)
  | importItem :: rest =>
      let (apiSequence', loaded) := import_entry apiSequence index importItem in
      if loaded
      then import_entries apiSequence' (S loadedCount) skippedCount (S index) rest
      else import_entries apiSequence' loadedCount (S skippedCount) (S index) rest
  end.

(** [x?.length || 0] for the two tables of [dataTransformations]. *)
Definition length_or_zero (v : jsvalue) : nat :=
  match v with
  | JArr items => List.length items
  | JStr s => String.length s
  | _ => 0
  end.

(** The text after the counts, for imported transformation settings
    (arrays, as the export writes them). *)
Definition transformation_suffix (importData : jsvalue) : string :=
  let dt := js_get importData "dataTransformations" in
  if truthy dt then
    let n := (length_or_zero (js_get dt "fieldMappings")
              + length_or_zero (js_get dt "unifiedColumns"))%nat in
    if (0 <? n)%nat
    then " and " +:+ Str.of_nat n +:+ " transformation setting"
         +:+ (if (n =? 1)%nat then "" else "s")
    else ""
  else "".

Inductive Shown : Type :=
| NothingShown
| SuccessMessage (text : string)
| ErrorMessage (text : string).

Record ImportOutcome : Type := {
  after : State;
  loadedCount : nat;
  skippedCount : nat;
  shown : Shown
}.

(** [loadSequenceFromData(importData)]. *)
Definition loadSequenceFromData (importData : jsvalue) (st : State)
  : ImportOutcome :=
  if nullish importData then
    {| after := st; loadedCount := 0; skippedCount := 0;
       shown := ErrorMessage ("❌ Failed to import sequence: "
                              +:+ typeErrorMessage "importData.sequence") |}
  else
    match js_get importData "sequence" with
    | JArr entries =>
        if negb (List.length (apiSequence st) =? 0)%nat && negb confirmed then
          {| after := st; loadedCount := 0; skippedCount := 0;
             shown := NothingShown |}
        else
          let '(l, loaded, skippedN) :=
            import_entries [] 0 0 0 entries in
          let st' := with_sequence (clearSequence st) l in
          if (0 <? loaded)%nat then
            {| after := st'; loadedCount := loaded; skippedCount := skippedN;
               shown := SuccessMessage
                 ((if (0 <? skippedN)%nat
                   then "✅ Loaded " +:+ Str.of_nat loaded +:+ " endpoints ("
                        +:+ Str.of_nat skippedN +:+ " skipped due to errors)"
                   else "✅ Successfully loaded " +:+ Str.of_nat loaded
                        +:+ " endpoints")
                  +:+ transformation_suffix importData) |}
          else
            {| after := st'; loadedCount := loaded; skippedCount := skippedN;
               shown := ErrorMessage
                 "❌ No valid endpoints found in the imported file." |}
    | _ =>
        {| after := st; loadedCount := 0; skippedCount := 0;
           shown := ErrorMessage
             "❌ Failed to import sequence: Invalid sequence format: missing or invalid sequence array" |}
    end.

End Importer.

(** ** TransformationEngine: [flattenObject] *)

(** The number a key stands for when it is an array index: the
    canonical decimal text of an integer below [2^32 - 1]. *)
Definition index_key (key : string) : option N :=
  match NilEmpty.uint_of_string key with
  | Some d =>
      let n := N.of_uint d in
      if String.eqb (NilEmpty.string_of_uint (N.to_uint n)) key
         && (n <? 4294967295)%N
      then Some n else None
  | None => None
  end.

(** The order in which an engine lists the keys of an object: the
    array indices in ascending order, then the other keys in the order
    of their creation.  [listed_before key other]: a new [key] goes in
    front of [other]. *)
Definition listed_before (key other : string) : bool :=
  match index_key key, index_key other with
  | Some n, Some m => (n <? m)%N
  | Some _, None => true
  | None, _ => false
  end.

(** [o[key] = v] on an object held as the list of its properties in
    the order of the engine: a property that exists keeps its place, a
    new array index goes to its place among the indices, and any other
    new key goes last. *)
Fixpoint assign (key : string) (v : jsvalue) (o : list (string * jsvalue))
  : list (string * jsvalue) :=
  match o with
  | [] => [(key, v)]
  | (k, x) :: rest =>
      if String.eqb k key then (k, v) :: rest
      else if listed_before key k then (key, v) :: (k, x) :: rest
      else (k, x) :: assign key v rest
  end.

(** [Object.assign(o, sub)]. *)
Definition assign_all (o sub : list (string * jsvalue))
  : list (string * jsvalue) :=
  fold_left (fun acc kv => assign (fst kv) (snd kv) acc) sub o.

(** Keys in the order of the engine, every key once: no later key is
    the same as an earlier one or would be listed before it. *)
Fixpoint listed (keys : list string) : Prop :=
  match keys with
  | [] => True
  | k :: rest =>
      Forall (fun k' => k' <> k /\ listed_before k' k = false) rest
      /\ listed rest
  end.

(** An object or an array. *)
Definition is_container (v : jsvalue) : bool :=
  match v with
  | JObj _ | JArr _ => true
  | _ => false
  end.

(** [`[Array(${value.length})]`]. *)
Definition array_marker (items : list jsvalue) : jsvalue :=
  JStr ("[Array(" +:+ Str.of_nat (List.length items) +:+ ")]").

(** The body of the [for ... in] loop for one property, given what the
    recursive call returns for a nested object. *)
Definition flatten_property
    (recur : jsvalue -> string -> list (string * jsvalue))
    (prefix : string) (flattened : list (string * jsvalue))
    (kv : string * jsvalue) : list (string * jsvalue) :=
  let (key, value) := kv in
  let newKey := prefix +:+ key in
  match value with
  | JObj _ => assign_all flattened (recur value (newKey +:+ "_"))
  | JArr items => assign newKey (array_marker items) flattened
  | _ => assign newKey value flattened
  end.

(** [flattenObject] by the number of levels left,
    [maxDepth - currentDepth]. *)
Fixpoint flatten_levels (levels : nat) (obj : jsvalue) (prefix : string)
  : list (string * jsvalue) :=
  match levels with
  | O => [(Str.drop_last prefix, JStr "[Object]")]
  | S levels' =>
      fold_left (flatten_property (flatten_levels levels') prefix)
                (own_entries obj) []
  end.

(** [flattenObject(obj, prefix, maxDepth, currentDepth)]; the lemma
    [flattenObject_unfold] gives it in the form of the source. *)
Definition flattenObject (obj : jsvalue) (prefix : string)
    (maxDepth currentDepth : nat) : list (string * jsvalue) :=
  flatten_levels (maxDepth - currentDepth) obj prefix.

(** [this.flattenObject(record)], with the default arguments. *)
Definition flattenRecord (record : jsvalue) : list (string * jsvalue) :=
  flattenObject record "" 3 0.

(** *** The cells of a record

    What a record is flattened to, written down without the loop, the
    accumulator and the assignments of the source, to compare
    [flattenObject] with: every property gives the cells below it,
    under the keys joined by underscores. *)

(** The cells one property gives: an array gives its marker, an object
    gives what lies [below] it, and anything else is kept. *)
Definition property_cells
    (below : jsvalue -> string -> list (string * jsvalue))
    (prefix : string) (kv : string * jsvalue) : list (string * jsvalue) :=
  let joined := prefix +:+ fst kv in
  match snd kv with
  | JObj _ => below (snd kv) joined
  | JArr items => [(joined, array_marker items)]
  | scalar => [(joined, scalar)]
  end.

(** The cells of the properties of an object, with [deeper] more levels
    of objects to open: an object in a property is opened while levels
    are left, and gives the marker [[Object]] when none is. *)
Fixpoint cells (deeper : nat) (prefix : string) (obj : jsvalue)
  : list (string * jsvalue) :=
  flat_map
    (property_cells
       (fun value joined =>
          match deeper with
          | O => [(joined, JStr "[Object]")]
          | S deeper' => cells deeper' (joined +:+ "_") value
          end)
       prefix)
    (own_entries obj).

(** The cell under a key, if there is one. *)
Fixpoint find_cell (key : string) (l : list (string * jsvalue))
  : option jsvalue :=
  match l with
  | [] => None
  | (k, v) :: rest => if String.eqb k key then Some v else find_cell key rest
  end.

(** A record in the order of the engine, without an object or an array
    in a cell. *)
Definition ordered_record (l : list (string * jsvalue)) : Prop :=
  listed (map fst l)
  /\ Forall (fun kv : string * jsvalue => is_container (snd kv) = false) l.

(** ** Sample data *)

Module Sample.

Definition catalog_endpoint (m p : string) : Endpoint :=
  {| method := JStr m;
     path := JStr p;
     summary := JStr "";
     description := JStr "";
     tags := JArr [];
     operationId := "";
     security := ["oauth2"] |}.

(** An item as [addToSequence] creates it. *)
Definition item (itemId m p : string)
    (pathValues query mappings : list (string * jsvalue)) : SequenceItem :=
  {| id := itemId;
     endpoint := catalog_endpoint m p;
     endpointIndex := 0%Z;
     parameters :=
       JObj [("path", JObj pathValues); ("query", JObj query); ("body", JNull)];
     variableMappings := JObj mappings;
     executed := false;
     result := JNull;
     error := None;
     isImported := false |}.

Definition session (items : list SequenceItem) : State :=
  {| apiSequence := items;
     sequenceResults := ∅;
     personalAccessToken := "token";
     baseUrl := "https://app.asana.com/api/1.0";
     issued := [] |}.

(** A response envelope with two records. *)
Definition two_records : jsvalue :=
  JObj [("data", JArr [JObj [("gid", JStr "101"); ("name", JStr "first")];
                       JObj [("gid", JStr "102"); ("name", JStr "second")]])].

Definition not_found : jsvalue :=
  JObj [("errors", JArr [JObj [("message", JStr "Not Found")]])].

(** A collaborator that answers every call with [two_records], and
    one whose second answer is a 404; the state counts the calls. *)
Definition always_ok (req : Request) (calls : nat) : FetchResult * nat :=
  (Response true 200 two_records, S calls).

Definition second_fails (req : Request) (calls : nat) : FetchResult * nat :=
  (match calls with
   | 1 => Response false 404 not_found
   | _ => Response true 200 two_records
   end, S calls).

Definition encode (s : string) : string := s.

Fixpoint serialize (l : list (string * string)) : string :=
  match l with
  | [] => ""
  | [(k, v)] => k +:+ "=" +:+ v
  | (k, v) :: rest => k +:+ "=" +:+ v +:+ "&" +:+ serialize rest
  end.

Definition type_error (site : string) : string :=
  "Cannot read properties of undefined (reading '" +:+ site +:+ "')".

Definition three_steps : list SequenceItem :=
  [item "seq_1_a" "GET" "/workspaces" [] [("limit", JStr "10")] [];
   item "seq_2_b" "GET" "/workspaces/{workspace_gid}/projects"
        [("workspace_gid", JStr "")] [] [("workspace_gid", JStr "seq_1_a.data[0].gid")];
   item "seq_3_c" "GET" "/projects/{project_gid}"
        [("project_gid", JStr "")] [] [("project_gid", JStr "seq_2_b.data[1].gid")]].

Definition catalog : list Endpoint :=
  [catalog_endpoint "GET" "/workspaces"; catalog_endpoint "GET" "/projects"].

Definition new_id (index : nat) : string := "seq_" +:+ Str.of_nat index.



(** A file whose second entry matches the catalog and maps a parameter
    to a number. *)
Definition bad_mapping_file : jsvalue :=
  JObj [("sequence",
         JArr [JObj [("method", JStr "GET"); ("path", JStr "/workspaces")];
               JObj [("method", JStr "GET"); ("path", JStr "/projects");
                     ("variableMappings", JObj [("workspace", JNum 5)])]])].

End Sample.

(** ** Further functions of the class *)

(** *** What the rewriters make of each reference

    For an expression given as literal text and references, the text
    each part becomes: the result of the callbacks of the two
    [convert...] functions, part by part. *)

(** A reference is well formed (a run of word characters, a path
    without closing brace or line terminator) and literal text holds no
    two opening braces in a row and does not end in one; where the
    reference points is left open. *)
Definition chunk_formed (c : chunk) : bool :=
  match c with
  | Text text => negb (Str.includes "{{" text) && negb (Str.endsWith "{" text)
  | Ref run pathTail =>
      negb (String.eqb run "") && Str.all is_word run
      && Str.all is_path_char pathTail
  end.

Definition stable_form (apiSequence : list SequenceItem)
    (currentStepIndex : nat) (c : chunk) : string :=
  match c with
  | Text text => text
  | Ref run pathTail =>
      let other :=
        match find_step (runtime_id run) with
        | Some ds => "{{step" +:+ ds +:+ "." +:+ pathTail +:+ "}}"
        | None => render_chunk c
        end in
      match findIndex (runtime_id run) apiSequence with
      | Some stepIndex =>
          if (stepIndex <? currentStepIndex)%nat
          then "{{step" +:+ Str.of_nat stepIndex +:+ "." +:+ pathTail +:+ "}}"
          else other
      | None => other
      end
  end.

Fixpoint stable_forms (apiSequence : list SequenceItem)
    (currentStepIndex : nat) (l : list chunk) : string :=
  match l with
  | [] => EmptyString
  | c :: l' =>
      stable_form apiSequence currentStepIndex c
      +:+ stable_forms apiSequence currentStepIndex l'
  end.

(** A reference that [convertVariableToStepReference] has nothing to
    say about: the id is not in the sequence, or names a step at the
    current position or after it, and holds no [step<digits>]. *)
Definition chunk_not_backward (apiSequence : list SequenceItem)
    (currentStepIndex : nat) (c : chunk) : bool :=
  match c with
  | Text _ => true
  | Ref run _ =>
      match findIndex (runtime_id run) apiSequence with
      | Some stepIndex => negb (stepIndex <? currentStepIndex)%nat
      | None => true
      end
      && match find_step (runtime_id run) with
         | Some _ => false
         | None => true
         end
  end.

(** Expressions in the exported form: literal text and references
    [{{step<digits><path>}}]. *)
Inductive stable_chunk : Type :=
| SText (text : string)
| SRef (digits : string) (pathTail : string).

Definition render_stable_ref (digits pathTail : string) : string :=
  "{{step" +:+ digits +:+ "." +:+ pathTail +:+ "}}".

Definition render_schunk (c : stable_chunk) : string :=
  match c with
  | SText text => text
  | SRef digits pathTail => render_stable_ref digits pathTail
  end.

Fixpoint render_schunks (l : list stable_chunk) : string :=
  match l with
  | [] => EmptyString
  | c :: l' => render_schunk c +:+ render_schunks l'
  end.

Definition schunk_formed (c : stable_chunk) : bool :=
  match c with
  | SText text => negb (Str.includes "{{" text) && negb (Str.endsWith "{" text)
  | SRef digits pathTail =>
      negb (String.eqb digits "") && Str.all Str.is_digit digits
      && Str.all is_path_char pathTail
  end.

(** What [convertStepReferenceToVariable] makes of a part: the id of
    the step at the position the digits give, when that position is
    before [currentStepIndex] and inside the sequence. *)
Definition runtime_form (apiSequence : list SequenceItem)
    (currentStepIndex : nat) (c : stable_chunk) : string :=
  match c with
  | SText text => text
  | SRef digits pathTail =>
      let stepNum := Str.nat_of_digits digits in
      if (stepNum <? currentStepIndex)%nat then
        match apiSequence !! stepNum with
        | Some referencedItem =>
            "{{" +:+ id referencedItem +:+ "." +:+ pathTail +:+ "}}"
        | None => render_schunk c
        end
      else render_schunk c
  end.

Fixpoint runtime_forms (apiSequence : list SequenceItem)
    (currentStepIndex : nat) (l : list stable_chunk) : string :=
  match l with
  | [] => EmptyString
  | c :: l' =>
      runtime_form apiSequence currentStepIndex c
      +:+ runtime_forms apiSequence currentStepIndex l'
  end.

(** A stable reference to the current position or a later one, or to a
    position outside the sequence. *)
Definition schunk_not_backward (apiSequence : list SequenceItem)
    (currentStepIndex : nat) (c : stable_chunk) : bool :=
  match c with
  | SText _ => true
  | SRef digits _ =>
      let stepNum := Str.nat_of_digits digits in
      negb (stepNum <? currentStepIndex)%nat
      || negb (stepNum <? List.length apiSequence)%nat
  end.

(** The stable form of a reference to a step before the current one. *)
Definition to_stable_chunk (apiSequence : list SequenceItem) (c : chunk)
  : stable_chunk :=
  match c with
  | Text text => SText text
  | Ref run pathTail =>
      match findIndex (runtime_id run) apiSequence with
      | Some stepIndex => SRef (Str.of_nat stepIndex) pathTail
      | None => SText (render_chunk c)
      end
  end.

(** A reference of one session read in another: the id of the step
    that stands, in [target], at the position the referenced step has
    in [source]. *)
Definition rebase_chunk (source target : list SequenceItem) (c : chunk)
  : string :=
  match c with
  | Text text => text
  | Ref run pathTail =>
      match findIndex (runtime_id run) source with
      | Some stepIndex =>
          match target !! stepIndex with
          | Some referencedItem =>
              "{{" +:+ id referencedItem +:+ "." +:+ pathTail +:+ "}}"
          | None => render_stable_chunk source c
          end
      | None => render_chunk c
      end
  end.

Fixpoint rebase_chunks (source target : list SequenceItem) (l : list chunk)
  : string :=
  match l with
  | [] => EmptyString
  | c :: l' => rebase_chunk source target c +:+ rebase_chunks source target l'
  end.

(** ** More sample data *)

Module Sample2.

(** The three steps of [Sample.three_steps] as a later session holds
    them after an import: the same endpoints under other ids. *)
Definition later_session : list SequenceItem :=
  [Sample.item "seq_7_x" "GET" "/workspaces" [] [("limit", JStr "10")] [];
   Sample.item "seq_8_y" "GET" "/workspaces/{workspace_gid}/projects"
     [("workspace_gid", JStr "")] [] [];
   Sample.item "seq_9_z" "GET" "/projects/{project_gid}"
     [("project_gid", JStr "")] [] []].

(** A sequence in which the second id holds [step7]. *)
Definition odd_ids : list SequenceItem :=
  [Sample.item "seq_1_a" "GET" "/workspaces" [] [] [];
   Sample.item "seq_2_step7k" "GET" "/projects" [] [] []].

(** The session of [Sample.three_steps] after its first step has run
    and answered with [Sample.two_records]. *)
Definition after_first_step : State :=
  {| apiSequence :=
       match Sample.three_steps with
       | first :: rest =>
           set_outcome true Sample.two_records None first :: rest
       | [] => []
       end;
     sequenceResults := <["seq_1_a" := Sample.two_records]> ∅;
     personalAccessToken := "token";
     baseUrl := "https://app.asana.com/api/1.0";
     issued := [] |}.

(** A step with two path parameters, the first mapped to the result
    of [seq_1_a] and the second left empty, in a session whose first
    step has run and answered with [Sample.two_records]. *)
Definition half_filled_step : SequenceItem :=
  Sample.item "seq_2_b" "GET" "/workspaces/{workspace_gid}/tasks/{task_gid}"
    [("workspace_gid", JStr ""); ("task_gid", JStr "")]
    [("limit", JStr "5")]
    [("workspace_gid", JStr "seq_1_a.data[0].gid")].

Definition before_half_filled_step : State :=
  {| apiSequence :=
       [set_outcome true Sample.two_records None
          (Sample.item "seq_1_a" "GET" "/workspaces" [] [] []);
        half_filled_step];
     sequenceResults := <["seq_1_a" := Sample.two_records]> ∅;
     personalAccessToken := "token";
     baseUrl := "https://app.asana.com/api/1.0";
     issued := [] |}.

End Sample2.

(** ** What execution leaves alone *)

(** Two items that differ at most in [executed], [result] and [error]. *)
Definition same_configuration (a b : SequenceItem) : Prop :=
  id a = id b /\ endpoint a = endpoint b /\ endpointIndex a = endpointIndex b
  /\ parameters a = parameters b /\ variableMappings a = variableMappings b
  /\ isImported a = isImported b.

(** A query value that does not hold both markers of a placeholder. *)
Definition literal_value (v : jsvalue) : bool :=
  match v with
  | JStr s => negb (Str.includes "{{" s && Str.includes "}}" s)
  | _ => true
  end.

(** The pairs of the truthy values of a table, each value as text. *)
Definition sent_literals (entries : list (string * jsvalue))
  : list (string * string) :=
  map (fun kv : string * jsvalue => (fst kv, to_string (snd kv)))
      (List.filter (fun kv : string * jsvalue => truthy (snd kv)) entries).

(** A state whose steps are those of [st] in the same order, each with
    the configuration it had, under the same token and base URL. *)
Definition configuration_kept (st st' : State) : Prop :=
  Forall2 same_configuration (apiSequence st) (apiSequence st')
  /\ personalAccessToken st' = personalAccessToken st
  /\ baseUrl st' = baseUrl st.

(** ** Export: the conversions of [exportSequence] *)

Section Exporter.

Variable apiSequence : list SequenceItem.

(** The [Object.keys(...).forEach] of [convertParametersForExport]
    over a copy of one of the two tables. *)
Definition export_table (table : jsvalue) (stepIndex : nat) : jsvalue :=
  JObj (map (fun kv : string * jsvalue =>
               if truthy (snd kv)
               then (fst kv,
                     convertVariableToStepReference apiSequence (snd kv) stepIndex)
               else kv)
            (own_entries table)).

(** [convertParametersForExport(parameters, stepIndex)].  The line that
    logs the body calls [substring] on the body as it was, which only a
    string has. *)
Definition convertParametersForExport (parameters : jsvalue) (stepIndex : nat)
  : outcome jsvalue :=
  try pathTable <- get_or_throw parameters "path" ;
  try queryTable <- get_or_throw parameters "query" ;
  let body := js_get parameters "body" in
  try body' <- (if truthy body then
                  match body with
                  | JStr _ =>
                      Ok (convertVariableToStepReference apiSequence body
                            stepIndex)
                  | _ => Throw (TypeError "original.substring")
                  end
                else Ok body) ;
  Ok (JObj [("path", export_table pathTable stepIndex);
            ("query", export_table queryTable stepIndex);
            ("body", body')]).

(** One turn of the [forEach] of [convertVariableMappingsForExport]. *)
Definition export_mapping (stepIndex : nat) (kv : string * jsvalue)
  : outcome (string * jsvalue) :=
  let (key, originalValue) := kv in
  if truthy originalValue then
    match originalValue with
    | JStr original =>
        let wrappedValue :=
          if Str.startsWith "{{" original then original
          else "{{" +:+ original +:+ "}}" in
        match convertVariableToStepReference apiSequence
                (JStr wrappedValue) stepIndex with
        | JStr converted =>
            if Str.startsWith "{{" converted && Str.endsWith "}}" converted
            then Ok (key, JStr (slice_2_m2 converted))
            else Ok (key, JStr converted)
        | other => Ok (key, other)
        end
    | _ => Throw (TypeError "originalValue.startsWith")
    end
  else Ok kv.

Fixpoint export_mappings (stepIndex : nat) (l : list (string * jsvalue))
  : outcome (list (string * jsvalue)) :=
  match l with
  | [] => Ok []
  | kv :: rest =>
      try kv' <- export_mapping stepIndex kv ;
      try rest' <- export_mappings stepIndex rest ;
      Ok (kv' :: rest')
  end.

Definition convertVariableMappingsForExport (variableMappings : jsvalue)
    (stepIndex : nat) : outcome jsvalue :=
  try l <- export_mappings stepIndex (own_entries variableMappings) ;
  Ok (JObj l).

End Exporter.

(** *** Tables of expressions *)

(** A table whose values are expressions given as parts. *)
Definition expression_table (entries : list (string * list chunk)) : jsvalue :=
  JObj (map (fun kv : string * list chunk =>
               (fst kv, JStr (render_chunks (snd kv)))) entries).

(** The same table with every backward reference read in [target]. *)
Definition rebased_table (source target : list SequenceItem)
    (entries : list (string * list chunk)) : jsvalue :=
  JObj (map (fun kv : string * list chunk =>
               (fst kv, JStr (rebase_chunks source target (snd kv)))) entries).

(** The body of a request: none, or an expression. *)
Definition body_value (body : option (list chunk)) : jsvalue :=
  match body with
  | Some l => JStr (render_chunks l)
  | None => JNull
  end.

Definition rebased_body (source target : list SequenceItem)
    (body : option (list chunk)) : jsvalue :=
  match body with
  | Some l => JStr (rebase_chunks source target l)
  | None => JNull
  end.

Definition body_ok (apiSequence : list SequenceItem) (currentStepIndex : nat)
    (body : option (list chunk)) : bool :=
  match body with
  | Some l => forallb (chunk_ok apiSequence currentStepIndex) l
  | None => true
  end.

Definition table_ok (apiSequence : list SequenceItem) (currentStepIndex : nat)
    (entries : list (string * list chunk)) : bool :=
  forallb (fun kv : string * list chunk =>
             forallb (chunk_ok apiSequence currentStepIndex) (snd kv)) entries.

Definition mappings_ok (apiSequence : list SequenceItem)
    (currentStepIndex : nat) (entries : list (string * (string * string)))
  : bool :=
  forallb (fun kv : string * (string * string) =>
             chunk_ok apiSequence currentStepIndex
               (Ref (fst (snd kv)) (snd (snd kv)))) entries.

(** What [convertParametersForExport] makes of tables of
    expressions. *)
Definition exported_parameters (source : list SequenceItem)
    (currentStepIndex : nat)
    (pathEntries queryEntries : list (string * list chunk))
    (body : option (list chunk)) : jsvalue :=
  JObj [("path",
         export_table source (expression_table pathEntries) currentStepIndex);
        ("query",
         export_table source (expression_table queryEntries) currentStepIndex);
        ("body",
         convertVariableToStepReference source (body_value body)
           currentStepIndex)].

(** A mapping as the sequence holds it: the id of a step and a path,
    without braces. *)
Definition mapping_text (reference : string * string) : string :=
  runtime_id (fst reference) +:+ "." +:+ snd reference.

Definition mapping_table (entries : list (string * (string * string)))
  : jsvalue :=
  JObj (map (fun kv : string * (string * string) =>
               (fst kv, JStr (mapping_text (snd kv)))) entries).

(** The mapping read in [target]: the id of the step that stands where
    the referenced step stands in [source]. *)
Definition rebased_mapping (source target : list SequenceItem)
    (reference : string * string) : string :=
  match findIndex (runtime_id (fst reference)) source with
  | Some stepIndex =>
      match target !! stepIndex with
      | Some referencedItem => id referencedItem +:+ "." +:+ snd reference
      | None => "step" +:+ Str.of_nat stepIndex +:+ "." +:+ snd reference
      end
  | None => mapping_text reference
  end.

Definition rebased_mappings (source target : list SequenceItem)
    (entries : list (string * (string * string))) : jsvalue :=
  JObj (map (fun kv : string * (string * string) =>
               (fst kv, JStr (rebased_mapping source target (snd kv))))
            entries).

(** *** The sequence in an export file *)

(** The entry that [exportSequence] writes for the step at [index]. *)
Definition export_entry (apiSequence : list SequenceItem) (index : nat)
    (item : SequenceItem) : outcome jsvalue :=
  try parameters' <-
    convertParametersForExport apiSequence (parameters item) index ;
  try variableMappings' <-
    convertVariableMappingsForExport apiSequence (variableMappings item) index ;
  Ok (JObj [("method", method (endpoint item));
            ("path", path (endpoint item));
            ("summary", summary (endpoint item));
            ("description", description (endpoint item));
            ("tags", tags (endpoint item));
            ("parameters", parameters');
            ("variableMappings", variableMappings')]).

(** [this.apiSequence.map((item, index) => ...)] from position
    [index]: the [sequence] of the export file. *)
Fixpoint export_entries (apiSequence : list SequenceItem) (index : nat)
    (items : list SequenceItem) : outcome (list jsvalue) :=
  match items with
  | [] => Ok []
  | item :: rest =>
      try entry <- export_entry apiSequence index item ;
      try entries <- export_entries apiSequence (S index) rest ;
      Ok (entry :: entries)
  end.

(** The configuration of a step, given by its parts: the two tables
    and the body as expressions, the mappings as references. *)
Record StepPlan : Type := {
  plan_path : list (string * list chunk);
  plan_query : list (string * list chunk);
  plan_body : option (list chunk);
  plan_mappings : list (string * (string * string))
}.

Definition plan_ok (apiSequence : list SequenceItem) (index : nat)
    (plan : StepPlan) : bool :=
  table_ok apiSequence index (plan_path plan)
  && table_ok apiSequence index (plan_query plan)
  && body_ok apiSequence index (plan_body plan)
  && mappings_ok apiSequence index (plan_mappings plan).

Definition planned_parameters (plan : StepPlan) : jsvalue :=
  JObj [("path", expression_table (plan_path plan));
        ("query", expression_table (plan_query plan));
        ("body", body_value (plan_body plan))].

Definition rebased_parameters (source target : list SequenceItem)
    (plan : StepPlan) : jsvalue :=
  JObj [("path", rebased_table source target (plan_path plan));
        ("query", rebased_table source target (plan_query plan));
        ("body", rebased_body source target (plan_body plan))].

(** The step at [index] is configured as the plan says, refers to
    earlier steps only, and has the endpoint that the catalog gives
    for its method and path. *)
Definition follows_plan (endpoints : list Endpoint)
    (apiSequence : list SequenceItem) (index : nat) (item : SequenceItem)
    (plan : StepPlan) : Prop :=
  parameters item = planned_parameters plan
  /\ variableMappings item = mapping_table (plan_mappings plan)
  /\ plan_ok apiSequence index plan = true
  /\ List.find (fun ep => strict_eq (method ep) (method (endpoint item))
                          && strict_eq (path ep) (path (endpoint item)))
       endpoints
     = Some (endpoint item).

Fixpoint follow_plans (endpoints : list Endpoint)
    (apiSequence : list SequenceItem) (index : nat)
    (items : list SequenceItem) (plans : list StepPlan) : Prop :=
  match items, plans with
  | [], [] => True
  | item :: items', plan :: plans' =>
      follows_plan endpoints apiSequence index item plan
      /\ follow_plans endpoints apiSequence (S index) items' plans'
  | _, _ => False
  end.

(** The steps of [source] as an import creates them: new ids, the same
    endpoints, the planned configuration with every reference read in
    [target], nothing executed. *)
Fixpoint planned_items (newId : nat -> string)
    (source target : list SequenceItem) (index : nat)
    (items : list SequenceItem) (plans : list StepPlan)
  : list SequenceItem :=
  match items, plans with
  | item :: items', plan :: plans' =>
      new_item newId index (endpoint item)
        (rebased_parameters source target plan)
        (rebased_mappings source target (plan_mappings plan)) false
      :: planned_items newId source target (S index) items' plans'
  | _, _ => []
  end.

(** ** Editing the sequence *)


(** A step as [addToSequence] and [loadSequenceFromData] create it:
    not executed, without result or error. *)
Definition unexecuted (item : SequenceItem) : Prop :=
  executed item = false /\ result item = JNull /\ error item = None.

(** ** Variable hints: [getAvailableVariables] *)

Record AvailableVariable : Type := {
  variable_path : string;
  variable_description : string;
  example : jsvalue
}.

(** The body of the loop for the item at position [i]: what is pushed.
    [result] and [result.data] are truthy where they are read, so no
    access throws. *)
Definition offered_variables (i : nat) (prevItem : SequenceItem)
  : list AvailableVariable :=
  if executed prevItem && truthy (result prevItem) then
    let data := js_get (result prevItem) "data" in
    if truthy data then
      match data with
      | JArr _ =>
          let first := js_get data "0" in
          [{| variable_path := id prevItem +:+ ".data[0].gid";
              variable_description :=
                "First item GID from step " +:+ Str.of_nat (i + 1);
              example := if nullish first then JUndefined
                         else js_get first "gid" |};
           {| variable_path := id prevItem +:+ ".data[0].name";
              variable_description :=
                "First item name from step " +:+ Str.of_nat (i + 1);
              example := if nullish first then JUndefined
                         else js_get first "name" |}]
      | _ =>
          [{| variable_path := id prevItem +:+ ".data.gid";
              variable_description := "GID from step " +:+ Str.of_nat (i + 1);
              example := js_get data "gid" |};
           {| variable_path := id prevItem +:+ ".data.name";
              variable_description := "Name from step " +:+ Str.of_nat (i + 1);
              example := js_get data "name" |}]
      end
    else []
  else [].

(** The loop from [i] with [n] turns left; reading a field of
    [apiSequence[i]] throws when the sequence has no such item. *)
Fixpoint getAvailableVariables_from (sequence : list SequenceItem)
    (n i : nat) (variables : list AvailableVariable)
  : outcome (list AvailableVariable) :=
  match n with
  | O => Ok variables
  | S n' =>
      match sequence !! i with
      | None => Throw (TypeError "executed")
      | Some prevItem =>
          getAvailableVariables_from sequence n' (S i)
            (List.app variables (offered_variables i prevItem))
      end
  end.

Definition getAvailableVariables (st : State) (currentIndex : nat)
  : outcome (list AvailableVariable) :=
  getAvailableVariables_from (apiSequence st) currentIndex 0 [].

(** Every executed step that holds a result has that result in the
    store under its id. *)
Definition results_consistent (st : State) : Prop :=
  forall i item,
    apiSequence st !! i = Some item ->
    executed item = true ->
    truthy (result item) = true ->
    sequenceResults st !! id item = Some (result item).

(** What a reference to a value shown as [v] gives: [null] for a value
    that is not there. *)
Definition shown_or_null (v : jsvalue) : jsvalue :=
  if nullish v then JNull else v.

(** ** The endpoint list: [getCommonQueryParameters], [canExecuteEndpoint] *)

Definition query_parameter (name type description : string) : jsvalue :=
  JObj [("name", JStr name); ("type", JStr type);
        ("description", JStr description)].

Definition commonParams : list jsvalue :=
  [query_parameter "limit" "number" "Results per page (1-100)";
   query_parameter "offset" "text" "Pagination offset";
   query_parameter "opt_fields" "text"
     "Comma-separated list of fields to return";
   query_parameter "opt_expand" "text"
     "Comma-separated list of fields to expand"].

(** [path.includes(needle)]: a string has the method for substrings and
    an array for elements; nothing else has it. *)
Definition path_includes (path : jsvalue) (needle : string) : outcome bool :=
  match path with
  | JStr s => Ok (Str.includes needle s)
  | JArr items => Ok (existsb (strict_eq (JStr needle)) items)
  | _ => Throw (TypeError "endpoint.path.includes")
  end.

(** [getCommonQueryParameters(endpoint)]. *)
Definition getCommonQueryParameters (endpoint : Endpoint)
  : outcome (list jsvalue) :=
  try projects <- path_includes (path endpoint) "/projects" ;
  let commonParams :=
    if projects
    then List.app commonParams
           [query_parameter "archived" "checkbox" "Include archived projects";
            query_parameter "team" "text" "Filter by team GID"]
    else commonParams in
  try tasks <- path_includes (path endpoint) "/tasks" ;
  let commonParams :=
    if tasks
    then List.app commonParams
           [query_parameter "assignee" "text" "Filter by assignee GID";
            query_parameter "project" "text" "Filter by project GID";
            query_parameter "completed_since" "date"
              "Filter tasks completed after this date"]
    else commonParams in
  Ok (firstn 4 commonParams).

Definition safeEndpoints : list string :=
  ["/users/me"; "/workspaces"; "/users"; "/teams"; "/tags"; "/custom_fields";
   "/projects"; "/portfolios"; "/goals"].

(** The texts that the anchored patterns of [safePatterns] match, each
    pattern being [^<text>$] without flags. *)
Definition safePatterns : list string :=
  ["/users"; "/workspaces"; "/teams"; "/tags"; "/custom_fields"; "/projects";
   "/portfolios"; "/goals"; "/users/me"].

(** [canExecuteEndpoint(endpoint)]; [pattern.test] turns its argument
    into a string. *)
Definition canExecuteEndpoint (endpoint : Endpoint) : bool :=
  strict_eq (method endpoint) (JStr "GET")
  && (existsb (fun safe => strict_eq (JStr safe) (path endpoint)) safeEndpoints
      || existsb (fun text => String.eqb text (to_string (path endpoint)))
           safePatterns).

(** ** The grid: [prepareGridData] *)

(** [item.executed && item.result && item.result.data]. *)
Definition has_data (item : SequenceItem) : bool :=
  executed item && truthy (result item)
  && truthy (js_get (result item) "data").

(** [`${item.endpoint.method} ${item.endpoint.path}`]. *)
Definition endpoint_label (item : SequenceItem) : string :=
  to_string (method (endpoint item)) +:+ " "
  +:+ to_string (path (endpoint item)).

(** [{ ...stepData, 'Row': row, ...flattened }]. *)
Definition grid_row (stepData : list (string * jsvalue)) (row : nat)
    (dataItem : jsvalue) : jsvalue :=
  JObj (assign_all (assign "Row" (JNum (Z.of_nat row)) stepData)
          (flattenRecord dataItem)).

(** The [forEach] over the records of a step from [dataIndex]. *)
Fixpoint grid_rows_from (stepData : list (string * jsvalue))
    (dataIndex : nat) (items : list jsvalue) : list jsvalue :=
  match items with
  | [] => []
  | dataItem :: rest =>
      grid_row stepData (dataIndex + 1) dataItem
      :: grid_rows_from stepData (S dataIndex) rest
  end.

(** What one turn of the [forEach] of [prepareGridData] pushes. *)
Definition grid_rows (index : nat) (item : SequenceItem) : list jsvalue :=
  if has_data item then
    let data := js_get (result item) "data" in
    let stepData :=
      [("Step", JNum (Z.of_nat (index + 1)));
       ("Endpoint", JStr (endpoint_label item));
       ("Status", JStr (if has_error item then "Error" else "Success"));
       ("Records",
        match data with
        | JArr items => JNum (Z.of_nat (List.length items))
        | _ => JNum 1
        end)] in
    match data with
    | JArr items => grid_rows_from stepData 0 items
    | _ => [grid_row stepData 1 data]
    end
  else [].

Fixpoint prepareGridData_from (index : nat) (items : list SequenceItem)
  : list jsvalue :=
  match items with
  | [] => []
  | item :: rest =>
      List.app (grid_rows index item) (prepareGridData_from (S index) rest)
  end.

Definition prepareGridData (st : State) : list jsvalue :=
  prepareGridData_from 0 (apiSequence st).

(** The number of records a step contributes to the grid. *)
Definition record_count (item : SequenceItem) : nat :=
  if has_data item then
    match js_get (result item) "data" with
    | JArr items => List.length items
    | _ => 1
    end
  else 0.

(** ** Transformation: [autoPopulateFieldMappings], [applyTransformation] *)

(** The first item that satisfies [f], with its position. *)
Fixpoint find_with_position (f : SequenceItem -> bool) (i : nat)
    (l : list SequenceItem) : option (nat * SequenceItem) :=
  match l with
  | [] => None
  | item :: rest =>
      if f item then Some (i, item) else find_with_position f (S i) rest
  end.

(** [[...this.apiSequence].reverse().find(item => item.executed &&
    item.result && item.result.data)], together with what
    [this.apiSequence.indexOf] gives for the item found: the items are
    distinct objects, so this is the last position of an item with
    data. *)
Definition lastExecutedItem (apiSequence : list SequenceItem)
  : option (nat * SequenceItem) :=
  match find_with_position has_data 0 (rev apiSequence) with
  | Some (k, item) => Some ((List.length apiSequence - 1 - k)%nat, item)
  | None => None
  end.

(** A field mapping as [autoPopulateFieldMappings] and the editor
    create it. *)
Definition field_mapping (sourceField targetField : string) : jsvalue :=
  JObj [("sourceField", JStr sourceField); ("targetField", JStr targetField);
        ("isUnified", JBool false)].

(** [autoPopulateFieldMappings()]: the new [fieldMappings], or [None]
    when the function returns without touching them. *)
Definition autoPopulateFieldMappings (st : State) : option (list jsvalue) :=
  match lastExecutedItem (apiSequence st) with
  | None => None
  | Some (_, lastItem) =>
      let data := js_get (result lastItem) "data" in
      let sampleData :=
        match data with
        | JArr (first :: _) => first
        | _ => data
        end in
      Some (map (fun kv : string * jsvalue => field_mapping (fst kv) (fst kv))
              (flattenRecord sampleData))
  end.

(** The callback of [finalData.map]: the flat record with its three
    columns of metadata. *)
Definition annotated_record (stepIndex : nat) (label : string)
    (recordIndex : nat) (record : jsvalue) : list (string * jsvalue) :=
  assign "_endpoint" (JStr label)
    (assign "_record" (JNum (Z.of_nat (recordIndex + 1)))
       (assign "_step" (JNum (Z.of_nat (stepIndex + 1)))
          (flattenRecord record))).

Fixpoint annotated_records (stepIndex : nat) (label : string)
    (recordIndex : nat) (records : list jsvalue)
  : list (list (string * jsvalue)) :=
  match records with
  | [] => []
  | record :: rest =>
      annotated_record stepIndex label recordIndex record
      :: annotated_records stepIndex label (S recordIndex) rest
  end.

(** [allData], and no record at all when no step holds data. *)
Definition allData (st : State) : list (list (string * jsvalue)) :=
  match lastExecutedItem (apiSequence st) with
  | None => []
  | Some (stepIndex, item) =>
      let data := js_get (result item) "data" in
      let finalData :=
        match data with
        | JArr items => items
        | _ => [data]
        end in
      annotated_records stepIndex (endpoint_label item) 0 finalData
  end.

(** What [replace] makes of a replacement text for a pattern that is a
    string: [$$] is a dollar sign, [$&] the match, and the dollar sign
    with a back quote or a quote the text before or after the match;
    no other dollar sign is special, there being no group. *)
Fixpoint expand_replacement (matched before after r : string) : string :=
  match r with
  | EmptyString => EmptyString
  | String "$" (String "$" r') =>
      String "$" (expand_replacement matched before after r')
  | String "$" (String "&" r') =>
      matched +:+ expand_replacement matched before after r'
  | String "$" (String "`" r') =>
      before +:+ expand_replacement matched before after r'
  | String "$" (String "'" r') =>
      after +:+ expand_replacement matched before after r'
  | String a r' => String a (expand_replacement matched before after r')
  end.

(** The text before and after the first occurrence of [p]. *)
Fixpoint split_at_first (p s : string) : option (string * string) :=
  if Str.startsWith p s then Some (EmptyString, Str.drop (String.length p) s)
  else match s with
       | EmptyString => None
       | String a s' =>
           match split_at_first p s' with
           | Some (before, after) => Some (String a before, after)
           | None => None
           end
       end.

(** [s.replace(p, r)] for a pattern and a replacement that are
    strings. *)
Definition js_replace (p r s : string) : string :=
  match split_at_first p s with
  | Some (before, after) =>
      before +:+ expand_replacement p before after r +:+ after
  | None => s
  end.

(** One turn of [fieldMappings.forEach] for a record. *)
Definition apply_mapping (record : list (string * jsvalue))
    (transformed : list (string * jsvalue)) (mapping : jsvalue)
  : outcome (list (string * jsvalue)) :=
  try sourceField <- get_or_throw mapping "sourceField" ;
  let targetField := js_get mapping "targetField" in
  if truthy sourceField && truthy targetField
  then Ok (assign (to_string targetField)
             (or_else (js_get (JObj record) (to_string sourceField))
                (JStr ""))
             transformed)
  else Ok transformed.

(** One turn of [matches.forEach]: a placeholder gives way to the
    value of its field. *)
Definition fill_placeholder (record : list (string * jsvalue))
    (formattedValue fieldName : string) : string :=
  js_replace ("{" +:+ fieldName +:+ "}")
    (to_string (or_else (js_get (JObj record) fieldName) (JStr "")))
    formattedValue.

(** One turn of [unifiedColumns.forEach] for a record. *)
Definition apply_unified (record : list (string * jsvalue))
    (transformed : list (string * jsvalue)) (unified : jsvalue)
  : outcome (list (string * jsvalue)) :=
  try name <- get_or_throw unified "name" ;
  let formatTemplate := js_get unified "formatTemplate" in
  if truthy name && truthy formatTemplate then
    match formatTemplate with
    | JStr template =>
        let matches := scan_matches match_path_parameter 0 template in
        Ok (assign (to_string name)
              (JStr (fold_left (fill_placeholder record) matches template))
              transformed)
    | _ => Throw (TypeError "formattedValue.match")
    end
  else Ok transformed.

(** [list.forEach(step)] over a value that has to be an array. *)
Fixpoint for_each {A : Type} (step : A -> jsvalue -> outcome A)
    (items : list jsvalue) (acc : A) : outcome A :=
  match items with
  | [] => Ok acc
  | x :: rest => try acc' <- step acc x ; for_each step rest acc'
  end.

Definition for_each_of {A : Type} (site : string)
    (step : A -> jsvalue -> outcome A) (list : jsvalue) (acc : A)
  : outcome A :=
  match list with
  | JArr items => for_each step items acc
  | _ => Throw (TypeError site)
  end.

(** The callback of [allData.map]. *)
Definition transform_record (fieldMappings unifiedColumns : jsvalue)
    (record : list (string * jsvalue)) : outcome jsvalue :=
  try transformed <-
    for_each_of "fieldMappings.forEach" (apply_mapping record) fieldMappings
      [] ;
  try transformed <-
    for_each_of "unifiedColumns.forEach" (apply_unified record) unifiedColumns
      transformed ;
  Ok (JObj transformed).

Fixpoint transform_records (fieldMappings unifiedColumns : jsvalue)
    (records : list (list (string * jsvalue))) : outcome (list jsvalue) :=
  match records with
  | [] => Ok []
  | record :: rest =>
      try row <- transform_record fieldMappings unifiedColumns record ;
      try rows <- transform_records fieldMappings unifiedColumns rest ;
      Ok (row :: rows)
  end.

(** [applyTransformation()] for the mappings and unified columns of
    [dataTransformations]: the rows it returns. *)
Definition applyTransformation (st : State)
    (fieldMappings unifiedColumns : jsvalue) : outcome (list jsvalue) :=
  transform_records fieldMappings unifiedColumns (allData st).

(** *** Mappings and templates by their parts *)

(** The names that every object inherits ([record.toString] is a
    function whether or not the record has such a column); [js_get]
    and [assign] stand for reads and writes of the other names. *)
Definition inherited_names : list string :=
  ["constructor"; "hasOwnProperty"; "isPrototypeOf"; "propertyIsEnumerable";
   "toLocaleString"; "toString"; "valueOf"; "__proto__"; "__defineGetter__";
   "__defineSetter__"; "__lookupGetter__"; "__lookupSetter__"].

(** A column name that is not empty and not inherited. *)
Definition column_name (s : string) : bool :=
  negb (String.eqb s "") && negb (existsb (String.eqb s) inherited_names).

(** The field mappings for a list of pairs of a source column and a
    target column. *)
Definition mappings_of (renames : list (string * string)) : jsvalue :=
  JArr (map (fun r : string * string => field_mapping (fst r) (snd r))
          renames).

(** The cell of a record under a column, and the empty string where the
    record has no such column or a falsy value there. *)
Definition cell_or_empty (record : list (string * jsvalue)) (column : string)
  : jsvalue :=
  or_else (assoc column record) (JStr "").

(** A template: literal text and placeholders for fields. *)
Inductive template_part : Type :=
| Literal (text : string)
| Placeholder (fieldName : string).

Definition render_part (part : template_part) : string :=
  match part with
  | Literal text => text
  | Placeholder fieldName => "{" +:+ fieldName +:+ "}"
  end.

Fixpoint render_template (parts : list template_part) : string :=
  match parts with
  | [] => EmptyString
  | part :: rest => render_part part +:+ render_template rest
  end.

(** The template with the cells of a record in the places of the
    placeholders. *)
Definition filled_part (record : list (string * jsvalue))
    (part : template_part) : string :=
  match part with
  | Literal text => text
  | Placeholder fieldName => to_string (cell_or_empty record fieldName)
  end.

Fixpoint filled_template (record : list (string * jsvalue))
    (parts : list template_part) : string :=
  match parts with
  | [] => EmptyString
  | part :: rest => filled_part record part +:+ filled_template record rest
  end.

(** The field names of a template, from left to right. *)
Fixpoint placeholders (parts : list template_part) : list string :=
  match parts with
  | [] => []
  | Literal _ :: rest => placeholders rest
  | Placeholder fieldName :: rest => fieldName :: placeholders rest
  end.

(** Literal text without opening brace; a placeholder with a column
    name that holds no closing brace, for a cell whose text holds
    neither an opening brace nor a dollar sign. *)
Definition part_ok (record : list (string * jsvalue)) (part : template_part)
  : bool :=
  match part with
  | Literal text => negb (Str.includes_char "{" text)
  | Placeholder fieldName =>
      column_name fieldName
      && negb (Str.includes_char "}" fieldName)
      && negb (Str.includes_char "{"
                 (to_string (cell_or_empty record fieldName)))
      && negb (Str.includes_char "$"
                 (to_string (cell_or_empty record fieldName)))
  end.

(** ** Flat records *)

(** A record as a grid shows it: distinct column names, and no object
    or array in a cell. *)
Definition flat_record (l : list (string * jsvalue)) : Prop :=
  NoDup (map fst l)
  /\ Forall (fun kv : string * jsvalue => is_container (snd kv) = false) l.

(** ** Sample data for export files *)

Module Sample3.

(** A catalog that has the endpoints of [Sample.three_steps], the
    configuration of these steps given by its parts, and the file that
    an export of them amounts to. *)
Definition full_catalog : list Endpoint :=
  [Sample.catalog_endpoint "GET" "/workspaces";
   Sample.catalog_endpoint "GET" "/workspaces/{workspace_gid}/projects";
   Sample.catalog_endpoint "GET" "/projects/{project_gid}"].

Definition three_plans : list StepPlan :=
  [{| plan_path := []; plan_query := [("limit", [Text "10"])];
      plan_body := None; plan_mappings := [] |};
   {| plan_path := [("workspace_gid", [])]; plan_query := [];
      plan_body := None;
      plan_mappings := [("workspace_gid", ("1_a", "data[0].gid"))] |};
   {| plan_path := [("project_gid", [])]; plan_query := [];
      plan_body := None;
      plan_mappings := [("project_gid", ("2_b", "data[1].gid"))] |}].

Definition three_steps_file : jsvalue :=
  JObj [("version", JStr "1.0");
        ("sequence",
         JArr match export_entries Sample.three_steps 0 Sample.three_steps with
              | Ok entries => entries
              | Throw _ => []
              end)].

(** A file as the testing guide describes it: the second step holds
    an iteration configuration over the projects of the first and
    takes its path parameter from the loop variable.  The catalog has
    the three endpoints; the collaborator answers the first call with
    five projects and every later call with two tasks, and counts the
    calls. *)
Definition iteration_catalog : list Endpoint :=
  [Sample.catalog_endpoint "GET" "/projects";
   Sample.catalog_endpoint "GET" "/projects/{project_gid}/tasks";
   Sample.catalog_endpoint "GET" "/users/me"].

Definition iteration_file : jsvalue :=
  JObj [("version", JStr "1.0");
        ("sequence",
         JArr [JObj [("method", JStr "GET"); ("path", JStr "/projects")];
               JObj [("method", JStr "GET");
                     ("path", JStr "/projects/{project_gid}/tasks");
                     ("parameters",
                      JObj [("path",
                             JObj [("project_gid", JStr "{{item.gid}}")]);
                            ("query", JObj []); ("body", JNull)]);
                     ("iteration",
                      JObj [("enabled", JBool true);
                            ("sourceExpression", JStr "step0.data");
                            ("loopVariableName", JStr "item");
                            ("unifyResults", JBool true)])];
               JObj [("method", JStr "GET"); ("path", JStr "/users/me")]])].

Definition five_projects : jsvalue :=
  JObj [("data", JArr [JObj [("gid", JStr "p1")]; JObj [("gid", JStr "p2")];
                       JObj [("gid", JStr "p3")]; JObj [("gid", JStr "p4")];
                       JObj [("gid", JStr "p5")]])].

Definition two_tasks : jsvalue :=
  JObj [("data", JArr [JObj [("gid", JStr "t1")]; JObj [("gid", JStr "t2")]])].

Definition projects_then_tasks (req : Request) (calls : nat)
  : FetchResult * nat :=
  (match calls with
   | O => Response true 200 five_projects
   | _ => Response true 200 two_tasks
   end, S calls).

End Sample3.

(** *** Paths by their parts *)

(** The path of an endpoint with the encoded literal values of a step
    in the places of its parameters. *)
Definition filled_path_part (encode : string -> string) (pathValues : jsvalue)
    (part : template_part) : string :=
  match part with
  | Literal text => text
  | Placeholder name => encode (to_string (js_get pathValues name))
  end.

Fixpoint filled_path (encode : string -> string) (pathValues : jsvalue)
    (parts : list template_part) : string :=
  match parts with
  | [] => EmptyString
  | part :: rest =>
      filled_path_part encode pathValues part
      +:+ filled_path encode pathValues rest
  end.

(** Literal text without opening brace; a parameter with a name that
    is not empty and holds no closing brace, whose value is truthy and
    no placeholder, and is encoded without opening brace and without
    dollar sign (as [encodeURIComponent] encodes every text). *)
Definition path_part_ok (encode : string -> string) (pathValues : jsvalue)
    (part : template_part) : bool :=
  match part with
  | Literal text => negb (Str.includes_char "{" text)
  | Placeholder name =>
      negb (String.eqb name "")
      && negb (Str.includes_char "}" name)
      && truthy (js_get pathValues name)
      && literal_value (js_get pathValues name)
      && negb (Str.includes_char "{"
                 (encode (to_string (js_get pathValues name))))
      && negb (Str.includes_char "$"
                 (encode (to_string (js_get pathValues name))))
  end.

(** *** Path parameters that are left in place *)

(** The value that a turn of [pathParams.forEach] in
    [executeSequenceItem] has for [param] when it comes to
    [if (value)]: the literal value, or what the mapping resolves to,
    with an inline placeholder resolved. *)
Definition path_parameter_value (results : gmap string jsvalue)
    (item : SequenceItem) (param : string) : outcome jsvalue :=
  try pathValues <- get_or_throw (parameters item) "path" ;
  try value <- get_or_throw pathValues param ;
  try mapping <- get_or_throw (variableMappings item) param ;
  try value <- (if truthy mapping then
              match mapping with
              | JStr variablePath => Ok (resolveVariable results variablePath)
              | _ => Throw (TypeError "variablePath.split")
              end
            else Ok value) ;
  Ok match value with
     | JStr s =>
         if truthy value && Str.includes "{{" s && Str.includes "}}" s
         then resolveVariablePlaceholder results s
         else value
     | _ => value
     end.

(** Literal text without opening brace; a parameter with a name that
    is not empty and holds no brace. *)
Definition part_formed (part : template_part) : bool :=
  match part with
  | Literal text => negb (Str.includes_char "{" text)
  | Placeholder name =>
      negb (String.eqb name "")
      && negb (Str.includes_char "{" name)
      && negb (Str.includes_char "}" name)
  end.

(** The turn for a parameter raises nothing, and a truthy value is
    encoded without opening brace and without dollar sign (as
    [encodeURIComponent] encodes every text). *)
Definition path_value_ok (encode : string -> string)
    (results : gmap string jsvalue) (item : SequenceItem) (name : string)
  : bool :=
  match path_parameter_value results item name with
  | Ok value =>
      negb (truthy value)
      || (negb (Str.includes_char "{" (encode (to_string value)))
          && negb (Str.includes_char "$" (encode (to_string value))))
  | Throw _ => false
  end.

(** The path of an endpoint with the encoded value of every parameter
    that has a truthy value in its place, and with the placeholder of
    every other parameter left as it is. *)
Definition built_path_part (encode : string -> string)
    (results : gmap string jsvalue) (item : SequenceItem)
    (part : template_part) : string :=
  match part with
  | Literal text => text
  | Placeholder name =>
      match path_parameter_value results item name with
      | Ok value =>
          if truthy value then encode (to_string value)
          else "{" +:+ name +:+ "}"
      | Throw _ => "{" +:+ name +:+ "}"
      end
  end.

Fixpoint built_path (encode : string -> string)
    (results : gmap string jsvalue) (item : SequenceItem)
    (parts : list template_part) : string :=
  match parts with
  | [] => EmptyString
  | part :: rest =>
      built_path_part encode results item part
      +:+ built_path encode results item rest
  end.

(** A unified column as the editor holds it. *)
Definition unified_column (name : string) (parts : list template_part)
  : jsvalue :=
  JObj [("name", JStr name);
        ("formatTemplate", JStr (render_template parts));
        ("sourceFields", JArr [])].

(** * Properties *)

#[local] Arguments String.append !_ _ /.
#[local] Arguments Ascii.eqb : simpl never.
#[local] Arguments String.eqb : simpl never.

(** ** Text *)

(** Comparisons of two given characters are evaluated. *)
Ltac char_eval :=
  repeat match goal with
         | |- context [Ascii.eqb ?x ?y] =>
             is_ground x; is_ground y;
             let b := eval vm_compute in (Ascii.eqb x y) in
             change (Ascii.eqb x y) with b
         end.

Section StringFacts.

Implicit Types (s t p : string) (a c : ascii) (f : ascii -> bool).

Lemma append_nil_r s : s +:+ "" = s.
Proof. induction s; simpl; congruence. Qed.

Lemma append_assoc s t p : (s +:+ t) +:+ p = s +:+ (t +:+ p).
Proof. induction s; simpl; congruence. Qed.

Lemma length_append s t :
  String.length (s +:+ t) = (String.length s + String.length t)%nat.
Proof. induction s; simpl; congruence. Qed.

Lemma all_append f s t : Str.all f (s +:+ t) = Str.all f s && Str.all f t.
Proof.
  induction s as [|a s IH]; simpl; [reflexivity|].
  rewrite IH. now rewrite andb_assoc.
Qed.

Lemma all_impl f (g : ascii -> bool) s :
  (forall a, f a = true -> g a = true) ->
  Str.all f s = true -> Str.all g s = true.
Proof.
  intros Hfg. induction s as [|a s IH]; simpl; [reflexivity|].
  intros [Ha Hs]%andb_true_iff. rewrite (Hfg _ Ha). now apply IH.
Qed.

Lemma includes_char_all c s :
  Str.includes_char c s = false <->
  Str.all (fun a => negb (Ascii.eqb a c)) s = true.
Proof.
  induction s as [|a s IH]; simpl; [tauto|].
  destruct (Ascii.eqb a c); simpl; [split; discriminate | exact IH].
Qed.

Lemma includes_char_cons c a s :
  Str.includes_char c (String a s) = Ascii.eqb a c || Str.includes_char c s.
Proof. simpl. now destruct (Ascii.eqb a c). Qed.

Lemma includes_char_append c s t :
  Str.includes_char c (s +:+ t)
  = Str.includes_char c s || Str.includes_char c t.
Proof.
  induction s as [|a s IH]; simpl; [reflexivity|].
  now destruct (Ascii.eqb a c).
Qed.

Lemma split_char_without c s :
  Str.includes_char c s = false -> Str.split_char c s = (s, []).
Proof.
  induction s as [|a s IH]; simpl; [reflexivity|].
  destruct (Ascii.eqb a c); [discriminate|].
  intros H. now rewrite (IH H).
Qed.

Lemma split_char_append c s t :
  Str.includes_char c s = false ->
  Str.split_char c (s +:+ String c t) = (s, Str.split c t).
Proof.
  unfold Str.split.
  induction s as [|a s IH]; simpl.
  - intros _. rewrite Ascii.eqb_refl. now destruct (Str.split_char c t).
  - destruct (Ascii.eqb a c); [discriminate|].
    intros H. now rewrite (IH H).
Qed.

Lemma span_all f s t :
  Str.all f s = true ->
  match t with EmptyString => True | String a _ => f a = false end ->
  Str.span f (s +:+ t) = (s, t).
Proof.
  intros Hs Ht. induction s as [|a s IH]; simpl in *.
  - destruct t as [|a t]; simpl; [reflexivity|]. now rewrite Ht.
  - apply andb_true_iff in Hs as [Ha Hs]. now rewrite Ha, (IH Hs).
Qed.

Lemma span_all_whole f s : Str.all f s = true -> Str.span f s = (s, "").
Proof.
  intros H. rewrite <- (append_nil_r s) at 1. now apply span_all.
Qed.

Lemma startsWith_append p s : Str.startsWith p (p +:+ s) = true.
Proof.
  induction p as [|a p IH]; simpl; [reflexivity|].
  now rewrite Ascii.eqb_refl.
Qed.

Lemma drop_append p s : Str.drop (String.length p) (p +:+ s) = s.
Proof. induction p as [|a p IH]; simpl; [reflexivity | exact IH]. Qed.

Lemma replace_first_char_end c s :
  Str.includes_char c s = false ->
  Str.replace_first (String c "") "" (s +:+ String c "") = s.
Proof.
  induction s as [|a s IH]; simpl.
  - intros _. now rewrite Ascii.eqb_refl.
  - rewrite (Ascii.eqb_sym c a).
    destruct (Ascii.eqb a c); [discriminate|]. simpl.
    intros H. now rewrite (IH H).
Qed.

(** *** Decimal numbers *)

Lemma string_of_uint_digits d :
  Str.all Str.is_digit (NilEmpty.string_of_uint d) = true.
Proof. induction d; simpl; auto. Qed.

Lemma of_nat_digits n : Str.all Str.is_digit (Str.of_nat n) = true.
Proof. apply string_of_uint_digits. Qed.

Lemma of_nat_head n :
  exists a s, Str.of_nat n = String a s /\ Str.is_digit a = true.
Proof.
  unfold Str.of_nat.
  assert (Hn : Nat.to_uint n <> Decimal.Nil).
  { rewrite <- (Unsigned.of_to n) at 1. rewrite Unsigned.to_of.
    apply DecimalFacts.unorm_nonnil. }
  pose proof (string_of_uint_digits (Nat.to_uint n)) as Hd.
  destruct (Nat.to_uint n); try congruence; simpl in *;
    eexists _, _; (split; [reflexivity|reflexivity]).
Qed.

Lemma nat_of_digits_of_nat n : Str.nat_of_digits (Str.of_nat n) = n.
Proof.
  unfold Str.nat_of_digits, Str.of_nat.
  rewrite NilEmpty.usu. apply Unsigned.of_to.
Qed.

Lemma of_Z_of_nat n : Str.of_Z (Z.of_nat n) = Str.of_nat n.
Proof.
  unfold Str.of_Z.
  destruct (Z.ltb_spec (Z.of_nat n) 0); [lia|].
  now rewrite Nat2Z.id.
Qed.

Lemma array_index_of_nat n : array_index (Str.of_nat n) = Some n.
Proof.
  unfold array_index. rewrite nat_of_digits_of_nat.
  now rewrite String.eqb_refl.
Qed.

Lemma digit_not c a : Str.is_digit c = false -> Str.is_digit a = true ->
  Ascii.eqb a c = false.
Proof.
  intros Hc Ha. destruct (Ascii.eqb_spec a c) as [->|]; [|reflexivity].
  rewrite Hc in Ha. discriminate Ha.
Qed.

Lemma of_nat_without c n :
  Str.is_digit c = false -> Str.includes_char c (Str.of_nat n) = false.
Proof.
  intros Hc. apply includes_char_all.
  apply (all_impl Str.is_digit); [|apply of_nat_digits].
  intros a Ha. now rewrite (digit_not c a).
Qed.

Lemma parseInt_of_nat n : parseInt (Str.of_nat n) = Int (Z.of_nat n).
Proof.
  destruct (of_nat_head n) as (a & s & E & Ha).
  pose proof (of_nat_digits n) as Hd.
  unfold parseInt.
  assert (Hsp : Str.span is_space (Str.of_nat n) = ("", Str.of_nat n)).
  { rewrite E. simpl.
    assert (is_space a = false) as ->; [|reflexivity].
    revert Ha. unfold Str.is_digit, is_space.
    generalize (nat_of_ascii a). intros m Hm.
    apply andb_true_iff in Hm as [H1 H2].
    apply Nat.leb_le in H1. apply Nat.leb_le in H2.
    destruct (Nat.eqb_spec m 32); [lia|]. simpl.
    destruct (Nat.leb_spec m 13); [lia|]. now rewrite andb_false_r. }
  rewrite Hsp. simpl.
  assert (Hsign :
    match Str.of_nat n with
    | String "-" r => (true, r)
    | String "+" r => (false, r)
    | _ => (false, Str.of_nat n)
    end = (false, Str.of_nat n)).
  { rewrite E.
    destruct (Ascii.eqb_spec a "-") as [->|]; [discriminate Ha|].
    destruct (Ascii.eqb_spec a "+") as [->|]; [discriminate Ha|].
    destruct a as [[] [] [] [] [] [] [] []]; try reflexivity; congruence. }
  rewrite Hsign.
  unfold parse_magnitude.
  assert (Hx : Str.startsWith "0x" (Str.of_nat n) = false
               /\ Str.startsWith "0X" (Str.of_nat n) = false).
  { rewrite E in Hd |- *. simpl in Hd |- *.
    apply andb_true_iff in Hd as [_ Hd].
    destruct s as [|b s]; [now rewrite !andb_false_r|].
    simpl in Hd. apply andb_true_iff in Hd as [Hb _].
    rewrite (Ascii.eqb_sym "x" b), (Ascii.eqb_sym "X" b).
    rewrite (digit_not "x" b), (digit_not "X" b) by (assumption || reflexivity).
    now rewrite !andb_false_r. }
  destruct Hx as [-> ->]. simpl.
  rewrite (span_all_whole _ _ Hd). simpl.
  rewrite E at 1. simpl. rewrite nat_of_digits_of_nat. reflexivity.
Qed.

End StringFacts.

(** ** VariableResolver *)

Section ResolverFacts.

Implicit Types (store : gmap string jsvalue) (v entry : jsvalue).

Lemma of_nat_not_length n : String.eqb (Str.of_nat n) "length" = false.
Proof.
  destruct (of_nat_head n) as (a & s & -> & Ha).
  destruct (String.eqb_spec (String a s) "length") as [E|]; [|reflexivity].
  injection E as -> _. discriminate Ha.
Qed.

(** Reading a property by the text of a number is reading the element
    at that number. *)
Lemma js_get_of_nat v n : js_get v (Str.of_nat n) = element v n.
Proof.
  destruct v; simpl; try reflexivity;
    now rewrite of_nat_not_length, array_index_of_nat.
Qed.

Lemma render_segment_no_dot seg :
  segment_ok seg = true ->
  Str.includes_char "." (render_segment seg) = false.
Proof.
  destruct seg as [name|name i]; unfold segment_ok, name_ok; simpl;
    intros [[H1 _]%andb_true_iff _]%andb_true_iff;
    apply negb_true_iff in H1; [exact H1|].
  rewrite includes_char_append, H1, includes_char_cons.
  rewrite includes_char_append, of_nat_without by reflexivity.
  char_eval. reflexivity.
Qed.

Lemma split_join stepId (parts : list string) :
  Str.includes_char "." stepId = false ->
  Forall (fun p => Str.includes_char "." p = false) parts ->
  Str.split_char "." (Str.join "." (stepId :: parts)) = (stepId, parts).
Proof.
  intros Hs Hp. revert stepId Hs.
  induction Hp as [|p parts Hp _ IH]; intros stepId Hs.
  - simpl. now apply split_char_without.
  - change (Str.join "." (stepId :: p :: parts))
      with (stepId +:+ String "." (Str.join "." (p :: parts))).
    rewrite split_char_append by assumption.
    unfold Str.split. now rewrite (IH p Hp).
Qed.

(** The text of a segment is taken apart into the accesses it
    stands for. *)
Lemma resolve_part_render v seg :
  segment_ok seg = true ->
  resolve_part v (render_segment seg) = access v seg.
Proof.
  destruct seg as [name|name i]; unfold segment_ok, name_ok; simpl;
    intros [[H1 H2]%andb_true_iff H3]%andb_true_iff;
    apply negb_true_iff in H1, H2, H3; unfold resolve_part.
  - now rewrite H2.
  - assert (Hopen : Str.includes_char "["
                        (name +:+ String "[" (Str.of_nat i +:+ "]")) = true).
    { rewrite includes_char_append, includes_char_cons. char_eval.
      now rewrite orb_true_r. }
    assert (Hclose : Str.includes_char "]"
                        (name +:+ String "[" (Str.of_nat i +:+ "]")) = true).
    { rewrite includes_char_append, includes_char_cons, includes_char_append.
      simpl. char_eval. now rewrite !orb_true_r. }
    rewrite Hopen, Hclose. simpl.
    unfold Str.split.
    rewrite split_char_append by assumption.
    unfold Str.split. rewrite split_char_without.
    2:{ rewrite includes_char_append, of_nat_without by reflexivity.
        simpl. char_eval. reflexivity. }
    rewrite replace_first_char_end by (now apply of_nat_without).
    rewrite parseInt_of_nat. unfold js_opt_index, key_of_jsint.
    now rewrite of_Z_of_nat, js_get_of_nat.
Qed.

Lemma resolve_parts_render v segs :
  forallb segment_ok segs = true ->
  resolve_parts v (map render_segment segs) = handWalk v segs.
Proof.
  revert v. induction segs as [|seg segs IH]; intros v; simpl;
    [reflexivity|].
  intros [Hseg Hsegs]%andb_true_iff.
  rewrite resolve_part_render by assumption.
  destruct (nullish (access v seg)); [reflexivity|now apply IH].
Qed.

Lemma resolveVariable_rendered store stepId segs :
  Str.includes_char "." stepId = false ->
  forallb segment_ok segs = true ->
  resolveVariable store (render_expression stepId segs)
  = match store !! stepId with
    | Some entry => if truthy entry then handWalk entry segs else JNull
    | None => JNull
    end.
Proof.
  intros Hs Hsegs. unfold resolveVariable, render_expression.
  rewrite split_join; [|assumption|].
  - destruct (store !! stepId) as [entry|]; [|reflexivity].
    now rewrite resolve_parts_render.
  - clear Hs. induction segs as [|seg segs IH]; simpl; [constructor|].
    simpl in Hsegs. apply andb_true_iff in Hsegs as [Hseg Hsegs].
    constructor; [now apply render_segment_no_dot | now apply IH].
Qed.

End ResolverFacts.

Section ResolverClaims.

Implicit Types (store : gmap string jsvalue) (entry : jsvalue).

Lemma handWalk_absent entry pre seg post :
  nullish (access (handWalk entry pre) seg) = true ->
  handWalk entry (pre ++ seg :: post)%list = JNull.
Proof.
  revert entry. induction pre as [|s pre IH]; intros entry; simpl.
  - now intros ->.
  - destruct (nullish (access entry s)); [reflexivity|]. apply IH.
Qed.

(** C1 (as amended).  For every valid expression and every store with
    an entry for the step id, [resolveVariable] returns what the walk
    by hand returns when the entry is truthy and [null] when it is
    not; in particular it returns [null] as soon as the value reached
    after some of the segments is absent or null. *)
Theorem resolveVariable_hand_walk store stepId segs entry :
  Str.includes_char "." stepId = false ->
  forallb segment_ok segs = true ->
  store !! stepId = Some entry ->
  resolveVariable store (render_expression stepId segs)
  = (if truthy entry then handWalk entry segs else JNull)
  /\ forall pre seg post,
       segs = (pre ++ seg :: post)%list ->
       nullish (access (handWalk entry pre) seg) = true ->
       resolveVariable store (render_expression stepId segs) = JNull.
Proof.
  intros Hs Hsegs Hentry.
  rewrite resolveVariable_rendered, Hentry by assumption.
  split; [reflexivity|].
  intros pre seg post -> Hnull.
  destruct (truthy entry); [|reflexivity].
  now apply handWalk_absent.
Qed.

Lemma resolveVariable_hand_walk_witness :
  let entry :=
    JObj [("data", JArr [JObj [("gid", JStr "12")]; JObj [("gid", JStr "34")]])] in
  let store : gmap string jsvalue := <["seq_1" := entry]> ∅ in
  let segs := [Index "data" 1; Field "gid"] in
  resolveVariable store (render_expression "seq_1" segs)
  = (if truthy entry then handWalk entry segs else JNull)
  /\ forall pre seg post,
       segs = (pre ++ seg :: post)%list ->
       nullish (access (handWalk entry pre) seg) = true ->
       resolveVariable store (render_expression "seq_1" segs) = JNull.
Proof.
  intros entry store segs.
  apply (resolveVariable_hand_walk store "seq_1" segs entry);
    reflexivity.
Defined.

(** C1 as stated fails: an entry that is the empty string is taken
    for a missing one, while its [length] read by hand is [0]. *)
Lemma resolveVariable_hand_walk_counterexample :
  ~ (forall store stepId segs entry,
       Str.includes_char "." stepId = false ->
       forallb segment_ok segs = true ->
       store !! stepId = Some entry ->
       resolveVariable store (render_expression stepId segs)
       = handWalk entry segs).
Proof.
  intros H.
  specialize (H (<["seq_1" := JStr ""]> ∅) "seq_1" [Field "length"] (JStr "")
                eq_refl eq_refl eq_refl).
  vm_compute in H. discriminate H.
Qed.

(** C7 (as amended).  When the step id has no store entry,
    [resolveVariable] returns [null] and raises nothing: the value it
    also returns, under any step id that has an entry, when the walk
    ends in [null]. *)
Theorem resolveVariable_unknown_step store stepId segs :
  Str.includes_char "." stepId = false ->
  forallb segment_ok segs = true ->
  store !! stepId = None ->
  resolveVariable store (render_expression stepId segs) = JNull
  /\ forall other entry,
       Str.includes_char "." other = false ->
       store !! other = Some entry ->
       handWalk entry segs = JNull ->
       resolveVariable store (render_expression other segs)
       = resolveVariable store (render_expression stepId segs).
Proof.
  intros Hs Hsegs Hnone.
  rewrite resolveVariable_rendered, Hnone by assumption.
  split; [reflexivity|].
  intros other entry Ho Hentry Hwalk.
  rewrite resolveVariable_rendered, Hentry, Hwalk by assumption.
  now destruct (truthy entry).
Qed.

Lemma resolveVariable_unknown_step_witness :
  let store : gmap string jsvalue :=
    <["seq_1" := JObj [("data", JArr [])]]> ∅ in
  let segs := [Index "data" 0; Field "gid"] in
  resolveVariable store (render_expression "seq_9" segs) = JNull
  /\ forall other entry,
       Str.includes_char "." other = false ->
       store !! other = Some entry ->
       handWalk entry segs = JNull ->
       resolveVariable store (render_expression other segs)
       = resolveVariable store (render_expression "seq_9" segs).
Proof.
  intros store segs.
  apply (resolveVariable_unknown_step store "seq_9" segs); reflexivity.
Defined.

(** C7 as stated fails: a reference to a step without a store entry
    and a reference whose path is absent give the same result. *)
Lemma resolveVariable_unknown_step_counterexample :
  ~ (forall store unknown known segs entry,
       store !! unknown = None ->
       store !! known = Some entry ->
       handWalk entry segs = JNull ->
       resolveVariable store (render_expression unknown segs)
       <> resolveVariable store (render_expression known segs)).
Proof.
  intros H.
  apply (H (<["seq_1" := JObj [("data", JArr [])]]> ∅) "seq_9" "seq_1"
           [Index "data" 0; Field "gid"] (JObj [("data", JArr [])]));
    reflexivity.
Qed.

End ResolverClaims.

(** ** Pattern replacement *)

Section ReplaceFacts.

Implicit Types (s t x : string) (a : ascii).
Variable m : string -> option (string * nat).

Lemma replace_global_miss a s :
  m (String a s) = None ->
  replace_global m 0 (String a s) = String a (replace_global m 0 s).
Proof. intros H. simpl. now rewrite H. Qed.

Lemma replace_global_skip x s :
  replace_global m (String.length x) (x +:+ s) = replace_global m 0 s.
Proof.
  induction x as [|a x IH]; simpl; [|exact IH].
  destruct s; reflexivity.
Qed.

Lemma replace_global_hit x s r :
  x <> "" ->
  m (x +:+ s) = Some (r, String.length x) ->
  replace_global m 0 (x +:+ s) = r +:+ replace_global m 0 s.
Proof.
  destruct x as [|a x]; [congruence|]. intros _ H.
  simpl in *. rewrite H. simpl.
  now rewrite Nat.sub_0_r, replace_global_skip.
Qed.

Lemma replace_global_text t s :
  (forall a u, a <> "{"%char -> m (String a u) = None) ->
  (forall b u, b <> "{"%char -> m (String "{" (String b u)) = None) ->
  Str.includes "{{" t = false ->
  Str.endsWith "{" t = false ->
  replace_global m 0 (t +:+ s) = t +:+ replace_global m 0 s.
Proof.
  intros Hm1 Hm2. induction t as [|a t IH]; [reflexivity|].
  simpl Str.includes. simpl Str.endsWith.
  intros [Hstart Hin]%orb_false_iff [Hone Hend]%orb_false_iff.
  change (String a t +:+ s) with (String a (t +:+ s)).
  rewrite replace_global_miss.
  - simpl. now rewrite (IH Hin Hend).
  - destruct (Ascii.eqb_spec a "{") as [->|Ha]; [|now apply Hm1].
    destruct t as [|b t]; [discriminate Hone|].
    apply Hm2. intros ->. discriminate Hstart.
Qed.

End ReplaceFacts.

Section MatchFacts.

Implicit Types (s t p run : string) (a : ascii).

Lemma match_reference_here_other lit cls a s :
  a <> "{"%char -> match_reference_here lit cls (String a s) = None.
Proof.
  intros Ha. unfold match_reference_here. simpl.
  rewrite (Ascii.eqb_sym "{" a).
  destruct (Ascii.eqb_spec a "{"); [contradiction|reflexivity].
Qed.

Lemma match_reference_here_single lit cls b s :
  b <> "{"%char ->
  match_reference_here lit cls (String "{" (String b s)) = None.
Proof.
  intros Hb. unfold match_reference_here. simpl.
  rewrite (Ascii.eqb_sym "{" b).
  destruct (Ascii.eqb_spec b "{"); [contradiction|].
  char_eval. reflexivity.
Qed.

Lemma lazy_path_tail p s :
  Str.all is_path_char p = true ->
  lazy_path (p +:+ "}}" +:+ s) = Some p.
Proof.
  induction p as [|a p IH]; simpl.
  - intros _. char_eval. now destruct s.
  - unfold is_path_char at 1.
    intros [[Ha Hl]%andb_true_iff Hp]%andb_true_iff.
    apply negb_true_iff in Ha, Hl.
    rewrite (Ascii.eqb_sym "}" a), Ha, Hl. simpl.
    change (p +:+ String "}" (String "}" s)) with (p +:+ "}}" +:+ s).
    now rewrite (IH Hp).
Qed.

(** The pattern takes a well-formed reference for what it is. *)
Lemma match_reference_here_ref lit (cls : ascii -> bool) run p s :
  cls "."%char = false ->
  String.eqb run "" = false ->
  Str.all cls run = true ->
  Str.all is_path_char p = true ->
  match_reference_here lit cls
    (("{{" +:+ lit) +:+ run +:+ String "." (p +:+ "}}" +:+ s))
  = Some (run, String "." p).
Proof.
  intros Hdot Hne Hrun Hp. unfold match_reference_here.
  rewrite startsWith_append.
  change (2 + String.length lit)%nat with (String.length ("{{" +:+ lit)).
  rewrite drop_append, span_all by assumption.
  now rewrite Hne, lazy_path_tail.
Qed.

Lemma findIndex_nth sequenceId (l : list SequenceItem) k :
  findIndex sequenceId l = Some k ->
  exists item, l !! k = Some item /\ id item = sequenceId
               /\ (k < List.length l)%nat.
Proof.
  revert k. induction l as [|item l IH]; intros k; simpl; [discriminate|].
  destruct (String.eqb_spec (id item) sequenceId) as [E|_].
  - intros [= <-]. exists item. simpl. repeat split; [assumption|lia].
  - destruct (findIndex sequenceId l) as [j|]; [|discriminate].
    intros [= <-]. destruct (IH j eq_refl) as (it & H1 & H2 & H3).
    exists it. simpl. repeat split; [assumption..|lia].
Qed.

End MatchFacts.

(** ** ReferenceRewriter *)

Section RewriterFacts.

Variable apiSequence : list SequenceItem.
Variable currentStepIndex : nat.

Implicit Types (s run p : string) (c : chunk) (l : list chunk).

Lemma of_nat_nonempty n : String.eqb (Str.of_nat n) "" = false.
Proof. destruct (of_nat_head n) as (a & s & -> & _). reflexivity. Qed.

Lemma render_ref_shape lit run p s :
  ("{{" +:+ (lit +:+ run) +:+ "." +:+ p +:+ "}}") +:+ s
  = ("{{" +:+ lit) +:+ run +:+ String "." (p +:+ "}}" +:+ s).
Proof.
  simpl. do 2 f_equal.
  rewrite !append_assoc. do 2 f_equal. simpl.
  now rewrite append_assoc.
Qed.

Lemma render_chunk_nonempty run p : render_chunk (Ref run p) <> "".
Proof. discriminate. Qed.

Lemma stable_replacement_ref run p s :
  chunk_ok apiSequence currentStepIndex (Ref run p) = true ->
  stable_replacement apiSequence currentStepIndex
    (render_chunk (Ref run p) +:+ s)
  = Some (render_stable_chunk apiSequence (Ref run p),
          String.length (render_chunk (Ref run p))).
Proof.
  simpl chunk_ok.
  intros [[[Hne Hrun]%andb_true_iff Hp]%andb_true_iff Hidx]%andb_true_iff.
  apply negb_true_iff in Hne.
  unfold stable_replacement, render_chunk, runtime_id.
  rewrite (render_ref_shape "seq_" run p s).
  rewrite match_reference_here_ref by (assumption || reflexivity).
  unfold render_stable_chunk, runtime_id in *.
  destruct (findIndex ("seq_" +:+ run) apiSequence) as [k|]; [|discriminate].
  rewrite Hidx. reflexivity.
Qed.

Lemma stable_replacement_other a s :
  a <> "{"%char ->
  stable_replacement apiSequence currentStepIndex (String a s) = None.
Proof.
  intros Ha. unfold stable_replacement.
  now rewrite match_reference_here_other.
Qed.

Lemma stable_replacement_single b s :
  b <> "{"%char ->
  stable_replacement apiSequence currentStepIndex (String "{" (String b s))
  = None.
Proof.
  intros Hb. unfold stable_replacement.
  now rewrite match_reference_here_single.
Qed.

Lemma runtime_replacement_single b s :
  b <> "{"%char ->
  runtime_replacement apiSequence currentStepIndex (String "{" (String b s))
  = None.
Proof.
  intros Hb. unfold runtime_replacement.
  now rewrite match_reference_here_single.
Qed.

Lemma runtime_replacement_other a s :
  a <> "{"%char ->
  runtime_replacement apiSequence currentStepIndex (String a s) = None.
Proof.
  intros Ha. unfold runtime_replacement.
  now rewrite match_reference_here_other.
Qed.

Lemma runtime_replacement_ref run p s :
  chunk_ok apiSequence currentStepIndex (Ref run p) = true ->
  runtime_replacement apiSequence currentStepIndex
    (render_stable_chunk apiSequence (Ref run p) +:+ s)
  = Some (render_chunk (Ref run p),
          String.length (render_stable_chunk apiSequence (Ref run p))).
Proof.
  simpl chunk_ok.
  intros [[[Hne Hrun]%andb_true_iff Hp]%andb_true_iff Hidx]%andb_true_iff.
  unfold runtime_replacement, render_stable_chunk.
  destruct (findIndex (runtime_id run) apiSequence) as [k|] eqn:Hk;
    [|discriminate].
  apply Nat.ltb_lt in Hidx.
  destruct (findIndex_nth _ _ _ Hk) as (item & Hnth & Hid & Hlen).
  change ("{{step" +:+ Str.of_nat k +:+ "." +:+ p +:+ "}}")
    with ("{{" +:+ ("step" +:+ Str.of_nat k) +:+ "." +:+ p +:+ "}}").
  rewrite (render_ref_shape "step" (Str.of_nat k) p s).
  rewrite match_reference_here_ref;
    [|reflexivity|apply of_nat_nonempty|apply of_nat_digits|assumption].
  rewrite parseInt_of_nat.
  destruct (Z.ltb_spec (Z.of_nat k) (Z.of_nat currentStepIndex)); [|lia].
  destruct (Z.ltb_spec (Z.of_nat k) (Z.of_nat (List.length apiSequence)));
    [|lia].
  simpl andb. cbv iota. rewrite Nat2Z.id, Hnth, Hid. reflexivity.
Qed.

Lemma toStable_chunks l :
  forallb (chunk_ok apiSequence currentStepIndex) l = true ->
  replace_global (stable_replacement apiSequence currentStepIndex) 0
    (render_chunks l)
  = render_stable apiSequence l.
Proof.
  induction l as [|c l IH]; [reflexivity|].
  simpl forallb. intros [Hc Hl]%andb_true_iff.
  simpl render_chunks. simpl render_stable.
  destruct c as [text|run p].
  - simpl in Hc |- *. apply andb_true_iff in Hc as [H1 H2].
    apply negb_true_iff in H1, H2.
    rewrite replace_global_text, (IH Hl);
      [reflexivity|apply stable_replacement_other
      |apply stable_replacement_single|assumption..].
  - rewrite replace_global_hit with (r := render_stable_chunk apiSequence (Ref run p));
      [now rewrite (IH Hl)|apply render_chunk_nonempty|].
    now apply stable_replacement_ref.
Qed.

Lemma render_stable_chunk_nonempty run p :
  render_stable_chunk apiSequence (Ref run p) <> "".
Proof.
  unfold render_stable_chunk.
  destruct (findIndex (runtime_id run) apiSequence); discriminate.
Qed.

Lemma toRuntime_chunks l :
  forallb (chunk_ok apiSequence currentStepIndex) l = true ->
  replace_global (runtime_replacement apiSequence currentStepIndex) 0
    (render_stable apiSequence l)
  = render_chunks l.
Proof.
  induction l as [|c l IH]; [reflexivity|].
  simpl forallb. intros [Hc Hl]%andb_true_iff.
  simpl render_chunks. simpl render_stable.
  destruct c as [text|run p].
  - simpl in Hc |- *. apply andb_true_iff in Hc as [H1 H2].
    apply negb_true_iff in H1, H2.
    rewrite replace_global_text, (IH Hl);
      [reflexivity|apply runtime_replacement_other
      |apply runtime_replacement_single|assumption..].
  - rewrite replace_global_hit with (r := render_chunk (Ref run p));
      [now rewrite (IH Hl)|apply render_stable_chunk_nonempty|].
    now apply runtime_replacement_ref.
Qed.

(** C2.  For an expression of literal text and backward references,
    owned by the step at position [currentStepIndex]:
    [convertVariableToStepReference] writes every reference as
    [step<N>] with [N] the position of the referenced step, and
    [convertStepReferenceToVariable] at the same position over the
    same sequence gives the original expression back, so every
    reference names the step it named before. *)
Theorem toRuntime_toStable_round_trip l :
  forallb (chunk_ok apiSequence currentStepIndex) l = true ->
  convertVariableToStepReference apiSequence (JStr (render_chunks l))
    currentStepIndex
  = JStr (render_stable apiSequence l)
  /\ convertStepReferenceToVariable apiSequence
       (convertVariableToStepReference apiSequence (JStr (render_chunks l))
          currentStepIndex)
       currentStepIndex
     = JStr (render_chunks l).
Proof.
  intros H. unfold convertVariableToStepReference.
  rewrite (toStable_chunks l H). split; [reflexivity|].
  unfold convertStepReferenceToVariable.
  now rewrite (toRuntime_chunks l H).
Qed.

End RewriterFacts.

Lemma toRuntime_toStable_round_trip_witness :
  let l := [Text "{'project': '"; Ref "2_b" "data[0].gid"; Text "', 'owner': '";
            Ref "1_a" "data[1].name"; Text "'}"] in
  convertVariableToStepReference Sample.three_steps (JStr (render_chunks l)) 2
  = JStr (render_stable Sample.three_steps l)
  /\ convertStepReferenceToVariable Sample.three_steps
       (convertVariableToStepReference Sample.three_steps
          (JStr (render_chunks l)) 2) 2
     = JStr (render_chunks l).
Proof.
  intros l. apply (toRuntime_toStable_round_trip Sample.three_steps 2 l).
  reflexivity.
Defined.

(** ** Inline placeholders *)

Section PlaceholderFacts.

Implicit Types (store : gmap string jsvalue) (s pre expr post : string).

Lemma includes_startsWith p s t :
  Str.startsWith p t = true -> Str.includes p (s +:+ t) = true.
Proof.
  intros H. induction s as [|a s IH]; simpl.
  - destruct t; simpl in *; now rewrite H.
  - rewrite IH. apply orb_true_r.
Qed.

Lemma match_placeholder_here_found expr post :
  String.eqb expr "" = false ->
  Str.includes_char "}" expr = false ->
  match_placeholder_here ("{{" +:+ expr +:+ "}}" +:+ post) = Some expr.
Proof.
  intros Hne Hexpr. unfold match_placeholder_here. simpl.
  change (expr +:+ String "}" (String "}" post))
    with (expr +:+ "}}" +:+ post).
  rewrite span_all; [|now apply includes_char_all|reflexivity].
  rewrite Hne. simpl. char_eval. reflexivity.
Qed.

Lemma find_placeholder_unfold s :
  find_placeholder s
  = match match_placeholder_here s with
    | Some e => Some e
    | None =>
        match s with
        | EmptyString => None
        | String _ s' => find_placeholder s'
        end
    end.
Proof. destruct s; reflexivity. Qed.

Lemma find_placeholder_first pre expr post :
  Str.includes "{{" pre = false ->
  Str.endsWith "{" pre = false ->
  String.eqb expr "" = false ->
  Str.includes_char "}" expr = false ->
  find_placeholder (pre +:+ "{{" +:+ expr +:+ "}}" +:+ post) = Some expr.
Proof.
  intros Hin Hend Hne Hexpr.
  induction pre as [|a pre IH].
  - change ("" +:+ "{{" +:+ expr +:+ "}}" +:+ post)
      with ("{{" +:+ expr +:+ "}}" +:+ post).
    rewrite find_placeholder_unfold.
    now rewrite match_placeholder_here_found.
  - simpl in Hin, Hend.
    apply orb_false_iff in Hin as [Hstart Hin].
    apply orb_false_iff in Hend as [Hone Hend].
    change (find_placeholder (String a pre +:+ "{{" +:+ expr +:+ "}}" +:+ post))
      with (match match_placeholder_here
                    (String a (pre +:+ "{{" +:+ expr +:+ "}}" +:+ post)) with
            | Some e => Some e
            | None => find_placeholder (pre +:+ "{{" +:+ expr +:+ "}}" +:+ post)
            end).
    rewrite (IH Hin Hend).
    assert (Hmiss : match_placeholder_here
                      (String a (pre +:+ "{{" +:+ expr +:+ "}}" +:+ post))
                    = None); [|now rewrite Hmiss].
    destruct (Ascii.eqb_spec a "{") as [->|Ha].
    + destruct pre as [|b pre]; [discriminate Hone|].
      simpl in Hstart |- *.
      destruct (Ascii.eqb_spec "{" b) as [<-|Hb]; [discriminate Hstart|].
      destruct b as [[] [] [] [] [] [] [] []]; try reflexivity.
      now contradiction Hb.
    + unfold match_placeholder_here.
      destruct a as [[] [] [] [] [] [] [] []]; try reflexivity.
      now contradiction Ha.
Qed.

End PlaceholderFacts.

Section PlaceholderClaims.

Variable encodeURIComponent : string -> string.

Implicit Types (store : gmap string jsvalue) (pre expr post : string).

(** C10.  For a value made of text, a first placeholder [{{expr}}] and
    anything after it, the inline resolution returns the resolved
    value of [expr] alone: the text before and after it and any later
    placeholder do not reach the result.  A query parameter is
    appended with that value only (or omitted when it is [null]), and
    a path parameter without a mapping is replaced by that value
    only. *)
Theorem resolveVariablePlaceholder_first_only store pre expr post :
  Str.includes "{{" pre = false ->
  Str.endsWith "{" pre = false ->
  String.eqb expr "" = false ->
  Str.includes_char "}" expr = false ->
  let value := pre +:+ "{{" +:+ expr +:+ "}}" +:+ post in
  resolveVariablePlaceholder store value = resolveVariable store expr
  /\ (forall key,
        query_entry store (key, JStr value)
        = match resolveVariable store expr with
          | JNull => []
          | resolvedValue => [(key, to_string resolvedValue)]
          end)
  /\ (forall item url param,
        get_or_throw (parameters item) "path" = Ok (JObj [(param, JStr value)]) ->
        variableMappings item = JObj [] ->
        apply_path_param encodeURIComponent store item url param
        = Ok (if truthy (resolveVariable store expr)
              then Str.replace_first ("{" +:+ param +:+ "}")
                     (encodeURIComponent (to_string (resolveVariable store expr)))
                     url
              else url)).
Proof.
  intros Hin Hend Hne Hexpr value.
  assert (Hres : resolveVariablePlaceholder store value
                 = resolveVariable store expr).
  { unfold resolveVariablePlaceholder, value.
    now rewrite find_placeholder_first. }
  assert (Hopen : Str.includes "{{" value = true).
  { apply includes_startsWith. reflexivity. }
  assert (Hclose : Str.includes "}}" value = true).
  { unfold value.
    replace (pre +:+ "{{" +:+ expr +:+ "}}" +:+ post)
      with ((pre +:+ "{{" +:+ expr) +:+ "}}" +:+ post)
      by (now rewrite !append_assoc).
    apply includes_startsWith. reflexivity. }
  assert (Htruthy : truthy (JStr value) = true).
  { unfold value. destruct pre; reflexivity. }
  split; [exact Hres|]. split.
  - intros key. unfold query_entry.
    now rewrite Htruthy, Hopen, Hclose, Hres.
  - intros item url param Hpath Hmap. unfold apply_path_param.
    rewrite Hpath, Hmap.
    cbn [bind get_or_throw nullish js_get assoc].
    rewrite String.eqb_refl.
    change (truthy JUndefined) with false.
    cbn [bind].
    rewrite Htruthy, Hopen, Hclose, Hres. cbn [andb].
    now destruct (truthy (resolveVariable store expr)).
Qed.

End PlaceholderClaims.

Lemma resolveVariablePlaceholder_first_only_witness :
  let store : gmap string jsvalue := <["seq_1_a" := Sample.two_records]> ∅ in
  let value :=
    "id-" +:+ "{{" +:+ "seq_1_a.data[0].gid" +:+ "}}" +:+ "/{{seq_1_a.data[1].gid}}" in
  resolveVariablePlaceholder store value = JStr "101".
Proof.
  intros store value.
  apply (proj1 (resolveVariablePlaceholder_first_only Sample.encode store
                  "id-" "seq_1_a.data[0].gid" "/{{seq_1_a.data[1].gid}}"
                  eq_refl eq_refl eq_refl eq_refl)).
Defined.

(** ** SequenceExecutor *)

Section ExecutorFacts.

Variable World : Type.
Variable fetch : Request -> World -> FetchResult * World.
Variable encodeURIComponent : string -> string.
Variable searchParamsToString : list (string * string) -> string.
Variable typeErrorMessage : string -> string.

Abbreviation run_item :=
  (executeSequenceItem World fetch encodeURIComponent searchParamsToString
    typeErrorMessage).
Abbreviation loop_from :=
  (executeSequence_from World fetch encodeURIComponent searchParamsToString
    typeErrorMessage).
Abbreviation steps :=
  (run_steps World fetch encodeURIComponent searchParamsToString
    typeErrorMessage).
Abbreviation run_all :=
  (executeSequence World fetch encodeURIComponent searchParamsToString
    typeErrorMessage).

Implicit Types (st : State) (w : World) (l : list SequenceItem).

Lemma touches_refl i st : touches i st st.
Proof.
  split; try reflexivity; [|lia].
  exists (fun item => item). split; [reflexivity|].
  destruct i; [|reflexivity]. symmetry. now apply list_alter_id.
Qed.

Lemma touches_update i f st st' :
  (forall item, id (f item) = id item) ->
  touches (Some i) st st' ->
  touches (Some i) st (update_item i f st').
Proof.
  intros Hf [(g & Hg & Hitems) Hissued Hstore Htoken].
  split; simpl; try assumption.
  exists (fun item => f (g item)). split.
  - intros item. now rewrite Hf, Hg.
  - rewrite Hitems. apply list_alter_alter_eq.
Qed.

Lemma touches_log i req st st' :
  issued st' = issued st ->
  touches (Some i) st st' ->
  touches (Some i) st (log_request req st').
Proof.
  intros Hsame [Hitems Hissued Hstore Htoken].
  split; simpl; try assumption.
  rewrite length_app, Hsame. simpl. lia.
Qed.

Lemma touches_store_result i item st st' data :
  In (id item) (ids (apiSequence st)) ->
  touches (Some i) st st' ->
  touches (Some i) st (store_result (id item) data st').
Proof.
  intros Hin [Hitems Hissued Hstore Htoken].
  split; simpl; try assumption.
  intros key Hkey. rewrite lookup_insert_ne; [now apply Hstore|].
  intros <-. contradiction.
Qed.

Lemma set_outcome_id b r e item : id (set_outcome b r e item) = id item.
Proof. reflexivity. Qed.

Lemma lookup_in_ids l i item : l !! i = Some item -> In (id item) (ids l).
Proof.
  intros H. apply in_map. apply list_elem_of_In.
  now apply list_elem_of_lookup_2 with i.
Qed.

Lemma executeSequenceItem_touches itemId st w :
  touches (findIndex itemId (apiSequence st)) st
          (fst (run_item itemId st w)).
Proof.
  unfold executeSequenceItem.
  destruct (findIndex itemId (apiSequence st)) as [i|];
    [|apply touches_refl].
  destruct (apiSequence st !! i) as [item|] eqn:Hitem;
    [|apply touches_refl].
  pose proof (lookup_in_ids _ _ _ Hitem) as Hin.
  assert (H0 : touches (Some i) st
                 (update_item i (set_outcome false JNull None) st)).
  { apply touches_update; [apply set_outcome_id|apply touches_refl]. }
  destruct (build_request _ _ _ _) as [req|e]; simpl.
  - assert (H1 : touches (Some i) st
                   (log_request req
                      (update_item i (set_outcome false JNull None) st))).
    { now apply touches_log. }
    destruct (fetch req w) as [[message|[] status responseData] w']; simpl.
    + apply touches_update; [apply set_outcome_id|assumption].
    + apply touches_store_result; [assumption|].
      apply touches_update; [apply set_outcome_id|assumption].
    + destruct (api_error_text responseData); simpl;
        (apply touches_update; [apply set_outcome_id|assumption]).
  - apply touches_update; [apply set_outcome_id|assumption].
Qed.

Lemma ids_alter f i l :
  (forall item, id (f item) = id item) -> ids (alter f i l) = ids l.
Proof.
  intros Hf. revert i. unfold ids.
  induction l as [|x l IH]; intros [|i]; simpl; try reflexivity.
  - now rewrite Hf.
  - f_equal. apply IH.
Qed.

Lemma touches_ids i st st' :
  touches i st st' -> ids (apiSequence st') = ids (apiSequence st).
Proof.
  intros [(f & Hf & ->) _ _ _]. destruct i; [|reflexivity].
  now apply ids_alter.
Qed.

Lemma touches_length i st st' :
  touches i st st' ->
  List.length (apiSequence st') = List.length (apiSequence st).
Proof.
  intros H. apply touches_ids in H. unfold ids in H.
  now rewrite <- (length_map id), H, length_map.
Qed.

Lemma touches_other i st st' j :
  touches i st st' -> i <> Some j ->
  apiSequence st' !! j = apiSequence st !! j.
Proof.
  intros [(f & _ & ->) _ _ _] Hj. destruct i as [i|]; [|reflexivity].
  apply list_lookup_alter_ne. congruence.
Qed.

Lemma findIndex_unique l p item :
  NoDup (ids l) -> l !! p = Some item -> findIndex (id item) l = Some p.
Proof.
  revert p. induction l as [|x l IH]; intros p Hnd Hp; [discriminate|].
  simpl in Hnd. apply NoDup_cons in Hnd as [Hx Hnd].
  destruct p as [|p]; simpl in *.
  - injection Hp as ->. now rewrite String.eqb_refl.
  - destruct (String.eqb_spec (id x) (id item)) as [E|_].
    + exfalso. apply Hx. rewrite E. apply list_elem_of_In.
      now apply lookup_in_ids with p.
    + now rewrite (IH p Hnd Hp).
Qed.

Lemma steps_succ n i st w item :
  apiSequence st !! i = Some item ->
  steps (S n) i st w
  = steps n (S i) (fst (run_item (id item) st w))
      (snd (run_item (id item) st w)).
Proof.
  intros H. simpl. rewrite H. now destruct (run_item (id item) st w).
Qed.

(** The loop stops at the first step that leaves an error. *)
Lemma loop_stops_at m : forall n i st w,
  (m < n)%nat ->
  (forall d, (d < m)%nat ->
             error_at (i + d) (fst (steps (S d) i st w)) = false) ->
  error_at (i + m) (fst (steps (S m) i st w)) = true ->
  loop_from n i st w = steps (S m) i st w.
Proof.
  induction m as [|m IH]; intros [|n] i st w Hn Hbefore Hat; try lia.
  - simpl in *. destruct (apiSequence st !! i) as [item|] eqn:Hi.
    + destruct (run_item (id item) st w) as [st' w']. simpl in Hat.
      unfold error_at in Hat. rewrite Nat.add_0_r in Hat.
      destruct (apiSequence st' !! i); [|discriminate]. now rewrite Hat.
    + unfold error_at in Hat. simpl in Hat.
      rewrite Nat.add_0_r, Hi in Hat. discriminate.
  - destruct (apiSequence st !! i) as [item|] eqn:Hi.
    + rewrite (steps_succ _ _ _ _ _ Hi).
      pose proof (executeSequenceItem_touches (id item) st w) as Ht.
      pose proof (Hbefore 0%nat ltac:(lia)) as H0.
      rewrite (steps_succ _ _ _ _ _ Hi), Nat.add_0_r in H0.
      assert (Hbefore' : forall d, (d < m)%nat ->
                error_at (S i + d)
                  (fst (steps (S d) (S i) (fst (run_item (id item) st w))
                          (snd (run_item (id item) st w)))) = false).
      { intros d Hd. specialize (Hbefore (S d) ltac:(lia)).
        rewrite (steps_succ _ _ _ _ _ Hi) in Hbefore.
        now replace (S i + d)%nat with (i + S d)%nat by lia. }
      assert (Hat' :
                error_at (S i + m)
                  (fst (steps (S m) (S i) (fst (run_item (id item) st w))
                          (snd (run_item (id item) st w)))) = true).
      { rewrite (steps_succ _ _ _ _ _ Hi) in Hat.
        now replace (S i + m)%nat with (i + S m)%nat by lia. }
      clear Hbefore Hat.
      change (loop_from (S n) i st w)
        with (match apiSequence st !! i with
              | None => (st, w)
              | Some item =>
                  let (st', w') := run_item (id item) st w in
                  match apiSequence st' !! i with
                  | Some item' =>
                      if has_error item' then (st', w')
                      else loop_from n (S i) st' w'
                  | None => (st', w')
                  end
              end).
      rewrite Hi.
      destruct (run_item (id item) st w) as [st' w'].
      cbn [fst snd] in *.
      unfold error_at in H0. cbn [steps run_steps fst] in H0.
      assert (Hsome : is_Some (apiSequence st' !! i)).
      { apply lookup_lt_is_Some. rewrite (touches_length _ _ _ Ht).
        apply lookup_lt_is_Some. now rewrite Hi. }
      destruct Hsome as [item' Hi']. rewrite Hi' in H0 |- *. rewrite H0.
      apply IH; [lia|assumption..].
    + exfalso. simpl in Hat. rewrite Hi in Hat. simpl in Hat.
      unfold error_at in Hat.
      rewrite (lookup_ge_None_2 (apiSequence st) (i + S m)) in Hat;
        [discriminate|].
      apply lookup_ge_None in Hi. lia.
Qed.

(** [n] turns from index [i] leave the items outside [i, i + n) as
    they were and hand at most [n] requests to [fetch]. *)
Lemma steps_frame n : forall i st w,
  NoDup (ids (apiSequence st)) ->
  (forall j, (j < i \/ i + n <= j)%nat ->
             apiSequence (fst (steps n i st w)) !! j = apiSequence st !! j)
  /\ (List.length (issued (fst (steps n i st w)))
      <= List.length (issued st) + n)%nat
  /\ ids (apiSequence (fst (steps n i st w))) = ids (apiSequence st).
Proof.
  induction n as [|n IH]; intros i st w Hnd.
  - simpl. repeat split; [lia].
  - destruct (apiSequence st !! i) as [item|] eqn:Hi.
    + rewrite (steps_succ _ _ _ _ _ Hi).
      pose proof (executeSequenceItem_touches (id item) st w) as Ht.
      rewrite (findIndex_unique _ _ _ Hnd Hi) in Ht.
      destruct (run_item (id item) st w) as [st' w']. simpl in *.
      pose proof (touches_ids _ _ _ Ht) as Hids.
      destruct (IH (S i) st' w') as (Hitems & Hissued & Hids');
        [now rewrite Hids|].
      repeat split.
      * intros j Hj. rewrite Hitems by lia.
        apply (touches_other _ _ _ _ Ht). intros [= ->]. lia.
      * pose proof (touches_issued _ _ _ Ht). lia.
      * now rewrite Hids'.
    + simpl. rewrite Hi. simpl. repeat split; [lia].
Qed.

(** C3.  [executeSequence] calls [executeSequenceItem] on the items in
    positional order and stops at the first one that leaves an error:
    when the step at position [k] is the first to fail, the run is
    exactly the calls for positions [0] to [k], at most [k + 1]
    requests are handed to [fetch], and every item after [k] is as it
    was (its [executed] flag included). *)
Theorem executeSequence_fail_fast st w k :
  NoDup (ids (apiSequence st)) ->
  String.eqb (personalAccessToken st) "" = false ->
  (k < List.length (apiSequence st))%nat ->
  (forall d, (d < k)%nat -> error_at d (fst (steps (S d) 0 st w)) = false) ->
  error_at k (fst (steps (S k) 0 st w)) = true ->
  run_all st w = steps (S k) 0 st w
  /\ (forall j, (k < j)%nat ->
                apiSequence (fst (run_all st w)) !! j = apiSequence st !! j)
  /\ (List.length (issued (fst (run_all st w)))
      <= List.length (issued st) + S k)%nat.
Proof.
  intros Hnd Htoken Hk Hbefore Hat.
  assert (Hrun : run_all st w = steps (S k) 0 st w).
  { unfold executeSequence. rewrite Htoken.
    destruct (Nat.eqb_spec (List.length (apiSequence st)) 0); [lia|].
    now apply loop_stops_at. }
  rewrite Hrun.
  destruct (steps_frame (S k) 0 st w Hnd) as (Hitems & Hissued & _).
  repeat split; [|exact Hissued].
  intros j Hj. apply Hitems. lia.
Qed.

End ExecutorFacts.

Lemma executeSequence_fail_fast_witness :
  let st := Sample.session Sample.three_steps in
  let run :=
    executeSequence nat Sample.second_fails Sample.encode Sample.serialize
      Sample.type_error in
  run st 0%nat
  = run_steps nat Sample.second_fails Sample.encode Sample.serialize
      Sample.type_error 2 0 st 0%nat
  /\ (forall j, (1 < j)%nat ->
                apiSequence (fst (run st 0%nat)) !! j = apiSequence st !! j)
  /\ (List.length (issued (fst (run st 0%nat)))
      <= List.length (issued st) + 2)%nat.
Proof.
  intros st run.
  apply (executeSequence_fail_fast nat Sample.second_fails Sample.encode
           Sample.serialize Sample.type_error st 0%nat 1%nat).
  - unfold ids. simpl. apply (bool_decide_unpack _). vm_compute. exact I.
  - reflexivity.
  - simpl. lia.
  - intros d Hd. assert (d = 0%nat) as -> by lia. reflexivity.
  - reflexivity.
Defined.

(** The run of [A ok, B fails, C ok]: two requests, A and B executed,
    C never touched. *)
Example executeSequence_a_b_only :
  let st' :=
    fst (executeSequence nat Sample.second_fails Sample.encode Sample.serialize
           Sample.type_error (Sample.session Sample.three_steps) 0%nat) in
  map executed (apiSequence st') = [true; true; false]
  /\ map error (apiSequence st') = [None; Some "404: Not Found"; None]
  /\ List.length (issued st') = 2%nat.
Proof. vm_compute. repeat split. Qed.

Section ExecutorClaims.

Variable World : Type.
Variable fetch : Request -> World -> FetchResult * World.
Variable encodeURIComponent : string -> string.
Variable searchParamsToString : list (string * string) -> string.
Variable typeErrorMessage : string -> string.

Abbreviation run_item' :=
  (executeSequenceItem World fetch encodeURIComponent searchParamsToString
     typeErrorMessage).
Abbreviation loop_from' :=
  (executeSequence_from World fetch encodeURIComponent searchParamsToString
     typeErrorMessage).
Abbreviation run_all' :=
  (executeSequence World fetch encodeURIComponent searchParamsToString
     typeErrorMessage).

Implicit Types (st : State) (w : World) (store : gmap string jsvalue).

(** The loop writes the store under runtime ids of the sequence only. *)
Lemma loop_store n : forall i st w key,
  ~ In key (ids (apiSequence st)) ->
  sequenceResults (fst (loop_from' n i st w)) !! key
  = sequenceResults st !! key.
Proof.
  induction n as [|n IH]; intros i st w key Hkey; [reflexivity|].
  simpl. destruct (apiSequence st !! i) as [item|]; [|reflexivity].
  pose proof (executeSequenceItem_touches World fetch encodeURIComponent
                searchParamsToString typeErrorMessage (id item) st w) as Ht.
  destruct (run_item' (id item) st w) as [st' w']. simpl in Ht.
  pose proof (touches_store _ _ _ Ht key Hkey) as Hstore.
  destruct (apiSequence st' !! i) as [item'|]; [|exact Hstore].
  destruct (has_error item'); [exact Hstore|].
  rewrite IH; [exact Hstore|].
  now rewrite (touches_ids _ _ _ Ht).
Qed.

Lemma resolveVariable_missing store key rest :
  Str.includes_char "." key = false ->
  store !! key = None ->
  resolveVariable store (key +:+ "." +:+ rest) = JNull.
Proof.
  intros Hkey Hnone. unfold resolveVariable.
  change (key +:+ "." +:+ rest) with (key +:+ String "." rest).
  rewrite split_char_append by assumption.
  now rewrite Hnone.
Qed.

Lemma step_key_no_dot n :
  Str.includes_char "." ("step" +:+ Str.of_nat n) = false.
Proof.
  rewrite includes_char_append, of_nat_without by reflexivity.
  reflexivity.
Qed.

(** C4 (as amended).  The store is written under runtime ids only and
    [resolveVariable] looks the reference up by its exact text: after
    a run, an expression [step<N>.<path>] resolves to [null] whenever
    no item has the runtime id [step<N>] and the store held nothing
    under that key before.  (A stable reference resolves once
    [convertStepReferenceToVariable] has replaced it by the runtime
    id, which C2 covers.) *)
Theorem stable_reference_unresolved st w n rest :
  ~ In ("step" +:+ Str.of_nat n) (ids (apiSequence st)) ->
  sequenceResults st !! ("step" +:+ Str.of_nat n) = None ->
  resolveVariable (sequenceResults (fst (run_all' st w)))
    (("step" +:+ Str.of_nat n) +:+ "." +:+ rest)
  = JNull.
Proof.
  intros Hids Hnone.
  apply resolveVariable_missing; [apply step_key_no_dot|].
  unfold executeSequence.
  destruct (_ =? 0)%nat; [exact Hnone|].
  destruct (String.eqb _ _); [exact Hnone|].
  now rewrite loop_store.
Qed.

End ExecutorClaims.

Section ScanFacts.

Implicit Types (s t x pre post param : string) (a : ascii).

Lemma scan_matches_skip m x s :
  scan_matches m (String.length x) (x +:+ s) = scan_matches m 0 s.
Proof. induction x as [|a x IH]; simpl; [reflexivity|exact IH]. Qed.

Lemma scan_matches_text m t s :
  (forall a u, a <> "{"%char -> m (String a u) = None) ->
  Str.includes_char "{" t = false ->
  scan_matches m 0 (t +:+ s) = scan_matches m 0 s.
Proof.
  intros Hm. induction t as [|a t IH]; [reflexivity|].
  rewrite includes_char_cons. intros [Ha Ht]%orb_false_iff.
  simpl. rewrite Hm; [now apply IH|].
  intros ->. discriminate Ha.
Qed.

Lemma match_path_parameter_other a s :
  a <> "{"%char -> match_path_parameter (String a s) = None.
Proof.
  intros Ha. unfold match_path_parameter.
  destruct a as [[] [] [] [] [] [] [] []]; try reflexivity.
  now contradiction Ha.
Qed.

Lemma match_path_parameter_found param post :
  String.eqb param "" = false ->
  Str.includes_char "}" param = false ->
  match_path_parameter (String "{" (param +:+ "}" +:+ post))
  = Some (param, (2 + String.length param)%nat).
Proof.
  intros Hne Hparam. unfold match_path_parameter.
  rewrite span_all; [|now apply includes_char_all|reflexivity].
  rewrite Hne. simpl. char_eval. reflexivity.
Qed.

Lemma extractPathParameters_single pre param post :
  Str.includes_char "{" pre = false ->
  Str.includes_char "{" post = false ->
  String.eqb param "" = false ->
  Str.includes_char "}" param = false ->
  extractPathParameters (JStr (pre +:+ "{" +:+ param +:+ "}" +:+ post))
  = Ok [param].
Proof.
  intros Hpre Hpost Hne Hparam. unfold extractPathParameters. f_equal.
  rewrite scan_matches_text;
    [|apply match_path_parameter_other|assumption].
  change ("{" +:+ param +:+ "}" +:+ post)
    with (String "{" (param +:+ "}" +:+ post)).
  cbn [scan_matches].
  rewrite match_path_parameter_found by assumption.
  f_equal.
  replace (2 + String.length param - 1)%nat
    with (String.length (param +:+ "}")) by (rewrite length_append; simpl; lia).
  replace (param +:+ "}" +:+ post) with ((param +:+ "}") +:+ post)
    by (now rewrite append_assoc).
  rewrite scan_matches_skip.
  rewrite <- (append_nil_r post).
  rewrite scan_matches_text;
    [reflexivity|apply match_path_parameter_other|assumption].
Qed.

Lemma replace_first_unfold (p r s : string) :
  Str.replace_first p r s
  = if Str.startsWith p s then r +:+ Str.drop (String.length p) s
    else match s with
         | EmptyString => EmptyString
         | String a s' => String a (Str.replace_first p r s')
         end.
Proof. destruct s; reflexivity. Qed.

End ScanFacts.

(** ** Building the request *)

Section BuildFacts.

Variable encodeURIComponent : string -> string.

Implicit Types (results : gmap string jsvalue) (item : SequenceItem).
Implicit Types (q n r x done url : string) (parts : list template_part).

(** The turn for a parameter by its value. *)
Lemma apply_path_param_value results item url param :
  apply_path_param encodeURIComponent results item url param
  = (try value <- path_parameter_value results item param ;
     if truthy value
     then Ok (Str.replace_first ("{" +:+ param +:+ "}")
                (encodeURIComponent (to_string value)) url)
     else Ok url).
Proof.
  unfold apply_path_param, path_parameter_value.
  destruct (get_or_throw (parameters item) "path") as [pathValues|e];
    [|reflexivity].
  cbn [bind].
  destruct (get_or_throw pathValues param) as [value|e]; [|reflexivity].
  cbn [bind].
  destruct (get_or_throw (variableMappings item) param) as [mapping|e];
    [|reflexivity].
  cbn [bind].
  destruct (if truthy mapping then _ else _) as [value'|e]; reflexivity.
Qed.

(** The value of a parameter whose literal value is empty and that has
    no mapping. *)
Lemma path_parameter_value_empty results item param :
  nullish (parameters item) = false ->
  nullish (js_get (parameters item) "path") = false ->
  nullish (variableMappings item) = false ->
  truthy (js_get (js_get (parameters item) "path") param) = false ->
  truthy (js_get (variableMappings item) param) = false ->
  path_parameter_value results item param
  = Ok (js_get (js_get (parameters item) "path") param).
Proof.
  intros Hparams Hvalues Hmappings Hvalue Hmapping.
  unfold path_parameter_value, get_or_throw.
  rewrite Hparams. cbn [bind]. rewrite Hvalues, Hmappings. cbn [bind].
  rewrite Hmapping. cbn [bind].
  destruct (js_get (js_get (parameters item) "path") param);
    try reflexivity.
  now rewrite Hvalue.
Qed.

(** *** Text that a substitution passes over *)

Abbreviation quiet q done :=
  (forall r x,
      Str.replace_first ("{" +:+ q +:+ "}") r (done +:+ x)
      = done +:+ Str.replace_first ("{" +:+ q +:+ "}") r x).

Lemma quiet_append q (s t : string) :
  quiet q s -> quiet q t -> quiet q (s +:+ t).
Proof.
  intros Hs Ht r x. now rewrite !append_assoc, Hs, Ht.
Qed.

Lemma quiet_text q (t : string) :
  Str.includes_char "{" t = false -> quiet q t.
Proof.
  induction t as [|a t IH]; intros Ht r x; [reflexivity|].
  rewrite includes_char_cons in Ht. apply orb_false_iff in Ht as [Ha Ht].
  cbn [String.append]. rewrite replace_first_unfold.
  cbn [Str.startsWith]. rewrite Ascii.eqb_sym, Ha. cbn [andb].
  now rewrite IH.
Qed.

Lemma startsWith_name q n x :
  Str.includes_char "}" q = false ->
  Str.includes_char "}" n = false ->
  Str.startsWith (q +:+ "}") (n +:+ "}" +:+ x) = true -> q = n.
Proof.
  revert n. induction q as [|a q IH]; intros [|b n] Hq Hn;
    cbn [String.append Str.startsWith].
  - reflexivity.
  - rewrite includes_char_cons in Hn. apply orb_false_iff in Hn as [Hb _].
    rewrite Ascii.eqb_sym, Hb. discriminate.
  - rewrite includes_char_cons in Hq. apply orb_false_iff in Hq as [Ha _].
    rewrite Ha. discriminate.
  - rewrite includes_char_cons in Hq, Hn.
    apply orb_false_iff in Hq as [_ Hq]. apply orb_false_iff in Hn as [_ Hn].
    intros [->%Ascii.eqb_eq Hrest]%andb_true_iff.
    f_equal. now apply IH.
Qed.

(** The placeholder of another parameter is passed over. *)
Lemma quiet_placeholder q n :
  q <> n ->
  Str.includes_char "}" q = false ->
  Str.includes_char "{" n = false ->
  Str.includes_char "}" n = false ->
  quiet q ("{" +:+ n +:+ "}").
Proof.
  intros Hne Hq Hopen Hclose r x.
  change (("{" +:+ n +:+ "}") +:+ x) with (String "{" ((n +:+ "}") +:+ x)).
  rewrite replace_first_unfold.
  change ("{" +:+ q +:+ "}") with (String "{" (q +:+ "}")).
  cbn [Str.startsWith].
  destruct (Str.startsWith (q +:+ "}") ((n +:+ "}") +:+ x)) eqn:Hstarts.
  - rewrite append_assoc in Hstarts.
    now apply startsWith_name in Hstarts.
  - rewrite andb_false_r.
    change (("{" +:+ n +:+ "}") +:+ ?y) with (String "{" ((n +:+ "}") +:+ y)).
    f_equal.
    apply (quiet_text q (n +:+ "}")).
    now rewrite includes_char_append, Hopen.
Qed.

Lemma replace_first_here q r x :
  Str.replace_first ("{" +:+ q +:+ "}") r (("{" +:+ q +:+ "}") +:+ x)
  = r +:+ x.
Proof.
  rewrite replace_first_unfold.
  now rewrite startsWith_append, drop_append.
Qed.

Lemma placeholders_formed parts q :
  forallb part_formed parts = true ->
  In q (placeholders parts) ->
  String.eqb q "" = false
  /\ Str.includes_char "{" q = false /\ Str.includes_char "}" q = false.
Proof.
  induction parts as [|[text|n] parts IH]; cbn [forallb placeholders In];
    [tauto| |]; intros [Hpart Hparts]%andb_true_iff.
  - now apply IH.
  - intros [->|Hin]; [|now apply IH].
    cbn [part_formed] in Hpart.
    apply andb_true_iff in Hpart as [[H1 H2]%andb_true_iff H3].
    now apply negb_true_iff in H1, H2, H3.
Qed.

Lemma scan_formed parts :
  forallb part_formed parts = true ->
  scan_matches match_path_parameter 0 (render_template parts)
  = placeholders parts.
Proof.
  induction parts as [|part parts IH]; [reflexivity|].
  cbn [forallb]. intros [Hpart Hparts]%andb_true_iff.
  cbn [render_template placeholders].
  destruct part as [text|name].
  - cbn [part_formed] in Hpart. apply negb_true_iff in Hpart.
    cbn [render_part].
    rewrite scan_matches_text;
      [now apply IH|apply match_path_parameter_other|exact Hpart].
  - cbn [part_formed] in Hpart.
    apply andb_true_iff in Hpart as [[Hne _]%andb_true_iff Hclose].
    apply negb_true_iff in Hne, Hclose.
    cbn [render_part].
    change (("{" +:+ name +:+ "}") +:+ render_template parts)
      with (String "{" ((name +:+ "}") +:+ render_template parts)).
    rewrite append_assoc. cbn [scan_matches].
    rewrite match_path_parameter_found by assumption.
    f_equal.
    replace (2 + String.length name - 1)%nat
      with (String.length (name +:+ "}"))
      by (rewrite length_append; simpl; lia).
    rewrite <- append_assoc, scan_matches_skip. now apply IH.
Qed.

(** The loop over the path parameters: every parameter with a truthy
    value is replaced in its place, and the placeholder of every other
    parameter stays. *)
Lemma apply_path_params_built results item parts :
  forall done,
  (forall q value,
      In q (placeholders parts) ->
      path_parameter_value results item q = Ok value ->
      truthy value = true -> quiet q done) ->
  forallb part_formed parts = true ->
  forallb (path_value_ok encodeURIComponent results item)
          (placeholders parts) = true ->
  apply_path_params encodeURIComponent results item
    (done +:+ render_template parts) (placeholders parts)
  = Ok (done +:+ built_path encodeURIComponent results item parts).
Proof.
  induction parts as [|part parts IH]; intros done Hquiet Hformed Hvalues;
    [reflexivity|].
  assert (Hnames : forall q,
             In q (placeholders (part :: parts)) ->
             String.eqb q "" = false
             /\ Str.includes_char "{" q = false
             /\ Str.includes_char "}" q = false)
    by (intros q; now apply placeholders_formed).
  cbn [forallb] in Hformed. apply andb_true_iff in Hformed as [Hpart Hparts].
  cbn [render_template built_path].
  destruct part as [text|n].
  - cbn [part_formed] in Hpart. apply negb_true_iff in Hpart.
    cbn [placeholders] in *. cbn [render_part built_path_part].
    rewrite <- !append_assoc. apply IH; try assumption.
    intros q value Hq Hvalue Htruthy.
    apply quiet_append; [now apply (Hquiet q value)|now apply quiet_text].
  - cbn [placeholders forallb] in *.
    apply andb_true_iff in Hvalues as [Hvalue Hvalues].
    destruct (Hnames n (or_introl eq_refl)) as (_ & Hopen & Hclose).
    cbn [render_part built_path_part apply_path_params].
    rewrite apply_path_param_value.
    unfold path_value_ok in Hvalue.
    destruct (path_parameter_value results item n) as [value|e] eqn:Hn;
      [|discriminate Hvalue].
    cbn [bind]. destruct (truthy value) eqn:Htruthy; cbn [bind].
    + cbn [negb orb] in Hvalue.
      apply andb_true_iff in Hvalue as [Hclean%negb_true_iff _].
      rewrite (Hquiet n value (or_introl eq_refl) Hn Htruthy).
      rewrite replace_first_here, <- append_assoc.
      rewrite IH; [now rewrite append_assoc| |assumption|assumption].
      intros q value' Hq Hvalue' Htruthy'.
      apply quiet_append; [|now apply quiet_text].
      now apply (Hquiet q value'); [right| |].
    + rewrite <- append_assoc.
      rewrite IH; [now rewrite append_assoc| |assumption|assumption].
      intros q value' Hq Hvalue' Htruthy'.
      apply quiet_append; [now apply (Hquiet q value'); [right| |]|].
      destruct (Hnames q (or_intror Hq)) as (_ & _ & Hq').
      apply quiet_placeholder; try assumption.
      intros ->. congruence.
Qed.

Lemma startsWith_append_l (p s t : string) :
  Str.startsWith p s = true -> Str.startsWith p (s +:+ t) = true.
Proof.
  revert s. induction p as [|a p IH]; intros [|b s]; cbn [Str.startsWith];
    try reflexivity; try discriminate.
  cbn [String.append Str.startsWith].
  intros [Ha Hp]%andb_true_iff. now rewrite Ha, IH.
Qed.

Lemma includes_append_l (p s t : string) :
  Str.includes p s = true -> Str.includes p (s +:+ t) = true.
Proof.
  induction s as [|a s IH].
  - cbn [Str.includes]. rewrite orb_false_r. intros H.
    destruct p; [|discriminate H]. now destruct t.
  - change (String a s +:+ t) with (String a (s +:+ t)).
    cbn [Str.includes]. intros [H|H]%orb_true_iff.
    + apply (startsWith_append_l p (String a s) t) in H.
      change (String a s +:+ t) with (String a (s +:+ t)) in H.
      now rewrite H.
    + rewrite IH by exact H. apply orb_true_r.
Qed.

Lemma includes_append_r (p s t : string) :
  Str.includes p t = true -> Str.includes p (s +:+ t) = true.
Proof.
  intros H. induction s as [|a s IH]; [exact H|].
  cbn [String.append Str.includes]. rewrite IH. apply orb_true_r.
Qed.

Lemma built_path_keeps results item parts param value :
  In param (placeholders parts) ->
  path_parameter_value results item param = Ok value ->
  truthy value = false ->
  Str.includes ("{" +:+ param +:+ "}")
    (built_path encodeURIComponent results item parts) = true.
Proof.
  intros Hin Hvalue Hfalsy.
  assert (H : forall done,
             Str.includes ("{" +:+ param +:+ "}")
               (done +:+ built_path encodeURIComponent results item parts)
             = true); [|apply (H "")].
  induction parts as [|[text|n] parts IH]; intros done;
    cbn [placeholders In built_path built_path_part] in *; [tauto| |].
  - rewrite <- (append_assoc done). now apply IH.
  - destruct Hin as [->|Hin].
    + rewrite Hvalue, Hfalsy.
      apply includes_startsWith, startsWith_append.
    + rewrite <- (append_assoc done). now apply IH.
Qed.

End BuildFacts.

Section BuildClaims.

Variable World : Type.
Variable fetch : Request -> World -> FetchResult * World.
Variable encodeURIComponent : string -> string.
Variable searchParamsToString : list (string * string) -> string.
Variable typeErrorMessage : string -> string.

(** C5 (as amended).  For every step whose path is made of literal
    text and parameters, with a parameter [param] whose literal value
    is empty and that has no mapping, whatever the other parameters
    hold: the build does not fail.  The turn for [param] leaves the
    URL as it is; the request is built, to the base URL followed by
    the path with every other parameter that has a value replaced and
    the placeholder of [param] still in it; and [executeSequenceItem]
    issues that request. *)
Theorem empty_path_parameter_is_left_in_place
    (st : State) (w : World) (itemId : string) (i : nat)
    (item : SequenceItem) (parts : list template_part) (param : string) :
  findIndex itemId (apiSequence st) = Some i ->
  apiSequence st !! i = Some item ->
  Str.includes_char "{" (baseUrl st) = false ->
  path (endpoint item) = JStr (render_template parts) ->
  forallb part_formed parts = true ->
  In param (placeholders parts) ->
  nullish (parameters item) = false ->
  nullish (js_get (parameters item) "path") = false ->
  nullish (js_get (parameters item) "query") = false ->
  nullish (variableMappings item) = false ->
  truthy (js_get (js_get (parameters item) "path") param) = false ->
  truthy (js_get (variableMappings item) param) = false ->
  forallb (path_value_ok encodeURIComponent (sequenceResults st) item)
          (placeholders parts) = true ->
  (forall url,
      apply_path_param encodeURIComponent (sequenceResults st) item url param
      = Ok url)
  /\ exists req queryParams,
       build_request encodeURIComponent searchParamsToString st item = Ok req
       /\ buildQueryParameters (sequenceResults st) item = Ok queryParams
       /\ req_url req
          = (baseUrl st
             +:+ built_path encodeURIComponent (sequenceResults st) item parts)
            +:+ (if String.eqb (searchParamsToString queryParams) "" then ""
                 else "?" +:+ searchParamsToString queryParams)
       /\ Str.includes ("{" +:+ param +:+ "}") (req_url req) = true
       /\ issued
            (fst (executeSequenceItem World fetch encodeURIComponent
                    searchParamsToString typeErrorMessage itemId st w))
          = (issued st ++ [req])%list.
Proof.
  intros Hfind Hitem Hbase Hpath Hformed Hin Hparams Hvalues Hquery
    Hmappings Hvalue Hmapping Hothers.
  pose proof (path_parameter_value_empty (sequenceResults st) item param
                Hparams Hvalues Hmappings Hvalue Hmapping) as Hempty.
  split.
  { intros url. rewrite apply_path_param_value, Hempty. cbn [bind].
    now rewrite Hvalue. }
  assert (Hqueryparams :
            buildQueryParameters (sequenceResults st) item
            = Ok (List.app
                    (flat_map (query_entry (sequenceResults st))
                       (own_entries (js_get (parameters item) "query")))
                    [("opt_pretty", "true")])).
  { unfold buildQueryParameters, get_or_throw. rewrite Hparams.
    cbn [bind]. now rewrite Hquery. }
  assert (Hbuild :
            build_request encodeURIComponent searchParamsToString st item
            = Ok {| req_url :=
                      let qs :=
                        searchParamsToString
                          (List.app
                             (flat_map (query_entry (sequenceResults st))
                                (own_entries
                                   (js_get (parameters item) "query")))
                             [("opt_pretty", "true")]) in
                      let url :=
                        baseUrl st
                        +:+ built_path encodeURIComponent (sequenceResults st)
                              item parts in
                      if String.eqb qs "" then url else url +:+ "?" +:+ qs;
                    req_method := method (endpoint item);
                    req_token := personalAccessToken st;
                    req_body :=
                      if truthy (js_get (parameters item) "body")
                         && sends_body (method (endpoint item))
                      then Some (js_get (parameters item) "body")
                      else None |}).
  { unfold build_request. rewrite Hpath.
    cbn [extractPathParameters to_string].
    rewrite (scan_formed parts Hformed). cbn [bind].
    rewrite (apply_path_params_built encodeURIComponent (sequenceResults st)
               item parts (baseUrl st));
      [|intros q value _ _ _; now apply quiet_text|exact Hformed
       |exact Hothers].
    cbn [bind]. rewrite Hqueryparams. cbn [bind].
    unfold get_or_throw. rewrite Hparams. reflexivity. }
  eexists. eexists. split; [exact Hbuild|]. split; [exact Hqueryparams|].
  cbn [req_url]. split; [|split].
  - destruct (String.eqb (searchParamsToString _) "");
      [now rewrite append_nil_r|reflexivity].
  - assert (Hkept : forall rest,
               Str.includes ("{" +:+ param +:+ "}")
                 ((baseUrl st
                   +:+ built_path encodeURIComponent (sequenceResults st)
                         item parts) +:+ rest) = true).
    { intros rest. apply (includes_append_l _ _ rest).
      apply includes_append_r.
      now apply (built_path_keeps encodeURIComponent (sequenceResults st)
                   item parts param _ Hin Hempty). }
    destruct (String.eqb (searchParamsToString _) "").
    + rewrite <- (append_nil_r (baseUrl st +:+ _)). apply Hkept.
    + apply Hkept.
  - unfold executeSequenceItem. rewrite Hfind, Hitem.
    change (build_request encodeURIComponent searchParamsToString
              (update_item i (set_outcome false JNull None) st) item)
      with (build_request encodeURIComponent searchParamsToString st item).
    rewrite Hbuild.
    destruct (fetch _ w) as [[message|[] status responseData] w'];
      cbn [fst]; try reflexivity.
    destruct (api_error_text responseData); reflexivity.
Qed.

End BuildClaims.

Lemma empty_path_parameter_is_left_in_place_witness :
  let st := Sample2.before_half_filled_step in
  let item := Sample2.half_filled_step in
  let parts :=
    [Literal "/workspaces/"; Placeholder "workspace_gid";
     Literal "/tasks/"; Placeholder "task_gid"] in
  (forall url,
      apply_path_param Sample.encode (sequenceResults st) item url "task_gid"
      = Ok url)
  /\ exists req queryParams,
       build_request Sample.encode Sample.serialize st item = Ok req
       /\ buildQueryParameters (sequenceResults st) item = Ok queryParams
       /\ req_url req
          = (baseUrl st
             +:+ built_path Sample.encode (sequenceResults st) item parts)
            +:+ (if String.eqb (Sample.serialize queryParams) "" then ""
                 else "?" +:+ Sample.serialize queryParams)
       /\ Str.includes ("{" +:+ "task_gid" +:+ "}") (req_url req) = true
       /\ issued
            (fst (executeSequenceItem nat Sample.always_ok Sample.encode
                    Sample.serialize Sample.type_error "seq_2_b" st 0%nat))
          = (issued st ++ [req])%list.
Proof.
  intros st item parts.
  apply (empty_path_parameter_is_left_in_place nat Sample.always_ok
           Sample.encode Sample.serialize Sample.type_error
           st 0%nat "seq_2_b" 1%nat item parts "task_gid");
    try reflexivity.
  right. left. reflexivity.
Defined.

(** The request of that step: the mapped parameter is replaced, the
    empty one is left, and the request goes out. *)
Example half_filled_request :
  map req_url
    (issued
       (fst (executeSequenceItem nat Sample.always_ok Sample.encode
               Sample.serialize Sample.type_error "seq_2_b"
               Sample2.before_half_filled_step 0%nat)))
  = ["https://app.asana.com/api/1.0/workspaces/101/tasks/{task_gid}?limit=5&opt_pretty=true"].
Proof. vm_compute. reflexivity. Qed.

(** C5 as stated fails: with an empty required path parameter the item
    is executed, a request goes out with the placeholder still in its
    URL, and no error is recorded. *)
Lemma empty_path_parameter_counterexample :
  ~ (forall (st : State) (item : SequenceItem) (param : string),
       apiSequence st = [item] ->
       extractPathParameters (path (endpoint item)) = Ok [param] ->
       js_get (js_get (parameters item) "path") param = JStr "" ->
       variableMappings item = JObj [] ->
       let st' :=
         fst (executeSequenceItem nat Sample.always_ok Sample.encode
                Sample.serialize Sample.type_error (id item) st 0%nat) in
       issued st' = issued st
       /\ exists e, error <$> (apiSequence st' !! 0%nat) = Some (Some e)
                    /\ Str.includes param e = true).
Proof.
  intros H.
  specialize (H (Sample.session
                   [Sample.item "seq_1_a" "GET"
                      "/workspaces/{workspace_gid}/projects"
                      [("workspace_gid", JStr "")] [] []])
                _ "workspace_gid" eq_refl eq_refl eq_refl eq_refl).
  destruct H as [Hissued _]. vm_compute in Hissued. discriminate Hissued.
Qed.

(** The request of that run. *)
Example empty_path_parameter_request :
  let st' :=
    fst (executeSequenceItem nat Sample.always_ok Sample.encode
           Sample.serialize Sample.type_error "seq_1_a"
           (Sample.session
              [Sample.item "seq_1_a" "GET"
                 "/workspaces/{workspace_gid}/projects"
                 [("workspace_gid", JStr "")] [] []]) 0%nat) in
  map req_url (issued st')
  = ["https://app.asana.com/api/1.0/workspaces/{workspace_gid}/projects?opt_pretty=true"]
  /\ map error (apiSequence st') = [None]
  /\ map executed (apiSequence st') = [true].
Proof. vm_compute. repeat split. Qed.

(** C4 as stated fails: after a run the result of the first step is
    found under its runtime id and not under [step0]. *)
Lemma stable_reference_counterexample :
  ~ (forall (st : State) (n : nat) (item : SequenceItem) (rest : string),
       let st' :=
         fst (executeSequence nat Sample.always_ok Sample.encode
                Sample.serialize Sample.type_error st 0%nat) in
       apiSequence st' !! n = Some item ->
       resolveVariable (sequenceResults st')
         (("step" +:+ Str.of_nat n) +:+ "." +:+ rest)
       = resolveVariable (sequenceResults st') (id item +:+ "." +:+ rest)).
Proof.
  intros H.
  specialize (H (Sample.session
                   [Sample.item "seq_1_a" "GET" "/workspaces" [] [] []])
                0%nat _ "data[0].gid" eq_refl).
  vm_compute in H. discriminate H.
Qed.

Lemma stable_reference_unresolved_witness :
  let st := Sample.session Sample.three_steps in
  resolveVariable
    (sequenceResults
       (fst (executeSequence nat Sample.always_ok Sample.encode
               Sample.serialize Sample.type_error st 0%nat)))
    (("step" +:+ Str.of_nat 0) +:+ "." +:+ "data[0].gid")
  = JNull.
Proof.
  intros st.
  apply (stable_reference_unresolved nat Sample.always_ok Sample.encode
           Sample.serialize Sample.type_error st 0%nat 0%nat "data[0].gid").
  - simpl. intuition discriminate.
  - reflexivity.
Defined.

(** ** TransformationEngine *)

(** *** Assignments in the order of the engine *)

Section AssignFacts.

Implicit Types (key k : string) (v : jsvalue) (l : list (string * jsvalue)).

Lemma index_key_text key n :
  index_key key = Some n ->
  key = NilEmpty.string_of_uint (N.to_uint n).
Proof.
  unfold index_key.
  destruct (NilEmpty.uint_of_string key) as [d|]; [|discriminate].
  cbv zeta.
  destruct (String.eqb (NilEmpty.string_of_uint (N.to_uint (N.of_uint d))) key)
    eqn:Htext; [|discriminate].
  destruct (N.of_uint d <? 4294967295)%N; [|discriminate].
  intros [= <-]. symmetry. now apply String.eqb_eq.
Qed.

Lemma index_key_inj key k n :
  index_key key = Some n -> index_key k = Some n -> key = k.
Proof.
  intros H1%index_key_text H2%index_key_text. congruence.
Qed.

Lemma listed_before_asym key k :
  listed_before key k = true -> k <> key /\ listed_before k key = false.
Proof.
  unfold listed_before.
  destruct (index_key key) as [n|] eqn:Hn; [|discriminate].
  destruct (index_key k) as [m|] eqn:Hm.
  - intros Hlt%N.ltb_lt. split.
    + intros ->. rewrite Hn in Hm. injection Hm as ->. lia.
    + apply N.ltb_ge. lia.
  - intros _. split; [|reflexivity].
    intros ->. congruence.
Qed.

(** What stays behind [k] stays behind a key that goes in front of [k]. *)
Lemma listed_before_front key k k' :
  listed_before key k = true ->
  k' <> k -> listed_before k' k = false ->
  k' <> key /\ listed_before k' key = false.
Proof.
  unfold listed_before.
  destruct (index_key key) as [n|] eqn:Hn; [|discriminate].
  destruct (index_key k') as [n'|] eqn:Hn'.
  - destruct (index_key k) as [m|] eqn:Hm; [|discriminate].
    intros Hlt%N.ltb_lt Hne Hge%N.ltb_ge. split.
    + intros ->. rewrite Hn in Hn'. injection Hn' as ->. lia.
    + apply N.ltb_ge. lia.
  - intros _ _ _. split; [|reflexivity].
    intros ->. congruence.
Qed.

Lemma assign_keys_in key v l k :
  In k (map fst (assign key v l)) <-> k = key \/ In k (map fst l).
Proof.
  induction l as [|[k0 x] l IH]; simpl.
  - intuition.
  - destruct (String.eqb k0 key) eqn:Hk0.
    + apply String.eqb_eq in Hk0 as ->. simpl. intuition.
    + destruct (listed_before key k0); simpl; [intuition|].
      rewrite IH. intuition.
Qed.

Lemma assign_keys_forall (P : string -> Prop) key v l :
  P key -> Forall P (map fst l) -> Forall P (map fst (assign key v l)).
Proof.
  intros Hkey Hl. apply List.Forall_forall. intros k Hk.
  apply assign_keys_in in Hk as [->|Hk]; [assumption|].
  now apply (proj1 (List.Forall_forall _ _) Hl).
Qed.

Lemma assign_cells_forall (P : jsvalue -> Prop) key v l :
  P v ->
  Forall (fun kv : string * jsvalue => P (snd kv)) l ->
  Forall (fun kv : string * jsvalue => P (snd kv)) (assign key v l).
Proof.
  intros Hv. induction l as [|[k0 x] l IH]; simpl; intros Hl.
  - now constructor.
  - apply Forall_cons in Hl as [Hx Hl].
    destruct (String.eqb k0 key); [now constructor|].
    destruct (listed_before key k0).
    + constructor; [assumption|]. now constructor.
    + constructor; [assumption|]. now apply IH.
Qed.

(** An assignment keeps the order of the engine. *)
Lemma assign_listed key v l :
  listed (map fst l) -> listed (map fst (assign key v l)).
Proof.
  induction l as [|[k0 x] l IH]; simpl.
  - intros _. split; [constructor|exact I].
  - intros [Hrest Hl].
    destruct (String.eqb k0 key) eqn:Hk0; [now split|].
    apply String.eqb_neq in Hk0.
    destruct (listed_before key k0) eqn:Hfront; simpl.
    + split; [|now split].
      destruct (listed_before_asym _ _ Hfront) as [Hne Hback].
      constructor; [now split|].
      eapply List.Forall_impl; [|exact Hrest].
      intros k' [Hne' Hback']. simpl in *.
      now apply (listed_before_front key k0 k').
    + split; [|now apply IH].
      apply assign_keys_forall; [|assumption].
      split; [congruence|assumption].
Qed.

(** A key that no key of the object equals, and that goes in front of
    none of them, is added last. *)
Lemma assign_new key v l :
  Forall (fun k => k <> key /\ listed_before key k = false) (map fst l) ->
  assign key v l = (l ++ [(key, v)])%list.
Proof.
  induction l as [|[k0 x] l IH]; simpl; [reflexivity|].
  intros [[Hne Hback] Hl]%Forall_cons.
  apply String.eqb_neq in Hne. rewrite Hne, Hback. now rewrite IH.
Qed.

Lemma listed_NoDup (keys : list string) : listed keys -> NoDup keys.
Proof.
  induction keys as [|k keys IH]; simpl; [constructor|].
  intros [Hrest Hkeys]. constructor; [|now apply IH].
  intros Hin%list_elem_of_In.
  apply (proj1 (List.Forall_forall _ _) Hrest) in Hin as [Hne _].
  now apply Hne.
Qed.

Lemma listed_app (a b : list string) :
  listed (a ++ b)
  <-> listed a /\ listed b
      /\ Forall (fun x => Forall (fun y => y <> x /\ listed_before y x = false) b) a.
Proof.
  induction a as [|x a IH]; simpl.
  - intuition.
  - rewrite Forall_app, IH, Forall_cons. intuition.
Qed.

Lemma find_cell_assign k key v l :
  find_cell k (assign key v l)
  = if String.eqb key k then Some v else find_cell k l.
Proof.
  induction l as [|[k0 x] l IH]; simpl; [reflexivity|].
  destruct (String.eqb k0 key) eqn:Hk0.
  - apply String.eqb_eq in Hk0 as ->. simpl.
    now destruct (String.eqb key k).
  - destruct (listed_before key k0); simpl; [reflexivity|].
    rewrite IH. destruct (String.eqb k0 k) eqn:Hk; [|reflexivity].
    apply String.eqb_eq in Hk as ->. now rewrite String.eqb_sym, Hk0.
Qed.

Lemma find_cell_app k (a b : list (string * jsvalue)) :
  find_cell k (a ++ b)
  = match find_cell k a with Some v => Some v | None => find_cell k b end.
Proof.
  induction a as [|[k0 x] a IH]; simpl; [reflexivity|].
  now destruct (String.eqb k0 k).
Qed.

Lemma find_cell_assign_all k l (sub : list (string * jsvalue)) :
  find_cell k (assign_all l sub) = find_cell k (rev sub ++ l)%list.
Proof.
  unfold assign_all. revert l.
  induction sub as [|[k0 x] sub IH]; intros l; simpl; [reflexivity|].
  rewrite IH, <- app_assoc, !find_cell_app. simpl.
  rewrite find_cell_assign.
  destruct (find_cell k (rev sub)); [reflexivity|].
  now destruct (String.eqb k0 k).
Qed.

Lemma find_cell_none k l :
  ~ In k (map fst l) -> find_cell k l = None.
Proof.
  induction l as [|[k0 x] l IH]; simpl; [reflexivity|].
  intros Hnot. destruct (String.eqb k0 k) eqn:Hk.
  - apply String.eqb_eq in Hk. tauto.
  - apply IH. tauto.
Qed.

(** With every key once, the order does not matter to what is found. *)
Lemma find_cell_rev k l :
  NoDup (map fst l) -> find_cell k (rev l) = find_cell k l.
Proof.
  induction l as [|[k0 x] l IH]; simpl; [reflexivity|].
  intros [Hnot Hl]%NoDup_cons. rewrite find_cell_app, IH by assumption.
  simpl. destruct (String.eqb k0 k) eqn:Hk.
  - apply String.eqb_eq in Hk as ->.
    rewrite find_cell_none; [reflexivity|].
    now rewrite <- list_elem_of_In.
  - now destruct (find_cell k l).
Qed.

Lemma assign_ordered key v l :
  is_container v = false ->
  ordered_record l -> ordered_record (assign key v l).
Proof.
  intros Hv [Hkeys Hcells]. split.
  - now apply assign_listed.
  - now apply (assign_cells_forall (fun v => is_container v = false)).
Qed.

Lemma assign_all_ordered l sub :
  ordered_record l ->
  Forall (fun kv : string * jsvalue => is_container (snd kv) = false) sub ->
  ordered_record (assign_all l sub).
Proof.
  unfold assign_all. revert l.
  induction sub as [|[k x] sub IH]; intros l Hl Hsub; simpl; [assumption|].
  apply Forall_cons in Hsub as [Hx Hsub].
  apply IH; [|assumption]. now apply assign_ordered.
Qed.

(** A record whose keys, put behind those of the object, are in the
    order of the engine is added at the end as it is. *)
Lemma assign_all_new l sub :
  listed (map fst (l ++ sub)%list) -> assign_all l sub = (l ++ sub)%list.
Proof.
  unfold assign_all. revert l.
  induction sub as [|[k x] sub IH]; intros l Hl; simpl.
  - now rewrite app_nil_r.
  - replace (l ++ (k, x) :: sub)%list with ((l ++ [(k, x)]) ++ sub)%list in *
      by now rewrite <- app_assoc.
    rewrite assign_new; [now apply IH|].
    rewrite !map_app in Hl. simpl in Hl.
    apply listed_app in Hl as [Hl _].
    apply listed_app in Hl as (_ & _ & Hl).
    eapply List.Forall_impl; [|exact Hl].
    intros k' Hk'. now apply Forall_cons in Hk' as [Hk' _].
Qed.

Lemma ordered_flat l : ordered_record l -> flat_record l.
Proof.
  intros [Hkeys Hcells]. split; [now apply listed_NoDup|assumption].
Qed.

Lemma flatten_property_ordered recur prefix l kv :
  (forall v p,
      Forall (fun kv : string * jsvalue => is_container (snd kv) = false)
             (recur v p)) ->
  ordered_record l -> ordered_record (flatten_property recur prefix l kv).
Proof.
  intros Hrecur Hl. destruct kv as [key v]. unfold flatten_property.
  destruct v; try (now apply assign_ordered).
  now apply assign_all_ordered.
Qed.

Lemma flatten_entries_ordered recur prefix entries l :
  (forall v p,
      Forall (fun kv : string * jsvalue => is_container (snd kv) = false)
             (recur v p)) ->
  ordered_record l ->
  ordered_record (fold_left (flatten_property recur prefix) entries l).
Proof.
  intros Hrecur. revert l.
  induction entries as [|kv entries IH]; intros l Hl; simpl; [assumption|].
  apply IH. now apply flatten_property_ordered.
Qed.

Lemma flatten_levels_ordered levels obj prefix :
  ordered_record (flatten_levels levels obj prefix).
Proof.
  revert obj prefix.
  induction levels as [|levels IH]; intros obj prefix; simpl.
  - split; simpl; [split; [constructor|exact I]|].
    constructor; [reflexivity|constructor].
  - apply flatten_entries_ordered.
    + intros v p. apply IH.
    + split; simpl; [exact I|constructor].
Qed.

Lemma flatten_levels_distinct levels obj prefix :
  NoDup (map fst (flatten_levels levels obj prefix)).
Proof. apply listed_NoDup, flatten_levels_ordered. Qed.

End AssignFacts.

(** *** Flattening *)

Section FlattenClaims.

Implicit Types (obj v : jsvalue) (prefix a b c key : string).
Implicit Types (recur below : jsvalue -> string -> list (string * jsvalue)).
Implicit Types (acc : list (string * jsvalue)).

(** [flattenObject] as the source writes it, with both depths. *)
Lemma flattenObject_unfold obj prefix maxDepth currentDepth :
  flattenObject obj prefix maxDepth currentDepth
  = if (maxDepth <=? currentDepth)%nat
    then [(Str.drop_last prefix, JStr "[Object]")]
    else fold_left
           (flatten_property
              (fun value newPrefix =>
                 flattenObject value newPrefix maxDepth (S currentDepth))
              prefix)
           (own_entries obj) [].
Proof.
  unfold flattenObject.
  destruct (Nat.leb_spec maxDepth currentDepth) as [H|H].
  - now replace (maxDepth - currentDepth)%nat with 0%nat by lia.
  - replace (maxDepth - currentDepth)%nat
      with (S (maxDepth - S currentDepth)) by lia.
    reflexivity.
Qed.

Lemma drop_last_append (s : string) (ch : ascii) :
  Str.drop_last (s +:+ String ch "") = s.
Proof.
  induction s as [|x s IH]; [reflexivity|].
  simpl. rewrite IH. now destruct s.
Qed.

Lemma flatten_scalar recur prefix key v :
  is_container v = false ->
  flatten_property recur prefix [] (key, v) = [(prefix +:+ key, v)].
Proof. now destruct v. Qed.

(** *** The loop and the cells: what is found under a key *)

Lemma flatten_property_find recur below prefix key acc kv :
  (forall v p, NoDup (map fst (recur v p))) ->
  (forall v joined k,
      find_cell k (recur v (joined +:+ "_"))
      = find_cell k (rev (below v joined))) ->
  find_cell key (flatten_property recur prefix acc kv)
  = find_cell key (rev (property_cells below prefix kv) ++ acc)%list.
Proof.
  intros Hdistinct Hbelow. destruct kv as [k v].
  unfold flatten_property, property_cells. cbn [fst snd].
  destruct v; try apply find_cell_assign.
  rewrite find_cell_assign_all, !find_cell_app.
  now rewrite find_cell_rev, Hbelow by apply Hdistinct.
Qed.

Lemma flatten_entries_find recur below prefix key entries acc :
  (forall v p, NoDup (map fst (recur v p))) ->
  (forall v joined k,
      find_cell k (recur v (joined +:+ "_"))
      = find_cell k (rev (below v joined))) ->
  find_cell key (fold_left (flatten_property recur prefix) entries acc)
  = find_cell key
      (rev (flat_map (property_cells below prefix) entries) ++ acc)%list.
Proof.
  intros Hdistinct Hbelow. revert acc.
  induction entries as [|kv entries IH]; intros acc; [reflexivity|].
  cbn [fold_left flat_map]. rewrite IH, rev_app_distr, <- app_assoc.
  rewrite !find_cell_app.
  rewrite (flatten_property_find recur below) by assumption.
  now rewrite find_cell_app.
Qed.

Lemma flatten_levels_find deeper obj prefix key :
  find_cell key (flatten_levels (S deeper) obj prefix)
  = find_cell key (rev (cells deeper prefix obj)).
Proof.
  revert obj prefix key.
  induction deeper as [|deeper IH]; intros obj prefix key;
    change (flatten_levels (S ?n) obj prefix)
      with (fold_left (flatten_property (flatten_levels n) prefix)
                      (own_entries obj) []);
    cbn [cells];
    (erewrite flatten_entries_find;
     [now rewrite app_nil_r
     |intros v p; apply flatten_levels_distinct|]).
  - intros v joined k. cbn [flatten_levels rev app].
    now rewrite drop_last_append.
  - intros v joined k. apply IH.
Qed.

(** *** The loop and the cells: the record itself *)

Lemma flatten_property_cells recur below prefix acc kv :
  (forall v joined,
      listed (map fst (below v joined)) ->
      recur v (joined +:+ "_") = below v joined) ->
  listed (map fst (acc ++ property_cells below prefix kv)%list) ->
  flatten_property recur prefix acc kv
  = (acc ++ property_cells below prefix kv)%list.
Proof.
  intros Hbelow Hlisted. destruct kv as [k v].
  unfold flatten_property, property_cells in *. cbn [fst snd] in *.
  assert (Hnew : forall x,
             listed (map fst (acc ++ [(prefix +:+ k, x)])%list) ->
             assign (prefix +:+ k) x acc = (acc ++ [(prefix +:+ k, x)])%list).
  { intros x Hx. apply assign_new.
    rewrite map_app in Hx. apply listed_app in Hx as (_ & _ & Hx).
    eapply List.Forall_impl; [|exact Hx].
    intros k' Hk'. apply Forall_cons in Hk' as [[Hne Hback] _].
    cbn [fst] in *. split; [congruence|assumption]. }
  destruct v; try (now apply Hnew).
  pose proof Hlisted as Hsub.
  rewrite map_app in Hsub. apply listed_app in Hsub as (_ & Hsub & _).
  rewrite Hbelow in * by assumption.
  now apply assign_all_new.
Qed.

Lemma flatten_entries_cells recur below prefix entries acc :
  (forall v joined,
      listed (map fst (below v joined)) ->
      recur v (joined +:+ "_") = below v joined) ->
  listed (map fst (acc ++ flat_map (property_cells below prefix) entries)%list) ->
  fold_left (flatten_property recur prefix) entries acc
  = (acc ++ flat_map (property_cells below prefix) entries)%list.
Proof.
  intros Hbelow. revert acc.
  induction entries as [|kv entries IH]; intros acc Hlisted;
    cbn [fold_left flat_map] in *.
  - now rewrite app_nil_r.
  - rewrite app_assoc in Hlisted. 
    rewrite (flatten_property_cells recur below), IH, <- ?app_assoc;
      try assumption; try reflexivity.
    rewrite map_app in Hlisted. now apply listed_app in Hlisted as [Hl _].
Qed.

Lemma flatten_levels_cells deeper obj prefix :
  listed (map fst (cells deeper prefix obj)) ->
  flatten_levels (S deeper) obj prefix = cells deeper prefix obj.
Proof.
  revert obj prefix.
  induction deeper as [|deeper IH]; intros obj prefix Hlisted;
    change (flatten_levels (S ?n) obj prefix)
      with (fold_left (flatten_property (flatten_levels n) prefix)
                      (own_entries obj) []);
    cbn [cells] in *;
    (erewrite flatten_entries_cells; [reflexivity| |exact Hlisted]).
  - intros v joined _. cbn [flatten_levels].
    now rewrite drop_last_append.
  - intros v joined Hsub. now apply IH.
Qed.

(** C9 (as amended).  [flattenObject] gives the cells of the record:
    the keys of nested objects joined by underscores, objects opened
    down to three levels, an object below that collapsed to the marker
    [[Object]], and an array at any level collapsed to [[Array(n)]]
    with [n] its length.  Under every key the flattened record holds
    what the last cell with that key holds, and when the keys of the
    cells are those of an object in the order of the engine, the
    flattened record is the list of the cells. *)
Theorem flattenRecord_cells record :
  (forall key,
      find_cell key (flattenRecord record)
      = find_cell key (rev (cells 2 "" record)))
  /\ (listed (map fst (cells 2 "" record)) ->
      flattenRecord record = cells 2 "" record).
Proof.
  split.
  - intros key. apply flatten_levels_find.
  - apply flatten_levels_cells.
Qed.

End FlattenClaims.

(** A record with several properties, an object two levels deep, an
    array inside an object and an object below the third level. *)
Example flattenRecord_of_a_task :
  flattenRecord
    (JObj [("gid", JStr "12");
           ("assignee", JObj [("name", JStr "Ann");
                              ("teams", JArr [JStr "a"; JStr "b"])]);
           ("memberships",
            JObj [("project",
                   JObj [("owner", JObj [("gid", JStr "7")]);
                         ("name", JStr "Plan")])])])
  = [("gid", JStr "12");
     ("assignee_name", JStr "Ann");
     ("assignee_teams", JStr "[Array(2)]");
     ("memberships_project_owner", JStr "[Object]");
     ("memberships_project_name", JStr "Plan")].
Proof. vm_compute. reflexivity. Qed.

(** C9 as stated fails: the keys are joined by underscores, and nothing
    is found under the dotted key. *)
Lemma flattenRecord_dotted_counterexample :
  ~ (forall a b v,
       is_container v = false ->
       assoc (a +:+ "." +:+ b) (flattenRecord (JObj [(a, JObj [(b, v)])])) = v).
Proof.
  intros H. specialize (H "assignee" "name" (JStr "Ann") eq_refl).
  vm_compute in H. discriminate H.
Qed.

(** ** Import *)

Section ImportClaims.

Variable endpoints : list Endpoint.
Variable newId : nat -> string.
Variable confirmed : bool.
Variable typeErrorMessage : string -> string.

Abbreviation import_one := (import_entry endpoints newId).
Abbreviation import_all := (import_entries endpoints newId).
Abbreviation load :=
  (loadSequenceFromData endpoints newId confirmed typeErrorMessage).

Implicit Types (l : list SequenceItem) (entries : list jsvalue)
  (importItem : jsvalue).

Lemma alter_last (f : SequenceItem -> SequenceItem) l x :
  alter f (List.length (l ++ [x])%list - 1) (l ++ [x])%list = (l ++ [f x])%list.
Proof.
  rewrite length_app. simpl.
  replace (List.length l + 1 - 1)%nat with (List.length l) by lia.
  induction l as [|y l IH]; simpl; [reflexivity|]. f_equal. exact IH.
Qed.









End ImportClaims.



(** An entry that matches the catalog and throws while its mappings are
    converted is counted as skipped although the item pushed for it
    stays in the sequence. *)
Example import_skipped_entry_stays :
  let r :=
    loadSequenceFromData Sample.catalog Sample.new_id true Sample.type_error
      Sample.bad_mapping_file (Sample.session []) in
  loadedCount r = 1%nat /\ skippedCount r = 1%nat
  /\ map id (apiSequence (after r)) = ["seq_0"; "seq_1"].
Proof. vm_compute. repeat split. Qed.

(** ** One request for every step *)

Section RunClaims.

Variable World : Type.
Variable fetch : Request -> World -> FetchResult * World.
Variable encodeURIComponent : string -> string.
Variable searchParamsToString : list (string * string) -> string.
Variable typeErrorMessage : string -> string.

Abbreviation one_item :=
  (executeSequenceItem World fetch encodeURIComponent searchParamsToString
     typeErrorMessage).
Abbreviation one_loop :=
  (executeSequence_from World fetch encodeURIComponent searchParamsToString
     typeErrorMessage).
Abbreviation one_run :=
  (executeSequence World fetch encodeURIComponent searchParamsToString
     typeErrorMessage).

Lemma loop_issued n : forall i st w,
  (List.length (issued (fst (one_loop n i st w)))
   <= List.length (issued st) + n)%nat.
Proof.
  induction n as [|n IH]; intros i st w; cbn [executeSequence_from fst];
    [lia|].
  destruct (apiSequence st !! i) as [item|]; cbn [fst]; [|lia].
  pose proof (executeSequenceItem_touches World fetch encodeURIComponent
                searchParamsToString typeErrorMessage (id item) st w) as Ht.
  apply touches_issued in Ht.
  destruct (one_item (id item) st w) as [st' w']. cbn [fst] in Ht.
  destruct (apiSequence st' !! i) as [item'|]; cbn [fst]; [|lia].
  destruct (has_error item'); cbn [fst]; [lia|].
  specialize (IH (S i) st' w'). lia.
Qed.

(** C6: the runner of the code has no iteration.  Whatever the
    sequence and the answers, [executeSequence] hands at most one
    request for every step to [fetch].  For the file of the testing
    guide, whose second step is configured to iterate over the five
    projects that the first step returns: the import keeps three
    steps, the run makes three calls, one for each step; the call of
    the second step goes out with its path parameter left in place;
    and the result of the second step is the answer to that one call,
    which has none of the fields of an iteration summary. *)
Theorem executeSequence_one_request_per_step (st : State) (w : World) :
  (List.length (issued (fst (one_run st w)))
   <= List.length (issued st) + List.length (apiSequence st))%nat
  /\ let loaded :=
       after (loadSequenceFromData Sample3.iteration_catalog Sample.new_id
                true Sample.type_error Sample3.iteration_file
                (Sample.session [])) in
     let run :=
       executeSequence nat Sample3.projects_then_tasks Sample.encode
         Sample.serialize Sample.type_error loaded 0%nat in
     map (fun item => path (endpoint item)) (apiSequence loaded)
     = [JStr "/projects"; JStr "/projects/{project_gid}/tasks";
        JStr "/users/me"]
     /\ snd run = 3%nat
     /\ map req_url (issued (fst run))
        = ["https://app.asana.com/api/1.0/projects?opt_pretty=true";
           "https://app.asana.com/api/1.0/projects/{project_gid}/tasks?opt_pretty=true";
           "https://app.asana.com/api/1.0/users/me?opt_pretty=true"]
     /\ map (fun item => (executed item, error item)) (apiSequence (fst run))
        = [(true, None); (true, None); (true, None)]
     /\ map result (apiSequence (fst run))
        = [Sample3.five_projects; Sample3.two_tasks; Sample3.two_tasks]
     /\ map (js_get Sample3.two_tasks)
          ["totalIterations"; "succeeded"; "failed"; "unifiedItems"]
        = [JUndefined; JUndefined; JUndefined; JUndefined].
Proof.
  split.
  - unfold executeSequence.
    destruct (_ =? 0)%nat; cbn [fst]; [lia|].
    destruct (String.eqb _ _); cbn [fst]; [lia|].
    apply loop_issued.
  - vm_compute. repeat split.
Qed.

End RunClaims.

(** * Further properties *)

(** ** ReferenceRewriter, reference by reference *)

Section RewriterExtras.

Variable apiSequence : list SequenceItem.
Variable currentStepIndex : nat.

Implicit Types (s run p ds : string) (l : list chunk).

Lemma stable_replacement_any run p s :
  chunk_formed (Ref run p) = true ->
  stable_replacement apiSequence currentStepIndex
    (render_chunk (Ref run p) +:+ s)
  = Some (stable_form apiSequence currentStepIndex (Ref run p),
          String.length (render_chunk (Ref run p))).
Proof.
  simpl chunk_formed.
  intros [[Hne Hrun]%andb_true_iff Hp]%andb_true_iff.
  apply negb_true_iff in Hne.
  unfold stable_replacement, render_chunk, runtime_id.
  rewrite (render_ref_shape "seq_" run p s).
  rewrite match_reference_here_ref by (assumption || reflexivity).
  unfold stable_form, render_chunk, runtime_id.
  destruct (findIndex ("seq_" +:+ run) apiSequence) as [k|];
    [destruct (k <? currentStepIndex)%nat|];
    try reflexivity;
    destruct (find_step ("seq_" +:+ run)); reflexivity.
Qed.

Lemma toStable_general l :
  forallb chunk_formed l = true ->
  replace_global (stable_replacement apiSequence currentStepIndex) 0
    (render_chunks l)
  = stable_forms apiSequence currentStepIndex l.
Proof.
  induction l as [|c l IH]; [reflexivity|].
  simpl forallb. intros [Hc Hl]%andb_true_iff.
  simpl render_chunks. simpl stable_forms.
  destruct c as [text|run p].
  - simpl in Hc |- *. apply andb_true_iff in Hc as [H1 H2].
    apply negb_true_iff in H1, H2.
    rewrite replace_global_text, (IH Hl);
      [reflexivity|apply stable_replacement_other
      |apply stable_replacement_single|assumption..].
  - rewrite replace_global_hit
      with (r := stable_form apiSequence currentStepIndex (Ref run p));
      [now rewrite (IH Hl)|apply render_chunk_nonempty|].
    now apply stable_replacement_any.
Qed.

Lemma stable_forms_not_backward l :
  forallb (chunk_not_backward apiSequence currentStepIndex) l = true ->
  stable_forms apiSequence currentStepIndex l = render_chunks l.
Proof.
  induction l as [|c l IH]; [reflexivity|].
  simpl forallb. intros [Hc Hl]%andb_true_iff.
  simpl. rewrite (IH Hl). f_equal.
  destruct c as [text|run p]; [reflexivity|].
  unfold chunk_not_backward in Hc. unfold stable_form.
  apply andb_true_iff in Hc as [Hidx Hstep].
  destruct (find_step (runtime_id run)); [discriminate|].
  destruct (findIndex (runtime_id run) apiSequence) as [k|]; [|reflexivity].
  apply negb_true_iff in Hidx. now rewrite Hidx.
Qed.

(** A reference to the step itself, to a later step or to an id that
    is not in the sequence stays as it is in the export, and so does
    all literal text (provided the id holds no [step<digits>]). *)
Theorem toStable_keeps_forward_references l :
  forallb chunk_formed l = true ->
  forallb (chunk_not_backward apiSequence currentStepIndex) l = true ->
  convertVariableToStepReference apiSequence (JStr (render_chunks l))
    currentStepIndex
  = JStr (render_chunks l).
Proof.
  intros Hformed Hforward. unfold convertVariableToStepReference.
  now rewrite toStable_general, stable_forms_not_backward.
Qed.

(** A reference that is not a backward one and whose id holds
    [step<digits>] somewhere is exported as a reference to the step of
    those digits, whichever step the id belongs to. *)
Theorem toStable_takes_digits_from_id run p ds :
  chunk_formed (Ref run p) = true ->
  match findIndex (runtime_id run) apiSequence with
  | Some stepIndex => (currentStepIndex <=? stepIndex)%nat
  | None => true
  end = true ->
  find_step (runtime_id run) = Some ds ->
  convertVariableToStepReference apiSequence (JStr (render_chunk (Ref run p)))
    currentStepIndex
  = JStr (render_stable_ref ds p).
Proof.
  intros Hformed Hforward Hstep. unfold convertVariableToStepReference.
  rewrite <- (append_nil_r (render_chunk (Ref run p))).
  change (render_chunk (Ref run p) +:+ "") with (render_chunks [Ref run p]).
  rewrite toStable_general by (cbn [forallb]; now rewrite Hformed).
  cbn [stable_forms]. rewrite append_nil_r.
  unfold stable_form. rewrite Hstep.
  destruct (findIndex (runtime_id run) apiSequence) as [k|]; [|reflexivity].
  apply Nat.leb_le in Hforward.
  destruct (Nat.ltb_spec k currentStepIndex); [lia|reflexivity].
Qed.

Lemma startsWith_prefix p q s :
  Str.startsWith (p +:+ q) s = true -> Str.startsWith p s = true.
Proof.
  revert s. induction p as [|a p IH]; intros s; [reflexivity|].
  destruct s as [|b s]; simpl; [discriminate|].
  intros [-> H]%andb_true_iff. simpl. now apply IH.
Qed.

Lemma match_reference_here_plain lit cls s :
  Str.startsWith "{{" s = false -> match_reference_here lit cls s = None.
Proof.
  intros H. unfold match_reference_here.
  destruct (Str.startsWith ("{{" +:+ lit) s) eqn:E; [|reflexivity].
  apply startsWith_prefix in E. congruence.
Qed.

Lemma replace_global_plain m s :
  (forall t, Str.startsWith "{{" t = false -> m t = None) ->
  Str.includes "{{" s = false ->
  replace_global m 0 s = s.
Proof.
  intros Hm. induction s as [|a s IH].
  - intros _. simpl. now rewrite Hm.
  - simpl Str.includes. intros [Hstart Hin]%orb_false_iff.
    rewrite replace_global_miss by now apply Hm.
    now rewrite (IH Hin).
Qed.

(** Both rewriters return a text in which no two opening braces stand
    in a row exactly as it is. *)
Theorem rewriters_keep_plain_text s :
  Str.includes "{{" s = false ->
  convertVariableToStepReference apiSequence (JStr s) currentStepIndex = JStr s
  /\ convertStepReferenceToVariable apiSequence (JStr s) currentStepIndex
     = JStr s.
Proof.
  intros H. unfold convertVariableToStepReference,
    convertStepReferenceToVariable.
  split; f_equal; apply replace_global_plain; try assumption; intros t Ht.
  - unfold stable_replacement. now rewrite match_reference_here_plain.
  - unfold runtime_replacement. now rewrite match_reference_here_plain.
Qed.

End RewriterExtras.

Section RuntimeExtras.

Variable apiSequence : list SequenceItem.
Variable currentStepIndex : nat.

Implicit Types (s p ds : string) (l : list stable_chunk).

Lemma digit_not_space a : Str.is_digit a = true -> is_space a = false.
Proof.
  unfold Str.is_digit, is_space. generalize (nat_of_ascii a). intros m Hm.
  apply andb_true_iff in Hm as [H1 H2].
  apply Nat.leb_le in H1. apply Nat.leb_le in H2.
  destruct (Nat.eqb_spec m 32); [lia|]. simpl.
  destruct (Nat.leb_spec m 13); [lia|]. now rewrite andb_false_r.
Qed.

(** [parseInt] of a run of decimal digits, leading zeros included. *)
Lemma parseInt_digits ds :
  String.eqb ds "" = false ->
  Str.all Str.is_digit ds = true ->
  parseInt ds = Int (Z.of_nat (Str.nat_of_digits ds)).
Proof.
  intros Hne Hd. destruct ds as [|a s]; [discriminate|].
  pose proof Hd as Hall. simpl in Hd.
  apply andb_true_iff in Hd as [Ha Hs].
  unfold parseInt.
  assert (Hsp : Str.span is_space (String a s) = ("", String a s)).
  { simpl. now rewrite (digit_not_space a Ha). }
  rewrite Hsp. cbn [snd].
  assert (Hsign :
    match String a s with
    | String "-" r => (true, r)
    | String "+" r => (false, r)
    | _ => (false, String a s)
    end = (false, String a s)).
  { destruct (Ascii.eqb_spec a "-") as [->|]; [discriminate Ha|].
    destruct (Ascii.eqb_spec a "+") as [->|]; [discriminate Ha|].
    destruct a as [[] [] [] [] [] [] [] []]; try reflexivity; congruence. }
  rewrite Hsign.
  unfold parse_magnitude.
  assert (Hx : Str.startsWith "0x" (String a s) = false
               /\ Str.startsWith "0X" (String a s) = false).
  { simpl. destruct s as [|b s]; [now rewrite !andb_false_r|].
    simpl in Hs. apply andb_true_iff in Hs as [Hb _].
    rewrite (Ascii.eqb_sym "x" b), (Ascii.eqb_sym "X" b).
    rewrite (digit_not "x" b), (digit_not "X" b) by (assumption || reflexivity).
    now rewrite !andb_false_r. }
  destruct Hx as [-> ->]. cbn [orb].
  rewrite (span_all_whole _ _ Hall). cbn [fst].
  now rewrite Hne.
Qed.

Lemma runtime_replacement_any ds p s :
  schunk_formed (SRef ds p) = true ->
  runtime_replacement apiSequence currentStepIndex
    (render_stable_ref ds p +:+ s)
  = Some (runtime_form apiSequence currentStepIndex (SRef ds p),
          String.length (render_stable_ref ds p)).
Proof.
  simpl schunk_formed.
  intros [[Hne Hds]%andb_true_iff Hp]%andb_true_iff.
  apply negb_true_iff in Hne.
  unfold runtime_replacement, render_stable_ref.
  change ("{{step" +:+ ds +:+ "." +:+ p +:+ "}}")
    with ("{{" +:+ ("step" +:+ ds) +:+ "." +:+ p +:+ "}}").
  rewrite (render_ref_shape "step" ds p s).
  rewrite match_reference_here_ref by (assumption || reflexivity).
  rewrite parseInt_digits by assumption.
  unfold runtime_form, render_schunk, render_stable_ref.
  cbv zeta.
  destruct (Nat.ltb_spec (Str.nat_of_digits ds) currentStepIndex) as [Hn|Hn];
    destruct (Z.ltb_spec (Z.of_nat (Str.nat_of_digits ds))
                (Z.of_nat currentStepIndex)); try lia; [|reflexivity].
  destruct (Z.ltb_spec (Z.of_nat (Str.nat_of_digits ds))
              (Z.of_nat (List.length apiSequence))) as [Hl|Hl]; cbn [andb].
  - rewrite Nat2Z.id.
    destruct (apiSequence !! Str.nat_of_digits ds); reflexivity.
  - rewrite (lookup_ge_None_2 apiSequence (Str.nat_of_digits ds)) by lia.
    reflexivity.
Qed.

Lemma render_stable_ref_nonempty ds p : render_stable_ref ds p <> "".
Proof. discriminate. Qed.

Lemma toRuntime_general l :
  forallb schunk_formed l = true ->
  replace_global (runtime_replacement apiSequence currentStepIndex) 0
    (render_schunks l)
  = runtime_forms apiSequence currentStepIndex l.
Proof.
  induction l as [|c l IH]; [reflexivity|].
  cbn [forallb]. intros [Hc Hl]%andb_true_iff.
  cbn [render_schunks runtime_forms].
  destruct c as [text|ds p].
  - simpl in Hc |- *. apply andb_true_iff in Hc as [H1 H2].
    apply negb_true_iff in H1, H2.
    rewrite replace_global_text, (IH Hl);
      [reflexivity|apply runtime_replacement_other
      |apply runtime_replacement_single|assumption..].
  - cbn [render_schunk].
    rewrite replace_global_hit
      with (r := runtime_form apiSequence currentStepIndex (SRef ds p));
      [now rewrite (IH Hl)|apply render_stable_ref_nonempty|].
    now apply runtime_replacement_any.
Qed.

Lemma runtime_forms_not_backward l :
  forallb (schunk_not_backward apiSequence currentStepIndex) l = true ->
  runtime_forms apiSequence currentStepIndex l = render_schunks l.
Proof.
  induction l as [|c l IH]; [reflexivity|].
  cbn [forallb]. intros [Hc Hl]%andb_true_iff.
  cbn [runtime_forms render_schunks]. rewrite (IH Hl). f_equal.
  destruct c as [text|ds p]; [reflexivity|].
  unfold schunk_not_backward in Hc. unfold runtime_form.
  cbv zeta in *.
  destruct (Nat.ltb_spec (Str.nat_of_digits ds) currentStepIndex);
    [|reflexivity].
  simpl in Hc. apply negb_true_iff, Nat.ltb_ge in Hc.
  now rewrite (lookup_ge_None_2 apiSequence (Str.nat_of_digits ds)) by lia.
Qed.

(** On import a stable reference to the current position, to a later
    one or to a position the sequence does not have stays as it is,
    and so does all literal text. *)
Theorem toRuntime_keeps_forward_references l :
  forallb schunk_formed l = true ->
  forallb (schunk_not_backward apiSequence currentStepIndex) l = true ->
  convertStepReferenceToVariable apiSequence (JStr (render_schunks l))
    currentStepIndex
  = JStr (render_schunks l).
Proof.
  intros Hformed Hforward. unfold convertStepReferenceToVariable.
  now rewrite toRuntime_general, runtime_forms_not_backward.
Qed.

End RuntimeExtras.

Section RebaseExtras.

Variable source target : list SequenceItem.
Variable currentStepIndex : nat.

Implicit Types (l : list chunk).

Lemma render_stable_as_schunks l :
  forallb (chunk_ok source currentStepIndex) l = true ->
  render_stable source l = render_schunks (map (to_stable_chunk source) l)
  /\ forallb schunk_formed (map (to_stable_chunk source) l) = true.
Proof.
  induction l as [|c l IH]; [now split|].
  cbn [forallb]. intros [Hc Hl]%andb_true_iff.
  destruct (IH Hl) as [Hrender Hformed].
  cbn [render_stable map render_schunks forallb].
  rewrite Hrender, Hformed, andb_true_r.
  destruct c as [text|run p]; [split; [reflexivity|exact Hc]|].
  simpl in Hc.
  apply andb_true_iff in Hc as [[[Hne Hrun]%andb_true_iff Hp]%andb_true_iff Hk].
  unfold render_stable_chunk, to_stable_chunk.
  destruct (findIndex (runtime_id run) source) as [k|]; [|discriminate].
  split; [reflexivity|].
  simpl. now rewrite of_nat_nonempty, of_nat_digits, Hp.
Qed.

Lemma runtime_forms_rebase l :
  forallb (chunk_ok source currentStepIndex) l = true ->
  runtime_forms target currentStepIndex (map (to_stable_chunk source) l)
  = rebase_chunks source target l.
Proof.
  induction l as [|c l IH]; [reflexivity|].
  cbn [forallb]. intros [Hc Hl]%andb_true_iff.
  cbn [map runtime_forms rebase_chunks]. rewrite (IH Hl). f_equal.
  destruct c as [text|run p]; [reflexivity|].
  simpl in Hc.
  apply andb_true_iff in Hc as [_ Hk].
  unfold to_stable_chunk, rebase_chunk, render_stable_chunk.
  destruct (findIndex (runtime_id run) source) as [k|]; [|discriminate].
  unfold runtime_form. cbv zeta. rewrite nat_of_digits_of_nat, Hk.
  destruct (target !! k); reflexivity.
Qed.

(** An expression exported from one sequence and imported into another
    at the same position has every backward reference pointing at the
    step that stands, in the other sequence, where the referenced step
    stood. *)
Theorem export_then_import_rebases l :
  forallb (chunk_ok source currentStepIndex) l = true ->
  convertStepReferenceToVariable target
    (convertVariableToStepReference source (JStr (render_chunks l))
       currentStepIndex)
    currentStepIndex
  = JStr (rebase_chunks source target l).
Proof.
  intros H. unfold convertVariableToStepReference.
  rewrite (toStable_chunks source currentStepIndex l H).
  destruct (render_stable_as_schunks l H) as [-> Hformed].
  unfold convertStepReferenceToVariable.
  now rewrite toRuntime_general, runtime_forms_rebase.
Qed.

End RebaseExtras.

Lemma export_then_import_rebases_witness :
  convertStepReferenceToVariable Sample2.later_session
    (convertVariableToStepReference Sample.three_steps
       (JStr (render_chunks [Text "gid="; Ref "2_b" "data[0].gid"])) 2) 2
  = JStr "gid={{seq_8_y.data[0].gid}}".
Proof.
  apply (export_then_import_rebases Sample.three_steps Sample2.later_session 2
           [Text "gid="; Ref "2_b" "data[0].gid"]).
  reflexivity.
Defined.

Lemma toStable_keeps_forward_references_witness :
  convertVariableToStepReference Sample.three_steps
    (JStr (render_chunks [Text "a "; Ref "3_c" "data.gid"; Text " b ";
                          Ref "unknown" "data.gid"])) 1
  = JStr "a {{seq_3_c.data.gid}} b {{seq_unknown.data.gid}}".
Proof.
  apply (toStable_keeps_forward_references Sample.three_steps 1
           [Text "a "; Ref "3_c" "data.gid"; Text " b ";
            Ref "unknown" "data.gid"]); reflexivity.
Defined.

Lemma toStable_takes_digits_from_id_witness :
  convertVariableToStepReference Sample2.odd_ids
    (JStr (render_chunk (Ref "2_step7k" "data.gid"))) 1
  = JStr "{{step7.data.gid}}".
Proof.
  apply (toStable_takes_digits_from_id Sample2.odd_ids 1 "2_step7k" "data.gid"
           "7"); reflexivity.
Defined.

Lemma rewriters_keep_plain_text_witness :
  convertVariableToStepReference Sample.three_steps
    (JStr "{ seq_1_a.data } and step0.data") 2
  = JStr "{ seq_1_a.data } and step0.data"
  /\ convertStepReferenceToVariable Sample.three_steps
       (JStr "{ seq_1_a.data } and step0.data") 2
     = JStr "{ seq_1_a.data } and step0.data".
Proof.
  apply (rewriters_keep_plain_text Sample.three_steps 2
           "{ seq_1_a.data } and step0.data").
  reflexivity.
Defined.

Lemma toRuntime_keeps_forward_references_witness :
  convertStepReferenceToVariable Sample.three_steps
    (JStr (render_schunks [SText "x="; SRef "2" "data.gid"; SText "&y=";
                           SRef "007" "data.gid"])) 2
  = JStr "x={{step2.data.gid}}&y={{step007.data.gid}}".
Proof.
  apply (toRuntime_keeps_forward_references Sample.three_steps 2
           [SText "x="; SRef "2" "data.gid"; SText "&y=";
            SRef "007" "data.gid"]); reflexivity.
Defined.

(** ** SequenceExecutor, step by step *)

Section ExecutorExtras.

Variable World : Type.
Variable fetch : Request -> World -> FetchResult * World.
Variable encodeURIComponent : string -> string.
Variable searchParamsToString : list (string * string) -> string.
Variable typeErrorMessage : string -> string.

Abbreviation exec_item :=
  (executeSequenceItem World fetch encodeURIComponent searchParamsToString
     typeErrorMessage).
Abbreviation exec_loop :=
  (executeSequence_from World fetch encodeURIComponent searchParamsToString
     typeErrorMessage).
Abbreviation exec_steps :=
  (run_steps World fetch encodeURIComponent searchParamsToString
     typeErrorMessage).
Abbreviation exec_all :=
  (executeSequence World fetch encodeURIComponent searchParamsToString
     typeErrorMessage).

Implicit Types (st : State) (w : World) (item : SequenceItem).

Lemma append_nonempty (s : string) (a : ascii) (t : string) :
  s +:+ String a t <> "".
Proof. destruct s; discriminate. Qed.

Lemma lookup_update_item i f st item :
  apiSequence st !! i = Some item ->
  apiSequence (update_item i f st) !! i = Some (f item).
Proof.
  intros H. unfold update_item. simpl.
  now rewrite list_lookup_alter_eq, H.
Qed.

(** A call of [executeSequenceItem] marks the item as executed. *)
Lemma item_marked_executed itemId st w i item :
  findIndex itemId (apiSequence st) = Some i ->
  apiSequence st !! i = Some item ->
  exists item',
    apiSequence (fst (exec_item itemId st w)) !! i = Some item'
    /\ executed item' = true.
Proof.
  intros Hfind Hitem. unfold executeSequenceItem. rewrite Hfind, Hitem.
  pose proof (lookup_update_item i (set_outcome false JNull None) st item Hitem)
    as Hreset.
  set (st0 := update_item i (set_outcome false JNull None) st) in *.
  assert (Hset : forall (st1 : State) r e,
             apiSequence st1 !! i = Some (set_outcome false JNull None item) ->
             exists item',
               apiSequence (update_item i (set_outcome true r e) st1) !! i
               = Some item'
               /\ executed item' = true).
  { intros st1 r e H1. eexists.
    split; [apply lookup_update_item; exact H1|reflexivity]. }
  unfold network_error.
  destruct (build_request _ _ st0 item) as [req|e];
    [|apply Hset; exact Hreset].
  destruct (fetch req w) as [[message|[] status responseData] w'];
    cbn [fst].
  - apply Hset. exact Hreset.
  - cbn [store_result apiSequence]. apply Hset. exact Hreset.
  - destruct (api_error_text responseData) as [text|e]; cbn [fst];
      apply Hset; exact Hreset.
Qed.

(** After [executeSequenceItem] on an item of the sequence, the item is
    marked as executed and keeps its configuration, and one of two
    things holds: it carries an error, has no result, and the store is
    as it was (a result stored by an earlier run stays); or it carries
    no error and its result is in the store under its id. *)
Theorem executeSequenceItem_outcome itemId st w i item :
  findIndex itemId (apiSequence st) = Some i ->
  apiSequence st !! i = Some item ->
  exists item',
    apiSequence (fst (exec_item itemId st w)) !! i = Some item'
    /\ same_configuration item item'
    /\ executed item' = true
    /\ ((exists e, error item' = Some e /\ e <> "" /\ result item' = JNull
                   /\ sequenceResults (fst (exec_item itemId st w))
                      = sequenceResults st)
        \/ (error item' = None
            /\ sequenceResults (fst (exec_item itemId st w))
               = <[id item := result item']> (sequenceResults st))).
Proof.
  intros Hfind Hitem. unfold executeSequenceItem. rewrite Hfind, Hitem.
  pose proof (lookup_update_item i (set_outcome false JNull None) st item Hitem)
    as Hreset.
  set (st0 := update_item i (set_outcome false JNull None) st) in *.
  assert (Herr : forall (st1 : State) e,
             apiSequence st1 !! i = Some (set_outcome false JNull None item) ->
             sequenceResults st1 = sequenceResults st ->
             exists item',
               apiSequence (network_error typeErrorMessage i e st1) !! i
               = Some item'
               /\ same_configuration item item'
               /\ executed item' = true
               /\ ((exists e', error item' = Some e' /\ e' <> ""
                               /\ result item' = JNull
                               /\ sequenceResults
                                    (network_error typeErrorMessage i e st1)
                                  = sequenceResults st)
                   \/ (error item' = None
                       /\ sequenceResults
                            (network_error typeErrorMessage i e st1)
                          = <[id item := result item']> (sequenceResults st)))).
  { intros st1 e H1 Hstore. eexists. split.
    - unfold network_error. apply lookup_update_item. exact H1.
    - split; [repeat split|]. split; [reflexivity|].
      left. eexists. split; [reflexivity|].
      split; [discriminate|]. split; [reflexivity|exact Hstore]. }
  destruct (build_request _ _ st0 item) as [req|e]; [|now apply Herr].
  destruct (fetch req w) as [[message|[] status responseData] w'];
    cbn [fst].
  - now apply Herr.
  - eexists. split.
    + cbn [store_result apiSequence]. apply lookup_update_item. exact Hreset.
    + split; [repeat split|]. split; [reflexivity|].
      right. split; reflexivity.
  - destruct (api_error_text responseData) as [text|e]; cbn [fst].
    + eexists. split; [apply lookup_update_item; exact Hreset|].
      split; [repeat split|]. split; [reflexivity|].
      left. eexists. split; [reflexivity|].
      split; [|split; reflexivity].
      apply (append_nonempty (Str.of_nat status) ":" (String " " text)).
    + now apply Herr.
Qed.

Lemma same_configuration_refl item : same_configuration item item.
Proof. repeat split. Qed.

Lemma same_configuration_trans (a b c : SequenceItem) :
  same_configuration a b -> same_configuration b c -> same_configuration a c.
Proof.
  unfold same_configuration. intros (?&?&?&?&?&?) (?&?&?&?&?&?).
  repeat split; congruence.
Qed.

Lemma configuration_kept_refl st : configuration_kept st st.
Proof.
  repeat split. induction (apiSequence st); constructor;
    [apply same_configuration_refl|assumption].
Qed.

Lemma configuration_kept_trans st1 st2 st3 :
  configuration_kept st1 st2 -> configuration_kept st2 st3 ->
  configuration_kept st1 st3.
Proof.
  intros (H1 & T1 & B1) (H2 & T2 & B2). repeat split; [|congruence..].
  revert H2. generalize (apiSequence st3).
  induction H1 as [|a b l1 l2 Hab _ IH]; intros l3 H3; inversion H3; subst;
    constructor; [now apply same_configuration_trans with b|now apply IH].
Qed.

Lemma alter_same_configuration (f : SequenceItem -> SequenceItem) i
    (l : list SequenceItem) :
  (forall item, same_configuration item (f item)) ->
  Forall2 same_configuration l (alter f i l).
Proof.
  intros Hf.
  assert (Hrefl : forall l' : list SequenceItem,
             Forall2 same_configuration l' l').
  { induction l'; constructor; [apply same_configuration_refl|assumption]. }
  revert i. induction l as [|x l IH]; intros [|i]; simpl;
    try constructor; try apply same_configuration_refl; try apply Hf;
    try apply IH; apply Hrefl.
Qed.

Lemma configuration_kept_update i b r e st st' :
  configuration_kept st st' ->
  configuration_kept st (update_item i (set_outcome b r e) st').
Proof.
  intros H. apply configuration_kept_trans with st'; [exact H|].
  repeat split. simpl. apply alter_same_configuration.
  intros item. repeat split.
Qed.

Lemma executeSequenceItem_keeps itemId st w :
  configuration_kept st (fst (exec_item itemId st w)).
Proof.
  unfold executeSequenceItem.
  destruct (findIndex itemId (apiSequence st)) as [i|];
    [|apply configuration_kept_refl].
  destruct (apiSequence st !! i) as [item|];
    [|apply configuration_kept_refl].
  assert (H0 : configuration_kept st
                 (update_item i (set_outcome false JNull None) st)).
  { apply configuration_kept_update, configuration_kept_refl. }
  destruct (build_request _ _ _ _) as [req|e]; cbn [fst].
  - assert (H1 : configuration_kept st
                   (log_request req
                      (update_item i (set_outcome false JNull None) st))).
    { exact H0. }
    destruct (fetch req w) as [[message|[] status responseData] w'];
      cbn [fst].
    + now apply configuration_kept_update.
    + apply (configuration_kept_update i true responseData None) in H1.
      exact H1.
    + destruct (api_error_text responseData); cbn [fst];
        now apply configuration_kept_update.
  - now apply configuration_kept_update.
Qed.

Lemma exec_loop_keeps n : forall i st w,
  configuration_kept st (fst (exec_loop n i st w)).
Proof.
  induction n as [|n IH]; intros i st w; [apply configuration_kept_refl|].
  simpl. destruct (apiSequence st !! i) as [item|];
    [|apply configuration_kept_refl].
  pose proof (executeSequenceItem_keeps (id item) st w) as H.
  destruct (exec_item (id item) st w) as [st' w']. cbn [fst] in H.
  destruct (apiSequence st' !! i) as [item'|]; [|exact H].
  destruct (has_error item'); [exact H|].
  apply configuration_kept_trans with st'; [exact H|apply IH].
Qed.

(** A run changes nothing but the [executed], [result] and [error]
    fields of the steps: the sequence has the same steps in the same
    order with the same endpoints, parameters and mappings, and the
    token and base URL are as before. *)
Theorem executeSequence_keeps_configuration st w :
  configuration_kept st (fst (exec_all st w)).
Proof.
  unfold executeSequence.
  destruct (_ =? 0)%nat; [apply configuration_kept_refl|].
  destruct (String.eqb _ _); [apply configuration_kept_refl|].
  apply exec_loop_keeps.
Qed.

Lemma steps_out_of_range n i st w :
  apiSequence st !! i = None -> exec_steps n i st w = (st, w).
Proof. intros H. destruct n; simpl; [reflexivity|]. now rewrite H. Qed.

Lemma steps_add a : forall b i st w,
  exec_steps (a + b) i st w
  = exec_steps b (i + a) (fst (exec_steps a i st w))
      (snd (exec_steps a i st w)).
Proof.
  induction a as [|a IH]; intros b i st w.
  - simpl. now rewrite Nat.add_0_r.
  - destruct (apiSequence st !! i) as [item|] eqn:Hi.
    + change (S a + b)%nat with (S (a + b)).
      rewrite !(steps_succ World fetch encodeURIComponent
                  searchParamsToString typeErrorMessage _ _ _ _ _ Hi).
      rewrite IH. now replace (S i + a)%nat with (i + S a)%nat by lia.
    + rewrite (steps_out_of_range (S a + b) i st w Hi).
      rewrite (steps_out_of_range (S a) i st w Hi). cbn [fst snd].
      rewrite steps_out_of_range; [reflexivity|].
      apply lookup_ge_None. apply lookup_ge_None in Hi. lia.
Qed.

Lemma loop_runs_all n : forall i st w,
  (forall d, (d < n)%nat ->
             error_at (i + d) (fst (exec_steps (S d) i st w)) = false) ->
  exec_loop n i st w = exec_steps n i st w.
Proof.
  induction n as [|n IH]; intros i st w Hok; [reflexivity|].
  destruct (apiSequence st !! i) as [item|] eqn:Hi.
  - rewrite (steps_succ World fetch encodeURIComponent searchParamsToString
               typeErrorMessage _ _ _ _ _ Hi).
    pose proof (Hok 0%nat ltac:(lia)) as H0.
    rewrite (steps_succ World fetch encodeURIComponent searchParamsToString
               typeErrorMessage _ _ _ _ _ Hi), Nat.add_0_r in H0.
    assert (Hok' : forall d, (d < n)%nat ->
              error_at (S i + d)
                (fst (exec_steps (S d) (S i) (fst (exec_item (id item) st w))
                        (snd (exec_item (id item) st w)))) = false).
    { intros d Hd. specialize (Hok (S d) ltac:(lia)).
      rewrite (steps_succ World fetch encodeURIComponent searchParamsToString
                 typeErrorMessage _ _ _ _ _ Hi) in Hok.
      now replace (S i + d)%nat with (i + S d)%nat by lia. }
    clear Hok.
    change (exec_loop (S n) i st w)
      with (match apiSequence st !! i with
            | None => (st, w)
            | Some item =>
                let (st', w') := exec_item (id item) st w in
                match apiSequence st' !! i with
                | Some item' =>
                    if has_error item' then (st', w')
                    else exec_loop n (S i) st' w'
                | None => (st', w')
                end
            end).
    rewrite Hi.
    destruct (exec_item (id item) st w) as [st' w']. cbn [fst snd] in *.
    unfold error_at in H0. cbn [run_steps fst] in H0.
    destruct (apiSequence st' !! i) as [item'|] eqn:Hi'.
    + rewrite H0. now apply IH.
    + rewrite steps_out_of_range; [reflexivity|].
      apply lookup_ge_None. apply lookup_ge_None in Hi'. lia.
  - simpl. now rewrite Hi.
Qed.

Lemma steps_ids n i st w :
  NoDup (ids (apiSequence st)) ->
  ids (apiSequence (fst (exec_steps n i st w))) = ids (apiSequence st).
Proof.
  intros Hnd.
  now destruct (steps_frame World fetch encodeURIComponent
                  searchParamsToString typeErrorMessage n i st w Hnd)
    as (_ & _ & H).
Qed.

Lemma steps_length n i st w :
  NoDup (ids (apiSequence st)) ->
  List.length (apiSequence (fst (exec_steps n i st w)))
  = List.length (apiSequence st).
Proof.
  intros Hnd. pose proof (steps_ids n i st w Hnd) as H. unfold ids in H.
  now rewrite <- (length_map id), H, length_map.
Qed.

(** The item at position [j] after the first [j + 1] turns: executed. *)
Lemma step_marks_executed j st w item' :
  NoDup (ids (apiSequence st)) ->
  apiSequence (fst (exec_steps (S j) 0 st w)) !! j = Some item' ->
  executed item' = true.
Proof.
  intros Hnd. replace (S j) with (j + 1)%nat by lia.
  rewrite steps_add. cbn [Nat.add].
  pose proof (steps_ids j 0 st w Hnd) as Hids.
  destruct (exec_steps j 0 st w) as [s1 w1]. cbn [fst snd] in *.
  cbn [run_steps].
  destruct (apiSequence s1 !! j) as [item|] eqn:Hj; cbn [fst].
  - assert (Hfind : findIndex (id item) (apiSequence s1) = Some j).
    { apply findIndex_unique; [now rewrite Hids|assumption]. }
    destruct (item_marked_executed (id item) s1 w1 j item Hfind Hj)
      as (it & Hit & Hexec).
    destruct (exec_item (id item) s1 w1) as [s2 w2]. cbn [fst] in *.
    rewrite Hit. now intros [= <-].
  - now rewrite Hj.
Qed.

Lemma final_item n j st w :
  NoDup (ids (apiSequence st)) ->
  (j < n)%nat ->
  apiSequence (fst (exec_steps n 0 st w)) !! j
  = apiSequence (fst (exec_steps (S j) 0 st w)) !! j.
Proof.
  intros Hnd Hj. replace n with (S j + (n - S j))%nat at 1 by lia.
  rewrite steps_add.
  pose proof (steps_ids (S j) 0 st w Hnd) as Hids.
  destruct (exec_steps (S j) 0 st w) as [s1 w1]. cbn [fst snd] in *.
  destruct (steps_frame World fetch encodeURIComponent searchParamsToString
              typeErrorMessage (n - S j) (0 + S j) s1 w1) as (H & _ & _);
    [now rewrite Hids|].
  apply H. lia.
Qed.

(** When no step leaves an error, a run is the calls of
    [executeSequenceItem] for every position in order, and at its end
    every step is marked as executed and carries no error. *)
Theorem executeSequence_runs_all st w :
  NoDup (ids (apiSequence st)) ->
  String.eqb (personalAccessToken st) "" = false ->
  (forall d, (d < List.length (apiSequence st))%nat ->
             error_at d (fst (exec_steps (S d) 0 st w)) = false) ->
  exec_all st w = exec_steps (List.length (apiSequence st)) 0 st w
  /\ forall j item',
       apiSequence (fst (exec_all st w)) !! j = Some item' ->
       executed item' = true /\ has_error item' = false.
Proof.
  intros Hnd Htoken Hok.
  assert (Hrun : exec_all st w
                 = exec_steps (List.length (apiSequence st)) 0 st w).
  { unfold executeSequence. rewrite Htoken.
    destruct (_ =? 0)%nat eqn:E.
    - apply Nat.eqb_eq in E. now rewrite E.
    - now apply loop_runs_all. }
  split; [exact Hrun|]. rewrite Hrun.
  intros j item' Hj.
  assert (Hlt : (j < List.length (apiSequence st))%nat).
  { rewrite <- (steps_length (List.length (apiSequence st)) 0 st w Hnd).
    apply lookup_lt_is_Some. now rewrite Hj. }
  rewrite final_item in Hj by assumption.
  split; [now apply (step_marks_executed j st w)|].
  specialize (Hok j Hlt). unfold error_at in Hok. now rewrite Hj in Hok.
Qed.

Lemma query_entries_literal results entries :
  forallb (fun kv : string * jsvalue => literal_value (snd kv)) entries = true ->
  flat_map (query_entry results) entries = sent_literals entries.
Proof.
  induction entries as [|[key value] rest IH]; intros Hall; [reflexivity|].
  cbn [forallb snd] in Hall. apply andb_true_iff in Hall as [Hlit Hrest].
  cbn [flat_map]. rewrite (IH Hrest). unfold sent_literals.
  cbn [List.filter snd]. unfold query_entry.
  destruct (truthy value) eqn:Ht; [|reflexivity].
  cbn [map fst snd List.app].
  destruct value; try reflexivity.
  cbn [literal_value] in Hlit. apply negb_true_iff in Hlit. now rewrite Hlit.
Qed.

(** A query table without placeholders is sent as it stands: the
    truthy values in table order, each as text, then [opt_pretty=true].
    A parameter whose value is [false], [0], the empty string or [null]
    is left out, and the store of results plays no part. *)
Theorem buildQueryParameters_literals results item entries :
  nullish (parameters item) = false ->
  js_get (parameters item) "query" = JObj entries ->
  forallb (fun kv : string * jsvalue => literal_value (snd kv)) entries = true ->
  buildQueryParameters results item
  = Ok (List.app (sent_literals entries) [("opt_pretty", "true")]).
Proof.
  intros Hparams Hquery Hall. unfold buildQueryParameters, get_or_throw.
  rewrite Hparams. cbn [bind]. rewrite Hquery. cbn [nullish own_entries].
  now rewrite query_entries_literal.
Qed.

Lemma ids_lookup (l : list SequenceItem) i item :
  l !! i = Some item -> ids l !! i = Some (id item).
Proof.
  revert i. induction l as [|x l IH]; intros [|i] H; try discriminate.
  - now injection H as ->.
  - now apply IH.
Qed.

Lemma distinct_ids (l : list SequenceItem) i j a b :
  NoDup (ids l) -> l !! i = Some a -> l !! j = Some b -> i <> j ->
  id a <> id b.
Proof.
  intros Hnd Ha Hb Hij E. apply Hij.
  apply (NoDup_lookup (ids l) i j (id a) Hnd).
  - now apply ids_lookup.
  - rewrite E. now apply ids_lookup.
Qed.

Lemma consistent_without_result i b e st st' :
  apiSequence st' = apiSequence st ->
  sequenceResults st' = sequenceResults st ->
  results_consistent st ->
  results_consistent (update_item i (set_outcome b JNull e) st').
Proof.
  intros Hitems Hstore H j item Hj Hexec Hres.
  unfold update_item in Hj. cbn [with_sequence apiSequence] in Hj.
  cbn [update_item with_sequence sequenceResults]. rewrite Hstore.
  destruct (decide (i = j)) as [<-|Hij].
  - rewrite list_lookup_alter_eq in Hj.
    destruct (apiSequence st' !! i); [|discriminate].
    injection Hj as <-. discriminate Hres.
  - rewrite list_lookup_alter_ne, Hitems in Hj by assumption.
    now apply (H j).
Qed.

Lemma consistent_with_result i item data st st' :
  NoDup (ids (apiSequence st)) ->
  apiSequence st !! i = Some item ->
  apiSequence st' = alter (set_outcome false JNull None) i (apiSequence st) ->
  sequenceResults st' = sequenceResults st ->
  results_consistent st ->
  results_consistent
    (store_result (id item) data
       (update_item i (set_outcome true data None) st')).
Proof.
  intros Hnd Hi Hitems Hstore H j it Hj Hexec Hres.
  cbn [store_result update_item with_sequence apiSequence sequenceResults]
    in *.
  rewrite Hstore.
  rewrite Hitems, list_alter_alter_eq in Hj.
  destruct (decide (i = j)) as [<-|Hij].
  - rewrite list_lookup_alter_eq, Hi in Hj. injection Hj as <-.
    cbn [id result set_outcome]. apply lookup_insert_eq.
  - rewrite list_lookup_alter_ne in Hj by assumption.
    rewrite lookup_insert_ne; [now apply (H j)|].
    now apply (distinct_ids (apiSequence st) i j).
Qed.

Lemma executeSequenceItem_consistent itemId st w :
  NoDup (ids (apiSequence st)) ->
  results_consistent st ->
  results_consistent (fst (exec_item itemId st w)).
Proof.
  intros Hnd H. unfold executeSequenceItem.
  destruct (findIndex itemId (apiSequence st)) as [i|]; [|exact H].
  destruct (apiSequence st !! i) as [item|] eqn:Hi; [|exact H].
  assert (H0 : results_consistent
                 (update_item i (set_outcome false JNull None) st)).
  { now apply (consistent_without_result i false None st st). }
  assert (Herr : forall b e st',
             apiSequence st'
             = alter (set_outcome false JNull None) i (apiSequence st) ->
             sequenceResults st' = sequenceResults st ->
             results_consistent (update_item i (set_outcome b JNull e) st')).
  { intros b e st' Hitems Hstore.
    apply (consistent_without_result i b e
             (update_item i (set_outcome false JNull None) st) st');
      [exact Hitems|exact Hstore|exact H0]. }
  destruct (build_request _ _ _ _) as [req|e]; cbn [fst].
  - destruct (fetch req w) as [[message|[] status responseData] w'];
      cbn [fst].
    + now apply Herr.
    + now apply (consistent_with_result i item responseData st).
    + destruct (api_error_text responseData); cbn [fst]; now apply Herr.
  - now apply Herr.
Qed.

Lemma exec_loop_consistent n : forall i st w,
  NoDup (ids (apiSequence st)) ->
  results_consistent st ->
  results_consistent (fst (exec_loop n i st w)).
Proof.
  induction n as [|n IH]; intros i st w Hnd H; [exact H|].
  simpl. destruct (apiSequence st !! i) as [item|]; [|exact H].
  pose proof (executeSequenceItem_consistent (id item) st w Hnd H) as H1.
  pose proof (touches_ids _ _ _
                (executeSequenceItem_touches World fetch encodeURIComponent
                   searchParamsToString typeErrorMessage (id item) st w))
    as Hids.
  destruct (exec_item (id item) st w) as [st' w']. cbn [fst] in *.
  destruct (apiSequence st' !! i) as [item'|]; [|exact H1].
  destruct (has_error item'); [exact H1|].
  apply IH; [now rewrite Hids|exact H1].
Qed.

(** A run keeps the results consistent when the ids are distinct: at
    its end every executed step that holds a result has that very
    result in the store under its id, whatever failed on the way. *)
Theorem executeSequence_keeps_results_consistent st w :
  NoDup (ids (apiSequence st)) ->
  results_consistent st ->
  results_consistent (fst (exec_all st w)).
Proof.
  intros Hnd H. unfold executeSequence.
  destruct (_ =? 0)%nat; [exact H|].
  destruct (String.eqb _ _); [exact H|].
  now apply exec_loop_consistent.
Qed.

End ExecutorExtras.

Section HintExtras.

Implicit Types (st : State) (item : SequenceItem).

Abbreviation resolves_as_shown st :=
  (fun v : AvailableVariable =>
     resolveVariable (sequenceResults st) (variable_path v)
     = shown_or_null (example v)).

Lemma offered_variables_resolve st i item :
  Str.includes_char "." (id item) = false ->
  (executed item = true -> truthy (result item) = true ->
   sequenceResults st !! id item = Some (result item)) ->
  Forall (resolves_as_shown st) (offered_variables i item).
Proof.
  intros Hid Hstore. unfold offered_variables.
  destruct (executed item); [|constructor].
  destruct (truthy (result item)) eqn:Hres; [|constructor].
  cbn [andb]. specialize (Hstore eq_refl eq_refl).
  destruct (truthy (js_get (result item) "data")) eqn:Hdata; [|constructor].
  assert (Hwalk : forall segs,
            forallb segment_ok segs = true ->
            resolveVariable (sequenceResults st)
              (render_expression (id item) segs)
            = handWalk (result item) segs).
  { intros segs Hsegs.
    now rewrite resolveVariable_rendered, Hstore, Hres by assumption. }
  assert (Hdata' : nullish (js_get (result item) "data") = false).
  { now destruct (js_get (result item) "data"). }
  assert (Hfield : forall name,
            name_ok name = true ->
            resolveVariable (sequenceResults st)
              (render_expression (id item) [Field "data"; Field name])
            = shown_or_null (js_get (js_get (result item) "data") name)).
  { intros name Hname. rewrite Hwalk by (cbn; now rewrite Hname).
    cbn [handWalk access]. now rewrite Hdata'. }
  assert (Hfirst : forall name,
            name_ok name = true ->
            resolveVariable (sequenceResults st)
              (render_expression (id item) [Index "data" 0; Field name])
            = shown_or_null
                (if nullish (js_get (js_get (result item) "data") "0")
                 then JUndefined
                 else js_get (js_get (js_get (result item) "data") "0") name)).
  { intros name Hname. rewrite Hwalk by (cbn; now rewrite Hname).
    cbn [handWalk access]. rewrite Hdata'.
    change "0" with (Str.of_nat 0). rewrite js_get_of_nat.
    now destruct (nullish (element (js_get (result item) "data") 0)). }
  destruct (js_get (result item) "data") eqn:Edata;
    repeat constructor;
    solve [ apply (Hfield "gid"); reflexivity
          | apply (Hfield "name"); reflexivity
          | apply (Hfirst "gid"); reflexivity
          | apply (Hfirst "name"); reflexivity ].
Qed.

Lemma getAvailableVariables_from_resolve st n : forall i variables,
  (i + n <= List.length (apiSequence st))%nat ->
  (forall j item, apiSequence st !! j = Some item ->
                  Str.includes_char "." (id item) = false) ->
  results_consistent st ->
  Forall (resolves_as_shown st) variables ->
  exists variables',
    getAvailableVariables_from (apiSequence st) n i variables = Ok variables'
    /\ Forall (resolves_as_shown st) variables'.
Proof.
  induction n as [|n IH]; intros i variables Hlen Hids Hcons Hvars.
  - now exists variables.
  - cbn [getAvailableVariables_from].
    destruct (apiSequence st !! i) as [item|] eqn:Hi.
    + apply IH; [lia|assumption|assumption|].
      apply Forall_app. split; [assumption|].
      apply offered_variables_resolve; [now apply (Hids i)|].
      now apply (Hcons i).
    + apply lookup_ge_None in Hi. lia.
Qed.

(** The variables offered for the step at [currentIndex] are good
    references: when the results are consistent and no id holds a dot,
    [resolveVariable] gives for each offered path the value shown as
    its example, and [null] where the example is not there. *)
Theorem getAvailableVariables_resolve st currentIndex :
  (currentIndex <= List.length (apiSequence st))%nat ->
  (forall j item, apiSequence st !! j = Some item ->
                  Str.includes_char "." (id item) = false) ->
  results_consistent st ->
  exists variables,
    getAvailableVariables st currentIndex = Ok variables
    /\ Forall (fun v : AvailableVariable =>
                 resolveVariable (sequenceResults st) (variable_path v)
                 = shown_or_null (example v)) variables.
Proof.
  intros Hlen Hids Hcons.
  apply getAvailableVariables_from_resolve; try assumption. constructor.
Qed.

End HintExtras.

Lemma executeSequenceItem_outcome_witness :
  let st := Sample.session Sample.three_steps in
  let run :=
    executeSequenceItem nat Sample.second_fails Sample.encode Sample.serialize
      Sample.type_error "seq_1_a" st 1%nat in
  exists item',
    apiSequence (fst run) !! 0%nat = Some item'
    /\ same_configuration
         (Sample.item "seq_1_a" "GET" "/workspaces" []
            [("limit", JStr "10")] []) item'
    /\ executed item' = true
    /\ ((exists e, error item' = Some e /\ e <> "" /\ result item' = JNull
                   /\ sequenceResults (fst run) = sequenceResults st)
        \/ (error item' = None
            /\ sequenceResults (fst run)
               = <[id (Sample.item "seq_1_a" "GET" "/workspaces" []
                         [("limit", JStr "10")] []) := result item']>
                   (sequenceResults st))).
Proof.
  intros st run.
  apply (executeSequenceItem_outcome nat Sample.second_fails Sample.encode
           Sample.serialize Sample.type_error "seq_1_a" st 1%nat 0%nat).
  - reflexivity.
  - reflexivity.
Defined.

Lemma executeSequence_runs_all_witness :
  let st := Sample.session Sample.three_steps in
  let run :=
    executeSequence nat Sample.always_ok Sample.encode Sample.serialize
      Sample.type_error in
  run st 0%nat
  = run_steps nat Sample.always_ok Sample.encode Sample.serialize
      Sample.type_error (List.length (apiSequence st)) 0 st 0%nat
  /\ forall j item',
       apiSequence (fst (run st 0%nat)) !! j = Some item' ->
       executed item' = true /\ has_error item' = false.
Proof.
  intros st run.
  apply (executeSequence_runs_all nat Sample.always_ok Sample.encode
           Sample.serialize Sample.type_error st 0%nat).
  - unfold ids. simpl. apply (bool_decide_unpack _). vm_compute. exact I.
  - reflexivity.
  - intros d Hd. simpl in Hd.
    destruct d as [|[|[|d]]]; [reflexivity|reflexivity|reflexivity|lia].
Defined.

Lemma buildQueryParameters_literals_witness :
  buildQueryParameters ∅
    (Sample.item "seq_1_a" "GET" "/tasks" []
       [("limit", JNum 10); ("archived", JBool false); ("assignee", JStr "me");
        ("completed", JBool true); ("offset", JStr "")] [])
  = Ok [("limit", "10"); ("assignee", "me"); ("completed", "true");
        ("opt_pretty", "true")].
Proof.
  apply (buildQueryParameters_literals ∅ _
           [("limit", JNum 10); ("archived", JBool false);
            ("assignee", JStr "me"); ("completed", JBool true);
            ("offset", JStr "")]).
  - reflexivity.
  - reflexivity.
  - reflexivity.
Defined.

Lemma after_first_step_consistent : results_consistent Sample2.after_first_step.
Proof.
  intros i item Hi Hexec _.
  destruct i as [|[|[|i]]]; try discriminate Hi;
    injection Hi as <-; try discriminate Hexec.
  reflexivity.
Qed.

Lemma executeSequence_keeps_results_consistent_witness :
  results_consistent
    (fst (executeSequence nat Sample.second_fails Sample.encode
            Sample.serialize Sample.type_error Sample2.after_first_step
            0%nat)).
Proof.
  apply (executeSequence_keeps_results_consistent nat Sample.second_fails
           Sample.encode Sample.serialize Sample.type_error
           Sample2.after_first_step 0%nat).
  - unfold ids. simpl. apply (bool_decide_unpack _). vm_compute. exact I.
  - exact after_first_step_consistent.
Defined.

Lemma getAvailableVariables_resolve_witness :
  exists variables,
    getAvailableVariables Sample2.after_first_step 2 = Ok variables
    /\ Forall (fun v : AvailableVariable =>
                 resolveVariable (sequenceResults Sample2.after_first_step)
                   (variable_path v)
                 = shown_or_null (example v)) variables.
Proof.
  apply (getAvailableVariables_resolve Sample2.after_first_step 2).
  - simpl. lia.
  - intros j item Hj.
    destruct j as [|[|[|j]]]; try discriminate Hj;
      injection Hj as <-; reflexivity.
  - exact after_first_step_consistent.
Defined.

(** The two paths offered to the second of [Sample.three_steps] and
    what they stand for. *)
Example getAvailableVariables_after_first_step :
  match getAvailableVariables Sample2.after_first_step 1 with
  | Ok variables =>
      map (fun v => (variable_path v, example v)) variables
      = [("seq_1_a.data[0].gid", JStr "101");
         ("seq_1_a.data[0].name", JStr "first")]
  | Throw _ => False
  end.
Proof. reflexivity. Qed.

(** ** Tables through export and import *)

Section TableExtras.

Variable source target : list SequenceItem.
Variable currentStepIndex : nat.

Lemma endsWith_append (p s : string) : Str.endsWith p (s +:+ p) = true.
Proof.
  induction s as [|a s IH].
  - destruct p; cbn [String.append Str.endsWith];
      now rewrite String.eqb_refl.
  - cbn [String.append Str.endsWith]. rewrite IH. apply orb_true_r.
Qed.

Lemma braced_ends (x : string) :
  Str.endsWith "}}" ("{{" +:+ x +:+ "}}") = true.
Proof.
  rewrite <- append_assoc. apply endsWith_append.
Qed.

Lemma braced_slice (x : string) : slice_2_m2 ("{{" +:+ x +:+ "}}") = x.
Proof.
  unfold slice_2_m2. cbn [String.append Str.drop].
  change (x +:+ "}}") with (x +:+ ("}" +:+ "}")).
  rewrite <- append_assoc. now rewrite !drop_last_append.
Qed.

Lemma unwrap_braced (key x : string) :
  (if Str.startsWith "{{" ("{{" +:+ x +:+ "}}")
      && Str.endsWith "}}" ("{{" +:+ x +:+ "}}")
   then @Ok (string * jsvalue) (key, JStr (slice_2_m2 ("{{" +:+ x +:+ "}}")))
   else Ok (key, JStr ("{{" +:+ x +:+ "}}")))
  = Ok (key, JStr x).
Proof.
  rewrite braced_ends, braced_slice. reflexivity.
Qed.

Lemma rebase_text (l : list chunk) :
  forallb (chunk_ok source currentStepIndex) l = true ->
  replace_global (runtime_replacement target currentStepIndex) 0
    (replace_global (stable_replacement source currentStepIndex) 0
       (render_chunks l))
  = rebase_chunks source target l.
Proof.
  intros H. rewrite (toStable_chunks source currentStepIndex l H).
  destruct (render_stable_as_schunks source currentStepIndex l H)
    as [-> Hformed].
  now rewrite toRuntime_general,
    (runtime_forms_rebase source target currentStepIndex).
Qed.

Lemma export_string (key s : string) :
  (if truthy (JStr s)
   then (key, convertVariableToStepReference source (JStr s) currentStepIndex)
   else (key, JStr s))
  = (key, JStr (replace_global
                  (stable_replacement source currentStepIndex) 0 s)).
Proof. destruct s; reflexivity. Qed.

Lemma import_string (key s : string) :
  (if truthy (JStr s)
   then (key, convertStepReferenceToVariable target (JStr s) currentStepIndex)
   else (key, JStr s))
  = (key, JStr (replace_global
                  (runtime_replacement target currentStepIndex) 0 s)).
Proof. destruct s; reflexivity. Qed.

Lemma table_export_import (entries : list (string * list chunk)) :
  table_ok source currentStepIndex entries = true ->
  convert_table target
    (export_table source (expression_table entries) currentStepIndex)
    currentStepIndex
  = rebased_table source target entries.
Proof.
  unfold table_ok. intros H.
  unfold convert_table, export_table, expression_table, rebased_table.
  cbn [own_entries]. f_equal.
  induction entries as [|[key l] entries IH]; [reflexivity|].
  cbn [forallb snd] in H. apply andb_true_iff in H as [Hl Hrest].
  cbn [map fst snd]. rewrite (IH Hrest). f_equal.
  rewrite export_string. cbn [fst snd]. rewrite import_string.
  now rewrite rebase_text.
Qed.

Lemma body_export_import (l : list chunk) :
  forallb (chunk_ok source currentStepIndex) l = true ->
  let exported :=
    convertVariableToStepReference source (JStr (render_chunks l))
      currentStepIndex in
  (if truthy exported
   then convertStepReferenceToVariable target exported currentStepIndex
   else exported)
  = JStr (rebase_chunks source target l).
Proof.
  intros H. cbn zeta. unfold convertVariableToStepReference.
  rewrite <- (rebase_text l H).
  destruct (replace_global (stable_replacement source currentStepIndex) 0
              (render_chunks l)); reflexivity.
Qed.

Lemma parameters_export
    (pathEntries queryEntries : list (string * list chunk))
    (body : option (list chunk)) :
  convertParametersForExport source
    (JObj [("path", expression_table pathEntries);
           ("query", expression_table queryEntries);
           ("body", body_value body)]) currentStepIndex
  = Ok (exported_parameters source currentStepIndex pathEntries queryEntries
        body).
Proof.
  change (convertParametersForExport source
            (JObj [("path", expression_table pathEntries);
                   ("query", expression_table queryEntries);
                   ("body", body_value body)]) currentStepIndex)
    with (try body' <- (if truthy (body_value body)
                        then match body_value body with
                             | JStr _ =>
                                 Ok (convertVariableToStepReference source
                                       (body_value body) currentStepIndex)
                             | _ => Throw (TypeError "original.substring")
                             end
                        else Ok (body_value body)) ;
          Ok (JObj [("path",
                     export_table source (expression_table pathEntries)
                       currentStepIndex);
                    ("query",
                     export_table source (expression_table queryEntries)
                       currentStepIndex);
                    ("body", body')])).
  unfold exported_parameters.
  destruct body as [l|]; [|reflexivity].
  cbn [body_value]. destruct (render_chunks l); reflexivity.
Qed.

Lemma parameters_import
    (pathEntries queryEntries : list (string * list chunk))
    (body : option (list chunk)) :
  table_ok source currentStepIndex pathEntries = true ->
  table_ok source currentStepIndex queryEntries = true ->
  body_ok source currentStepIndex body = true ->
  convertParametersForImport target
    (exported_parameters source currentStepIndex pathEntries queryEntries
       body) currentStepIndex
  = JObj [("path", rebased_table source target pathEntries);
          ("query", rebased_table source target queryEntries);
          ("body", rebased_body source target body)].
Proof.
  intros Hpath Hquery Hbody. unfold exported_parameters.
  change (convertParametersForImport target
            (JObj [("path", ?p); ("query", ?q); ("body", ?b)])
            currentStepIndex)
    with (JObj [("path", convert_table target p currentStepIndex);
                ("query", convert_table target q currentStepIndex);
                ("body",
                 if truthy b
                 then convertStepReferenceToVariable target b
                        currentStepIndex
                 else b)]).
  rewrite !table_export_import by assumption.
  destruct body as [l|]; [|reflexivity].
  cbn [body_value rebased_body].
  now rewrite (body_export_import l Hbody).
Qed.

(** The parameters of a step, exported from one sequence and imported
    into another at the same position: the export succeeds, and the
    import gives the same path table, query table and body with every
    backward reference pointing at the step that stands, in the other
    sequence, where the referenced step stood. *)
Theorem parameters_export_then_import
    (pathEntries queryEntries : list (string * list chunk))
    (body : option (list chunk)) :
  table_ok source currentStepIndex pathEntries = true ->
  table_ok source currentStepIndex queryEntries = true ->
  body_ok source currentStepIndex body = true ->
  exists exported,
    convertParametersForExport source
      (JObj [("path", expression_table pathEntries);
             ("query", expression_table queryEntries);
             ("body", body_value body)]) currentStepIndex
    = Ok exported
    /\ convertParametersForImport target exported currentStepIndex
       = JObj [("path", rebased_table source target pathEntries);
               ("query", rebased_table source target queryEntries);
               ("body", rebased_body source target body)].
Proof.
  intros Hpath Hquery Hbody.
  exists (exported_parameters source currentStepIndex pathEntries
            queryEntries body).
  split; [apply parameters_export|now apply parameters_import].
Qed.

Lemma export_mapping_reference (key run p : string) :
  chunk_ok source currentStepIndex (Ref run p) = true ->
  exists stepIndex,
    findIndex (runtime_id run) source = Some stepIndex
    /\ (stepIndex <? currentStepIndex)%nat = true
    /\ export_mapping source currentStepIndex
         (key, JStr (mapping_text (run, p)))
       = Ok (key, JStr ("step" +:+ Str.of_nat stepIndex +:+ "." +:+ p)).
Proof.
  intros Hok. pose proof Hok as Hok'. simpl chunk_ok in Hok'.
  apply andb_true_iff in Hok' as [_ Hk].
  destruct (findIndex (runtime_id run) source) as [k|] eqn:Hfind;
    [|discriminate].
  exists k. split; [reflexivity|]. split; [exact Hk|].
  assert (Hraw : mapping_text (run, p) = "seq_" +:+ (run +:+ "." +:+ p)).
  { unfold mapping_text, runtime_id. cbn [fst snd]. apply append_assoc. }
  rewrite Hraw. unfold export_mapping.
  change (truthy (JStr ("seq_" +:+ (run +:+ "." +:+ p)))) with true.
  change (Str.startsWith "{{" ("seq_" +:+ (run +:+ "." +:+ p))) with false.
  cbv iota.
  replace ("{{" +:+ ("seq_" +:+ (run +:+ "." +:+ p)) +:+ "}}")
    with (render_chunks [Ref run p]).
  2:{ cbn [render_chunks render_chunk]. unfold runtime_id.
      now rewrite append_nil_r, !append_assoc. }
  unfold convertVariableToStepReference.
  rewrite (toStable_chunks source currentStepIndex [Ref run p])
    by (cbn [forallb]; now rewrite Hok).
  cbn [render_stable render_stable_chunk]. rewrite Hfind, append_nil_r.
  replace ("{{step" +:+ Str.of_nat k +:+ "." +:+ p +:+ "}}")
    with ("{{" +:+ ("step" +:+ Str.of_nat k +:+ "." +:+ p) +:+ "}}")
    by (now rewrite !append_assoc).
  apply unwrap_braced.
Qed.

Lemma import_mapping_reference (key p : string) (stepIndex : nat) :
  Str.all is_path_char p = true ->
  (stepIndex <? currentStepIndex)%nat = true ->
  convert_mapping target currentStepIndex
    (key, JStr ("step" +:+ Str.of_nat stepIndex +:+ "." +:+ p))
  = Ok (key,
        JStr (match target !! stepIndex with
              | Some referencedItem => id referencedItem +:+ "." +:+ p
              | None => "step" +:+ Str.of_nat stepIndex +:+ "." +:+ p
              end)).
Proof.
  intros Hp Hk. unfold convert_mapping.
  change (truthy (JStr ("step" +:+ Str.of_nat stepIndex +:+ "." +:+ p)))
    with true.
  change (Str.startsWith "{{" ("step" +:+ Str.of_nat stepIndex +:+ "." +:+ p))
    with false.
  cbv iota.
  replace ("{{" +:+ ("step" +:+ Str.of_nat stepIndex +:+ "." +:+ p) +:+ "}}")
    with (render_schunks [SRef (Str.of_nat stepIndex) p]).
  2:{ cbn [render_schunks render_schunk]. unfold render_stable_ref.
      now rewrite append_nil_r, !append_assoc. }
  unfold convertStepReferenceToVariable.
  rewrite toRuntime_general.
  2:{ cbn [forallb schunk_formed].
      now rewrite of_nat_nonempty, of_nat_digits, Hp. }
  cbn [runtime_forms runtime_form]. rewrite append_nil_r.
  rewrite nat_of_digits_of_nat, Hk.
  destruct (target !! stepIndex) as [referencedItem|].
  - replace ("{{" +:+ id referencedItem +:+ "." +:+ p +:+ "}}")
      with ("{{" +:+ (id referencedItem +:+ "." +:+ p) +:+ "}}")
      by (now rewrite !append_assoc).
    apply unwrap_braced.
  - cbn [render_schunk]. unfold render_stable_ref.
    replace ("{{step" +:+ Str.of_nat stepIndex +:+ "." +:+ p +:+ "}}")
      with ("{{" +:+ ("step" +:+ Str.of_nat stepIndex +:+ "." +:+ p) +:+ "}}").
    2:{ now rewrite !append_assoc. }
    apply unwrap_braced.
Qed.

Lemma mappings_export_import (entries : list (string * (string * string))) :
  mappings_ok source currentStepIndex entries = true ->
  exists exported,
    export_mappings source currentStepIndex
      (map (fun kv : string * (string * string) =>
              (fst kv, JStr (mapping_text (snd kv)))) entries)
    = Ok exported
    /\ convert_mappings target currentStepIndex exported
       = Ok (map (fun kv : string * (string * string) =>
                    (fst kv, JStr (rebased_mapping source target (snd kv))))
                 entries).
Proof.
  unfold mappings_ok.
  induction entries as [|[key [run p]] entries IH]; intros H.
  - now exists [].
  - cbn [forallb fst snd] in H. apply andb_true_iff in H as [Hok Hrest].
    destruct (IH Hrest) as (rest & Hexport & Himport).
    destruct (export_mapping_reference key run p Hok)
      as (k & Hfind & Hk & Hone).
    exists ((key, JStr ("step" +:+ Str.of_nat k +:+ "." +:+ p)) :: rest).
    cbn [map fst snd export_mappings]. rewrite Hone. cbn [bind].
    rewrite Hexport. cbn [bind]. split; [reflexivity|].
    cbn [convert_mappings]. rewrite import_mapping_reference.
    + cbn [bind]. rewrite Himport. cbn [bind].
      unfold rebased_mapping. cbn [fst snd]. now rewrite Hfind.
    + simpl chunk_ok in Hok.
      now apply andb_true_iff in Hok as [[_ Hp]%andb_true_iff _].
    + exact Hk.
Qed.

(** The variable mappings of a step, exported from one sequence and
    imported into another at the same position: the export succeeds,
    and the import gives the same table with every mapping naming the
    step that stands, in the other sequence, where the mapped step
    stood. *)
Theorem mappings_export_then_import
    (entries : list (string * (string * string))) :
  mappings_ok source currentStepIndex entries = true ->
  exists exported,
    convertVariableMappingsForExport source (mapping_table entries)
      currentStepIndex
    = Ok exported
    /\ convertVariableMappingsForImport target exported currentStepIndex
       = Ok (rebased_mappings source target entries).
Proof.
  intros H. destruct (mappings_export_import entries H)
    as (exported & Hexport & Himport).
  exists (JObj exported).
  unfold convertVariableMappingsForExport, convertVariableMappingsForImport,
    mapping_table, rebased_mappings.
  cbn [own_entries]. rewrite Hexport. cbn [bind].
  split; [reflexivity|]. now rewrite Himport.
Qed.

End TableExtras.

Lemma parameters_export_then_import_witness :
  exists exported,
    convertParametersForExport Sample.three_steps
      (JObj [("path",
              expression_table [("project_gid", [Ref "2_b" "data[1].gid"])]);
             ("query",
              expression_table [("limit", [Text "10"]);
                                ("workspace", [Ref "1_a" "data[0].gid"])]);
             ("body",
              body_value (Some [Text "{'owner': '";
                                Ref "1_a" "data[0].name"; Text "'}"]))]) 2
    = Ok exported
    /\ convertParametersForImport Sample2.later_session exported 2
       = JObj [("path",
                rebased_table Sample.three_steps Sample2.later_session
                  [("project_gid", [Ref "2_b" "data[1].gid"])]);
               ("query",
                rebased_table Sample.three_steps Sample2.later_session
                  [("limit", [Text "10"]);
                   ("workspace", [Ref "1_a" "data[0].gid"])]);
               ("body",
                rebased_body Sample.three_steps Sample2.later_session
                  (Some [Text "{'owner': '"; Ref "1_a" "data[0].name";
                         Text "'}"]))].
Proof.
  apply (parameters_export_then_import Sample.three_steps
           Sample2.later_session 2
           [("project_gid", [Ref "2_b" "data[1].gid"])]
           [("limit", [Text "10"]); ("workspace", [Ref "1_a" "data[0].gid"])]
           (Some [Text "{'owner': '"; Ref "1_a" "data[0].name"; Text "'}"])).
  - reflexivity.
  - reflexivity.
  - reflexivity.
Defined.

Lemma mappings_export_then_import_witness :
  exists exported,
    convertVariableMappingsForExport Sample.three_steps
      (mapping_table [("project_gid", ("2_b", "data[1].gid"));
                      ("workspace", ("1_a", "data[0].gid"))]) 2
    = Ok exported
    /\ convertVariableMappingsForImport Sample2.later_session exported 2
       = Ok (rebased_mappings Sample.three_steps Sample2.later_session
               [("project_gid", ("2_b", "data[1].gid"));
                ("workspace", ("1_a", "data[0].gid"))]).
Proof.
  apply (mappings_export_then_import Sample.three_steps Sample2.later_session
           2 [("project_gid", ("2_b", "data[1].gid"));
              ("workspace", ("1_a", "data[0].gid"))]).
  reflexivity.
Defined.

(** The mappings of the third of [Sample.three_steps] in the exported
    file and after the import into [Sample2.later_session]. *)
Example mappings_through_a_file :
  convertVariableMappingsForExport Sample.three_steps
    (JObj [("project_gid", JStr "seq_2_b.data[1].gid")]) 2
  = Ok (JObj [("project_gid", JStr "step1.data[1].gid")])
  /\ convertVariableMappingsForImport Sample2.later_session
       (JObj [("project_gid", JStr "step1.data[1].gid")]) 2
     = Ok (JObj [("project_gid", JStr "seq_8_y.data[1].gid")]).
Proof. split; reflexivity. Qed.

(** ** Editing and replacing the sequence *)

Section EditExtras.

Implicit Types (st : State) (item : SequenceItem).




End EditExtras.

Section ImportExtras.

Variable endpoints : list Endpoint.
Variable newId : nat -> string.
Variable confirmed : bool.
Variable typeErrorMessage : string -> string.

Implicit Types (st : State) (l : list SequenceItem).

Lemma unexecuted_alter (f : SequenceItem -> SequenceItem) i l :
  (forall item, unexecuted item -> unexecuted (f item)) ->
  Forall unexecuted l -> Forall unexecuted (alter f i l).
Proof.
  intros Hf Hl. revert i.
  induction Hl as [|x l Hx Hl IH]; intros [|i]; [constructor..| |].
  - change (alter f 0 (x :: l)) with (f x :: l).
    constructor; [now apply Hf|exact Hl].
  - change (alter f (S i) (x :: l)) with (x :: alter f i l).
    constructor; [exact Hx|apply IH].
Qed.

Lemma import_entry_unexecuted l index importItem :
  Forall unexecuted l ->
  Forall unexecuted (fst (import_entry endpoints newId l index importItem)).
Proof.
  intros Hl. unfold import_entry.
  assert (Hpushed : forall item,
            unexecuted item -> Forall unexecuted (l ++ [item])%list).
  { intros item Hitem. apply Forall_app. split; [exact Hl|].
    now constructor. }
  destruct (find_endpoint endpoints importItem) as [[ep|]|e]; cbn [fst].
  - assert (H1 : Forall unexecuted
                   (alter
                      (set_parameters
                         (convertParametersForImport
                            (l ++ [new_item newId index ep empty_parameters
                                     (JObj []) false])%list
                            (or_else (js_get importItem "parameters")
                               empty_parameters)
                            (List.length
                               (l ++ [new_item newId index ep
                                        empty_parameters (JObj []) false])%list
                             - 1)))
                      (List.length
                         (l ++ [new_item newId index ep empty_parameters
                                  (JObj []) false])%list - 1)
                      (l ++ [new_item newId index ep empty_parameters
                               (JObj []) false])%list)).
    { apply unexecuted_alter; [now intros item H|].
      apply Hpushed. now repeat split. }
    destruct (convertVariableMappingsForImport _ _ _) as [mappings|e];
      cbn [fst]; [|exact H1].
    apply unexecuted_alter; [now intros item H|exact H1].
  - destruct (nullish importItem); cbn [fst]; [exact Hl|].
    apply Hpushed. now repeat split.
  - exact Hl.
Qed.

Lemma import_entries_unexecuted entries : forall l loaded skippedN index,
  Forall unexecuted l ->
  Forall unexecuted
    (fst (fst (import_entries endpoints newId l loaded skippedN index
                 entries))).
Proof.
  induction entries as [|importItem entries IH];
    intros l loaded skippedN index Hl; cbn [import_entries]; [exact Hl|].
  pose proof (import_entry_unexecuted l index importItem Hl) as H1.
  destruct (import_entry endpoints newId l index importItem) as [l' []];
    now apply IH.
Qed.

(** An import never mixes old results with new steps: the session is
    either left exactly as it was, or its store of results is empty
    and every step of the new sequence is unexecuted, without result
    and without error. *)
Theorem loadSequenceFromData_starts_afresh importData st :
  let st' :=
    after (loadSequenceFromData endpoints newId confirmed typeErrorMessage
             importData st) in
  st' = st
  \/ (sequenceResults st' = ∅ /\ Forall unexecuted (apiSequence st')).
Proof.
  cbv zeta. unfold loadSequenceFromData.
  destruct (nullish importData); [now left|].
  destruct (js_get importData "sequence") as [| | | | |entries|];
    try (now left).
  destruct (negb (List.length (apiSequence st) =? 0)%nat && negb confirmed);
    [now left|].
  pose proof (import_entries_unexecuted entries [] 0 0 0
                (List.Forall_nil unexecuted)) as H.
  destruct (import_entries endpoints newId [] 0 0 0 entries)
    as [[l loaded] skippedN].
  cbn [fst] in H. right.
  destruct (0 <? loaded)%nat; cbn [after]; split; (reflexivity || exact H).
Qed.

End ImportExtras.

(** ** A sequence through export and import *)

Section SequenceExtras.

Variable endpoints : list Endpoint.
Variable newId : nat -> string.
Variable confirmed : bool.
Variable typeErrorMessage : string -> string.
Variable source : list SequenceItem.

Implicit Types (acc t : list SequenceItem) (plan : StepPlan).

Lemma rebase_chunks_agree t t' index (l : list chunk) :
  forallb (chunk_ok source index) l = true ->
  (forall k, (k < index)%nat -> t !! k = t' !! k) ->
  rebase_chunks source t l = rebase_chunks source t' l.
Proof.
  intros Hl Hagree. induction l as [|c l IH]; [reflexivity|].
  cbn [forallb] in Hl. apply andb_true_iff in Hl as [Hc Hl].
  cbn [rebase_chunks]. rewrite (IH Hl). f_equal.
  destruct c as [text|run p]; [reflexivity|].
  simpl chunk_ok in Hc. apply andb_true_iff in Hc as [_ Hk].
  unfold rebase_chunk.
  destruct (findIndex (runtime_id run) source) as [k|]; [|discriminate].
  apply Nat.ltb_lt in Hk. now rewrite (Hagree k Hk).
Qed.

Lemma rebased_table_agree t t' index (entries : list (string * list chunk)) :
  table_ok source index entries = true ->
  (forall k, (k < index)%nat -> t !! k = t' !! k) ->
  rebased_table source t entries = rebased_table source t' entries.
Proof.
  unfold table_ok, rebased_table. intros H Hagree. f_equal.
  induction entries as [|[key l] entries IH]; [reflexivity|].
  cbn [forallb snd] in H. apply andb_true_iff in H as [Hl Hrest].
  cbn [map fst snd]. rewrite (IH Hrest).
  now rewrite (rebase_chunks_agree t t' index l).
Qed.

Lemma rebased_mappings_agree t t' index
    (entries : list (string * (string * string))) :
  mappings_ok source index entries = true ->
  (forall k, (k < index)%nat -> t !! k = t' !! k) ->
  rebased_mappings source t entries = rebased_mappings source t' entries.
Proof.
  unfold mappings_ok, rebased_mappings. intros H Hagree. f_equal.
  induction entries as [|[key [run p]] entries IH]; [reflexivity|].
  cbn [forallb fst snd] in H. apply andb_true_iff in H as [Hc Hrest].
  cbn [map fst snd]. rewrite (IH Hrest). do 3 f_equal.
  simpl chunk_ok in Hc. apply andb_true_iff in Hc as [_ Hk].
  unfold rebased_mapping. cbn [fst snd].
  destruct (findIndex (runtime_id run) source) as [k|]; [|discriminate].
  apply Nat.ltb_lt in Hk. now rewrite (Hagree k Hk).
Qed.

Lemma rebased_parameters_agree t t' index plan :
  plan_ok source index plan = true ->
  (forall k, (k < index)%nat -> t !! k = t' !! k) ->
  rebased_parameters source t plan = rebased_parameters source t' plan
  /\ rebased_mappings source t (plan_mappings plan)
     = rebased_mappings source t' (plan_mappings plan).
Proof.
  unfold plan_ok.
  intros [[[Hp Hq]%andb_true_iff Hb]%andb_true_iff Hm]%andb_true_iff Hagree.
  split; [|now apply (rebased_mappings_agree t t' index)].
  unfold rebased_parameters.
  rewrite (rebased_table_agree t t' index (plan_path plan)) by assumption.
  rewrite (rebased_table_agree t t' index (plan_query plan)) by assumption.
  do 4 f_equal. destruct (plan_body plan) as [l|]; [|reflexivity].
  cbn [rebased_body body_ok] in *.
  now rewrite (rebase_chunks_agree t t' index l).
Qed.

Lemma find_endpoint_found importItem ep :
  nullish importItem = false ->
  List.find (fun e => strict_eq (method e) (js_get importItem "method")
                      && strict_eq (path e) (js_get importItem "path"))
    endpoints = Some ep ->
  find_endpoint endpoints importItem = Ok (Some ep).
Proof.
  intros Hnull Hfind. unfold find_endpoint.
  destruct endpoints; [discriminate Hfind|]. now rewrite Hnull, Hfind.
Qed.

Lemma last_index acc (x : SequenceItem) :
  (List.length (acc ++ [x])%list - 1)%nat = List.length acc.
Proof. rewrite length_app. simpl. lia. Qed.

Lemma alter_at_end (f : SequenceItem -> SequenceItem) acc x :
  alter f (List.length acc) (acc ++ [x])%list = (acc ++ [f x])%list.
Proof. induction acc as [|y acc IH]; cbn; [reflexivity|]. now f_equal. Qed.

Lemma lookup_pushed acc (x : SequenceItem) k :
  (k < List.length acc)%nat -> (acc ++ [x])%list !! k = acc !! k.
Proof. intros Hk. now apply lookup_app_l. Qed.

(** One step through the file: the entry written for it, and the item
    the import makes of that entry. *)
Lemma import_planned_entry acc item plan :
  follows_plan endpoints source (List.length acc) item plan ->
  exists entry,
    export_entry source (List.length acc) item = Ok entry
    /\ import_entry endpoints newId acc (List.length acc) entry
       = ((acc ++ [new_item newId (List.length acc) (endpoint item)
                     (rebased_parameters source acc plan)
                     (rebased_mappings source acc (plan_mappings plan))
                     false])%list,
          true).
Proof.
  intros (Hp & Hm & Hok & Hfind).
  pose proof Hok as Hok'. unfold plan_ok in Hok'.
  apply andb_true_iff in Hok' as [[[Hpath Hquery]%andb_true_iff
                                     Hbody]%andb_true_iff Hmaps].
  set (index := List.length acc) in *.
  destruct (mappings_export_import source acc index (plan_mappings plan)
              Hmaps) as (ms & Hexport & _).
  set (ps := exported_parameters source index (plan_path plan)
               (plan_query plan) (plan_body plan)).
  exists (JObj [("method", method (endpoint item));
                ("path", path (endpoint item));
                ("summary", summary (endpoint item));
                ("description", description (endpoint item));
                ("tags", tags (endpoint item));
                ("parameters", ps);
                ("variableMappings", JObj ms)]).
  split.
  - unfold export_entry. rewrite Hp, Hm. unfold planned_parameters.
    rewrite parameters_export. cbn [bind].
    unfold convertVariableMappingsForExport, mapping_table.
    cbn [own_entries]. rewrite Hexport. reflexivity.
  - unfold import_entry.
    match goal with
    | |- context [find_endpoint endpoints ?e] =>
        rewrite (find_endpoint_found e (endpoint item) eq_refl Hfind)
    end.
    cbv zeta.
    set (it0 := new_item newId index (endpoint item) empty_parameters
                  (JObj []) false).
    change (or_else (js_get (JObj _) "parameters") empty_parameters) with ps.
    change (or_else (js_get (JObj _) "variableMappings") (JObj []))
      with (JObj ms).
    rewrite alter_last, !last_index. fold index. unfold ps.
    rewrite (parameters_import source (acc ++ [it0])%list index)
      by assumption.
    fold (rebased_parameters source (acc ++ [it0])%list plan).
    set (pushed := (acc ++ [set_parameters _ it0])%list).
    destruct (mappings_export_import source pushed index (plan_mappings plan)
                Hmaps) as (ms' & Hexport' & Himport).
    assert (ms' = ms) as -> by congruence.
    unfold convertVariableMappingsForImport. cbn [own_entries].
    rewrite Himport. cbn [bind]. unfold pushed at 2.
    rewrite (alter_at_end _ acc).
    fold (rebased_mappings source pushed (plan_mappings plan)).
    destruct (rebased_parameters_agree (acc ++ [it0])%list acc index plan Hok)
      as [-> _]; [intros k Hk; now apply lookup_pushed|].
    destruct (rebased_parameters_agree pushed acc index plan Hok)
      as [_ ->]; [intros k Hk; now apply lookup_pushed|].
    reflexivity.
Qed.

Lemma round_trip_from (items : list SequenceItem) :
  forall plans acc loaded skippedN,
  follow_plans endpoints source (List.length acc) items plans ->
  exists exported imported,
    export_entries source (List.length acc) items = Ok exported
    /\ import_entries endpoints newId acc loaded skippedN (List.length acc)
         exported
       = ((acc ++ imported)%list, (loaded + List.length items)%nat, skippedN)
    /\ imported
       = planned_items newId source (acc ++ imported)%list (List.length acc)
           items plans.
Proof.
  induction items as [|item items IH]; intros [|plan plans] acc loaded
    skippedN Hf; try contradiction.
  - exists [], []. cbn. rewrite app_nil_r, Nat.add_0_r. now repeat split.
  - cbn [follow_plans] in Hf. destruct Hf as [Hone Hrest].
    destruct (import_planned_entry acc item plan Hone)
      as (entry & Hexport & Himport).
    set (item' := new_item newId (List.length acc) (endpoint item)
                    (rebased_parameters source acc plan)
                    (rebased_mappings source acc (plan_mappings plan))
                    false) in *.
    assert (Hlen : List.length (acc ++ [item'])%list = S (List.length acc)).
    { rewrite length_app. simpl. lia. }
    rewrite <- Hlen in Hrest.
    destruct (IH plans (acc ++ [item'])%list (S loaded) skippedN Hrest)
      as (exported & imported & Hexports & Himports & Hplanned).
    rewrite Hlen in Hexports, Himports, Hplanned, Hrest.
    exists (entry :: exported), (item' :: imported).
    cbn [export_entries import_entries].
    rewrite Hexport. cbn [bind]. rewrite Hexports. cbn [bind].
    rewrite Himport, Himports. rewrite <- app_assoc. cbn [List.app].
    split; [reflexivity|]. split; [do 2 f_equal; simpl; lia|].
    cbn [planned_items]. rewrite <- app_assoc in Hplanned.
    cbn [List.app] in Hplanned. rewrite <- Hplanned. f_equal.
    destruct Hone as (_ & _ & Hok & _).
    destruct (rebased_parameters_agree (acc ++ item' :: imported)%list acc
                (List.length acc) plan Hok) as [-> ->];
      [|reflexivity].
    intros k Hk. now apply lookup_app_l.
Qed.

(** A sequence is restored from its own export file.  For a sequence
    whose steps have catalog endpoints and refer to earlier steps only,
    [exportSequence] writes an entry for every step, and
    [loadSequenceFromData] on a file with these entries loads them all
    and skips none: the new sequence has the same steps in the same
    order under new ids, each with its endpoint, nothing executed, and
    its parameters and mappings with every reference pointing at the
    new id of the step it pointed at. *)
Theorem export_then_import_restores_sequence plans importData st :
  follow_plans endpoints source 0 source plans ->
  nullish importData = false ->
  (List.length (apiSequence st) =? 0)%nat || confirmed = true ->
  exists exported,
    export_entries source 0 source = Ok exported
    /\ (js_get importData "sequence" = JArr exported ->
        let out :=
          loadSequenceFromData endpoints newId confirmed typeErrorMessage
            importData st in
        loadedCount out = List.length source
        /\ skippedCount out = 0%nat
        /\ sequenceResults (after out) = ∅
        /\ apiSequence (after out)
           = planned_items newId source (apiSequence (after out)) 0 source
               plans).
Proof.
  intros Hf Hnull Hgo.
  destruct (round_trip_from source plans [] 0 0 Hf)
    as (exported & imported & Hexport & Himport & Hplanned).
  exists exported. split; [exact Hexport|].
  intros Hsequence. cbv zeta. unfold loadSequenceFromData.
  rewrite Hnull, Hsequence.
  assert (Hproceed : negb (List.length (apiSequence st) =? 0)%nat
                     && negb confirmed = false).
  { destruct (List.length (apiSequence st) =? 0)%nat; [reflexivity|].
    cbn in Hgo. now rewrite Hgo. }
  rewrite Hproceed. cbn [List.length] in Himport. rewrite Himport.
  cbn [List.app Nat.add] in *.
  destruct (0 <? List.length source)%nat;
    cbn [after loadedCount skippedCount with_sequence clearSequence
         apiSequence sequenceResults];
    (split; [reflexivity|]; split; [reflexivity|]; split; [reflexivity|];
     exact Hplanned).
Qed.

End SequenceExtras.

Lemma export_then_import_restores_sequence_witness :
  exists exported,
    export_entries Sample.three_steps 0 Sample.three_steps = Ok exported
    /\ (js_get Sample3.three_steps_file "sequence" = JArr exported ->
        let out :=
          loadSequenceFromData Sample3.full_catalog Sample.new_id true
            Sample.type_error Sample3.three_steps_file
            (Sample.session Sample.three_steps) in
        loadedCount out = List.length Sample.three_steps
        /\ skippedCount out = 0%nat
        /\ sequenceResults (after out) = ∅
        /\ apiSequence (after out)
           = planned_items Sample.new_id Sample.three_steps
               (apiSequence (after out)) 0 Sample.three_steps
               Sample3.three_plans).
Proof.
  apply (export_then_import_restores_sequence Sample3.full_catalog
           Sample.new_id true Sample.type_error Sample.three_steps
           Sample3.three_plans Sample3.three_steps_file
           (Sample.session Sample.three_steps)).
  - cbn [follow_plans Sample.three_steps Sample3.three_plans].
    unfold follows_plan.
    repeat match goal with
           | |- _ /\ _ => split
           | |- True => exact I
           | |- _ = _ => vm_compute; reflexivity
           end.
  - reflexivity.
  - reflexivity.
Defined.

(** [Sample.three_steps] written to a file and loaded again: the
    mappings name the new ids. *)
Example three_steps_restored :
  let out :=
    loadSequenceFromData Sample3.full_catalog Sample.new_id true
      Sample.type_error Sample3.three_steps_file
      (Sample.session Sample.three_steps) in
  map (fun item => (id item, path (endpoint item), variableMappings item))
      (apiSequence (after out))
  = [("seq_0", JStr "/workspaces", JObj []);
     ("seq_1", JStr "/workspaces/{workspace_gid}/projects",
      JObj [("workspace_gid", JStr "seq_0.data[0].gid")]);
     ("seq_2", JStr "/projects/{project_gid}",
      JObj [("project_gid", JStr "seq_1.data[1].gid")])].
Proof. vm_compute. reflexivity. Qed.

(** ** Flattening *)

Section FlattenExtras.

Implicit Types (l acc : list (string * jsvalue)) (v : jsvalue).

Lemma assign_flat key v l :
  is_container v = false ->
  ordered_record l -> flat_record (assign key v l).
Proof. intros Hv Hl. now apply ordered_flat, assign_ordered. Qed.

Lemma empty_ordered : ordered_record [].
Proof. split; [exact I|constructor]. Qed.

Lemma marker_ordered (key : string) (v : jsvalue) :
  is_container v = false -> ordered_record [(key, v)].
Proof.
  intros Hv. split.
  - split; [constructor|exact I].
  - now repeat constructor.
Qed.

(** The three levels of a call with the default depths. *)
Lemma flattenRecord_ordered record : ordered_record (flattenRecord record).
Proof.
  unfold flattenRecord, flattenObject. cbn [Nat.sub flatten_levels].
  apply flatten_entries_ordered; [|apply empty_ordered]. intros v1 p1.
  apply flatten_entries_ordered; [|apply empty_ordered]. intros v2 p2.
  apply flatten_entries_ordered; [|apply empty_ordered]. intros v3 p3.
  now constructor.
Qed.

Lemma flattenRecord_flat record : flat_record (flattenRecord record).
Proof. apply ordered_flat, flattenRecord_ordered. Qed.

(** Whatever is flattened, the outcome is a flat record: the column
    names are distinct and no cell holds an object or an array. *)
Theorem flattenObject_gives_flat_record obj prefix maxDepth currentDepth :
  flat_record (flattenObject obj prefix maxDepth currentDepth).
Proof.
  unfold flattenObject. generalize (maxDepth - currentDepth)%nat as levels.
  intros levels. apply ordered_flat. revert obj prefix.
  induction levels as [|levels IH]; intros obj prefix.
  - now apply marker_ordered.
  - cbn [flatten_levels].
    apply flatten_entries_ordered; [|apply empty_ordered].
    intros v p. apply IH.
Qed.

Lemma flatten_flat_entries
    (recur : jsvalue -> string -> list (string * jsvalue)) l : forall acc,
  listed (map fst (acc ++ l)%list) ->
  Forall (fun kv : string * jsvalue => is_container (snd kv) = false) l ->
  fold_left (flatten_property recur "") l acc = (acc ++ l)%list.
Proof.
  induction l as [|[key value] l IH]; intros acc Hkeys Hcells.
  - now rewrite app_nil_r.
  - apply Forall_cons in Hcells as [Hvalue Hcells]. cbn [snd] in Hvalue.
    cbn [fold_left].
    replace (acc ++ (key, value) :: l)%list
      with ((acc ++ [(key, value)]) ++ l)%list in *
      by now rewrite <- app_assoc.
    assert (Hone : flatten_property recur "" acc (key, value)
                   = (acc ++ [(key, value)])%list).
    { rewrite map_app in Hkeys. apply listed_app in Hkeys as (Hkeys & _ & _).
      rewrite map_app in Hkeys. apply listed_app in Hkeys as (_ & _ & Hkeys).
      assert (Hnew : Forall (fun k => k <> key /\ listed_before key k = false)
                            (map fst acc)).
      { eapply List.Forall_impl; [|exact Hkeys].
        intros k' Hk'. apply Forall_cons in Hk' as [[Hne Hback] _].
        cbn [fst] in *. split; [congruence|assumption]. }
      destruct value; try discriminate Hvalue; cbn [flatten_property];
        now apply assign_new. }
    rewrite Hone. now apply IH.
Qed.

(** Flattening is idempotent: a flattened record, flattened again, is
    the same record with its columns in the same order. *)
Theorem flattenRecord_idempotent record :
  flattenRecord (JObj (flattenRecord record)) = flattenRecord record.
Proof.
  destruct (flattenRecord_ordered record) as [Hkeys Hcells].
  unfold flattenRecord, flattenObject at 1.
  change (flatten_levels (3 - 0) (JObj ?l) "")
    with (fold_left (flatten_property (flatten_levels 2) "") l []).
  now rewrite flatten_flat_entries.
Qed.

End FlattenExtras.

(** ** The endpoint list *)

Section EndpointExtras.

(** The parameters that depend on the path are never offered: for
    every endpoint whose path is a string or an array the form gets
    exactly the four common query parameters, and for every other path
    the call throws, at the first [endpoint.path.includes]. *)
Theorem getCommonQueryParameters_always_common (endpoint : Endpoint) :
  getCommonQueryParameters endpoint
  = match path endpoint with
    | JStr _ | JArr _ => Ok commonParams
    | _ => Throw (TypeError "endpoint.path.includes")
    end.
Proof.
  unfold getCommonQueryParameters, path_includes.
  destruct (path endpoint) as [| | | |s|items|]; cbn [bind];
    try reflexivity.
  - destruct (Str.includes "/projects" s), (Str.includes "/tasks" s);
      reflexivity.
  - destruct (existsb (strict_eq (JStr "/projects")) items),
      (existsb (strict_eq (JStr "/tasks")) items); reflexivity.
Qed.

Lemma safe_paths_have_no_parameter (s : string) :
  In s safeEndpoints -> extractPathParameters (JStr s) = Ok [].
Proof.
  intros H. repeat (destruct H as [<-|H]; [reflexivity|]). destruct H.
Qed.

(** Only a [GET] endpoint without path parameters can be executed from
    the endpoint list: when [canExecuteEndpoint] allows an endpoint
    whose path is a string, the method is [GET], the path is one of the
    nine safe paths, and [extractPathParameters] finds no parameter in
    it. *)
Theorem canExecuteEndpoint_needs_no_parameter (endpoint : Endpoint) s :
  path endpoint = JStr s ->
  canExecuteEndpoint endpoint = true ->
  method endpoint = JStr "GET"
  /\ In s safeEndpoints
  /\ extractPathParameters (path endpoint) = Ok [].
Proof.
  intros Hpath. unfold canExecuteEndpoint. rewrite Hpath.
  intros [Hmethod Hsafe]%andb_true_iff.
  assert (Hin : In s safeEndpoints).
  { apply orb_true_iff in Hsafe as [H|H]; apply existsb_exists in H;
      destruct H as (x & Hx & Heq).
    - cbn [strict_eq] in Heq. apply String.eqb_eq in Heq. now subst.
    - cbn [to_string] in Heq. apply String.eqb_eq in Heq. subst s.
      repeat (destruct Hx as [<-|Hx]; [cbn; tauto|]). destruct Hx. }
  split; [|split; [exact Hin|now apply safe_paths_have_no_parameter]].
  destruct (method endpoint); try discriminate Hmethod.
  cbn [strict_eq] in Hmethod. apply String.eqb_eq in Hmethod. now subst.
Qed.

End EndpointExtras.

Lemma canExecuteEndpoint_needs_no_parameter_witness :
  method (Sample.catalog_endpoint "GET" "/workspaces") = JStr "GET"
  /\ In "/workspaces" safeEndpoints
  /\ extractPathParameters (path (Sample.catalog_endpoint "GET" "/workspaces"))
     = Ok [].
Proof.
  apply (canExecuteEndpoint_needs_no_parameter
           (Sample.catalog_endpoint "GET" "/workspaces") "/workspaces").
  - reflexivity.
  - reflexivity.
Defined.

(** ** The grid *)

Section GridExtras.

Implicit Types (st : State) (item : SequenceItem).

Abbreviation flat_row :=
  (fun row : jsvalue => exists cells, row = JObj cells /\ flat_record cells).

Lemma grid_row_flat (stepData : list (string * jsvalue)) row dataItem :
  ordered_record stepData -> flat_row (grid_row stepData row dataItem).
Proof.
  intros H. eexists. split; [reflexivity|].
  apply ordered_flat, assign_all_ordered.
  - now apply assign_ordered.
  - apply (flattenRecord_flat dataItem).
Qed.

Lemma grid_rows_from_spec (stepData : list (string * jsvalue)) items :
  ordered_record stepData ->
  forall dataIndex,
    List.length (grid_rows_from stepData dataIndex items) = List.length items
    /\ Forall flat_row (grid_rows_from stepData dataIndex items).
Proof.
  intros H. induction items as [|dataItem items IH]; intros dataIndex.
  - now split.
  - destruct (IH (S dataIndex)) as [Hlen Hrows].
    cbn [grid_rows_from List.length]. rewrite Hlen. split; [reflexivity|].
    constructor; [now apply grid_row_flat|exact Hrows].
Qed.

Lemma grid_rows_spec index item :
  List.length (grid_rows index item) = record_count item
  /\ Forall flat_row (grid_rows index item).
Proof.
  unfold grid_rows, record_count.
  destruct (has_data item); [|now split].
  cbv zeta.
  assert (Hstep : forall records,
             ordered_record
               [("Step", JNum (Z.of_nat (index + 1)));
                ("Endpoint", JStr (endpoint_label item));
                ("Status",
                 JStr (if has_error item then "Error" else "Success"));
                ("Records", JNum records)]).
  { intros records. split.
    - cbn [map fst listed].
      repeat (split || constructor); (discriminate || reflexivity).
    - now repeat constructor. }
  destruct (js_get (result item) "data") as [| | | | |items|];
    try (split; [reflexivity|];
         constructor; [apply grid_row_flat, Hstep|constructor]).
  now apply grid_rows_from_spec.
Qed.

(** The grid gets one row for every record of every executed step that
    holds data, and every row is a flat record: distinct column names,
    and no object or array in a cell. *)
Theorem prepareGridData_rows st :
  List.length (prepareGridData st)
  = list_sum (map record_count (apiSequence st))
  /\ Forall (fun row : jsvalue =>
               exists cells, row = JObj cells /\ flat_record cells)
       (prepareGridData st).
Proof.
  unfold prepareGridData. generalize 0%nat.
  induction (apiSequence st) as [|item items IH]; intros index.
  - now split.
  - destruct (IH (S index)) as [Hlen Hrows].
    destruct (grid_rows_spec index item) as [Hlen1 Hrows1].
    cbn [prepareGridData_from map list_sum fold_right].
    rewrite length_app, Hlen1. split.
    + f_equal. exact Hlen.
    + apply Forall_app. now split.
Qed.

End GridExtras.

(** ** Transformation *)

Section TransformExtras.

Implicit Types (st : State) (record transformed : list (string * jsvalue)).

Lemma column_name_nonempty (s : string) :
  column_name s = true -> truthy (JStr s) = true.
Proof. unfold column_name. now intros [H _]%andb_true_iff. Qed.



Lemma split_at_first_unfold (p s : string) :
  split_at_first p s
  = if Str.startsWith p s
    then Some (EmptyString, Str.drop (String.length p) s)
    else match s with
         | EmptyString => None
         | String a s' =>
             match split_at_first p s' with
             | Some (before, after) => Some (String a before, after)
             | None => None
             end
         end.
Proof. destruct s; reflexivity. Qed.

Lemma split_at_first_found (p done rest : string) :
  Str.startsWith "{" p = true ->
  Str.includes_char "{" done = false ->
  split_at_first p (done +:+ p +:+ rest) = Some (done, rest).
Proof.
  intros Hp. induction done as [|a done IH]; intros Hdone.
  - cbn [String.append]. rewrite split_at_first_unfold.
    now rewrite startsWith_append, drop_append.
  - rewrite includes_char_cons in Hdone.
    apply orb_false_iff in Hdone as [Ha Hdone].
    cbn [String.append]. rewrite split_at_first_unfold.
    destruct p as [|b p]; [discriminate Hp|].
    cbn [Str.startsWith] in Hp |- *.
    apply andb_true_iff in Hp as [Hb _].
    apply Ascii.eqb_eq in Hb. subst b.
    rewrite Ascii.eqb_sym, Ha. cbn [andb].
    now rewrite (IH Hdone).
Qed.

Lemma expand_replacement_plain (matched before after r : string) :
  Str.includes_char "$" r = false ->
  expand_replacement matched before after r = r.
Proof.
  induction r as [|a r IH]; [reflexivity|].
  rewrite includes_char_cons. intros [Ha Hr]%orb_false_iff.
  cbn [expand_replacement].
  destruct (Ascii.eqb_spec a "$") as [->|Hne]; [discriminate Ha|].
  rewrite (IH Hr).
  destruct a as [[] [] [] [] [] [] [] []]; try reflexivity.
  now contradiction Hne.
Qed.

Lemma scan_template record (parts : list template_part) :
  forallb (part_ok record) parts = true ->
  scan_matches match_path_parameter 0 (render_template parts)
  = placeholders parts.
Proof.
  induction parts as [|part parts IH]; [reflexivity|].
  cbn [forallb]. intros [Hpart Hparts]%andb_true_iff.
  cbn [render_template placeholders].
  destruct part as [text|fieldName].
  - cbn [part_ok] in Hpart. apply negb_true_iff in Hpart.
    cbn [render_part].
    rewrite scan_matches_text;
      [now apply IH|apply match_path_parameter_other|exact Hpart].
  - cbn [part_ok] in Hpart.
    apply andb_true_iff in Hpart as [[[Hname Hclose]%andb_true_iff _]
                                       %andb_true_iff _].
    apply negb_true_iff in Hclose.
    unfold column_name in Hname.
    apply andb_true_iff in Hname as [Hne%negb_true_iff _].
    cbn [render_part].
    change (("{" +:+ fieldName +:+ "}") +:+ render_template parts)
      with (String "{" ((fieldName +:+ "}") +:+ render_template parts)).
    rewrite append_assoc. cbn [scan_matches].
    rewrite match_path_parameter_found by assumption.
    f_equal.
    replace (2 + String.length fieldName - 1)%nat
      with (String.length (fieldName +:+ "}"))
      by (rewrite length_append; simpl; lia).
    rewrite <- append_assoc, scan_matches_skip. now apply IH.
Qed.

Lemma fill_template record (parts : list template_part) :
  forall done,
  Str.includes_char "{" done = false ->
  forallb (part_ok record) parts = true ->
  fold_left (fill_placeholder record) (placeholders parts)
    (done +:+ render_template parts)
  = done +:+ filled_template record parts.
Proof.
  induction parts as [|part parts IH]; intros done Hdone Hparts;
    [reflexivity|].
  cbn [forallb] in Hparts. apply andb_true_iff in Hparts as [Hpart Hparts].
  cbn [render_template placeholders filled_template].
  destruct part as [text|fieldName].
  - cbn [part_ok] in Hpart. apply negb_true_iff in Hpart.
    cbn [render_part filled_part]. rewrite <- !append_assoc.
    apply IH; [|exact Hparts].
    now rewrite includes_char_append, Hdone, Hpart.
  - cbn [part_ok] in Hpart.
    apply andb_true_iff in Hpart as [[_ Hopen%negb_true_iff]%andb_true_iff
                                       Hdollar%negb_true_iff].
    cbn [render_part filled_part fold_left].
    assert (Hone : fill_placeholder record
                     (done +:+ ("{" +:+ fieldName +:+ "}")
                      +:+ render_template parts) fieldName
                   = (done +:+ to_string (cell_or_empty record fieldName))
                     +:+ render_template parts).
    { unfold fill_placeholder, js_replace.
      rewrite split_at_first_found; [|reflexivity|exact Hdone].
      change (or_else (js_get (JObj record) fieldName) (JStr ""))
        with (cell_or_empty record fieldName).
      rewrite expand_replacement_plain by exact Hdollar.
      now rewrite append_assoc. }
    rewrite Hone, IH; [now rewrite append_assoc| |exact Hparts].
    now rewrite includes_char_append, Hdone, Hopen.
Qed.

Lemma apply_unified_template record transformed name
    (parts : list template_part) :
  column_name name = true ->
  render_template parts <> "" ->
  forallb (part_ok record) parts = true ->
  apply_unified record transformed (unified_column name parts)
  = Ok (assign name (JStr (filled_template record parts)) transformed).
Proof.
  intros Hname Htemplate Hparts.
  change (apply_unified record transformed (unified_column name parts))
    with (if truthy (JStr name) && truthy (JStr (render_template parts))
          then Ok (assign name
                     (JStr (fold_left (fill_placeholder record)
                              (scan_matches match_path_parameter 0
                                 (render_template parts))
                              (render_template parts)))
                     transformed)
          else Ok transformed).
  rewrite (column_name_nonempty _ Hname).
  assert (Ht : truthy (JStr (render_template parts)) = true).
  { cbn [truthy]. apply negb_true_iff.
    now destruct (String.eqb_spec (render_template parts) ""). }
  rewrite Ht. cbn [andb].
  rewrite (scan_template record parts Hparts).
  pose proof (fill_template record parts "" eq_refl Hparts) as Hfill.
  cbn [String.append] in Hfill. now rewrite Hfill.
Qed.

(** A unified column fills its template.  For a template of literal
    text without opening brace and of placeholders for columns, and
    records whose cells for these columns hold no opening brace and no
    dollar sign, every row of the transformation holds under the name
    of the unified column the template with each placeholder replaced
    by the text of the record's cell, and by nothing where the record
    has no such column or a falsy value there. *)
Theorem applyTransformation_fills_template st name
    (parts : list template_part) :
  column_name name = true ->
  render_template parts <> "" ->
  Forall (fun record => forallb (part_ok record) parts = true) (allData st) ->
  applyTransformation st (JArr []) (JArr [unified_column name parts])
  = Ok (map (fun record => JObj [(name, JStr (filled_template record parts))])
          (allData st)).
Proof.
  intros Hname Htemplate Hrecords. unfold applyTransformation.
  induction Hrecords as [|record records Hrecord _ IH]; [reflexivity|].
  cbn [transform_records map]. rewrite IH.
  unfold transform_record. cbn [for_each_of for_each bind].
  now rewrite apply_unified_template.
Qed.

End TransformExtras.


(** A target that is an array index is listed first, whatever the order
    of the mappings. *)
Example transformation_with_an_index_target :
  applyTransformation Sample2.after_first_step
    (mappings_of [("gid", "id"); ("name", "7")]) (JArr [])
  = Ok [JObj [("7", JStr "first"); ("id", JStr "101")];
        JObj [("7", JStr "second"); ("id", JStr "102")]].
Proof. vm_compute. reflexivity. Qed.

Lemma applyTransformation_fills_template_witness :
  applyTransformation Sample2.after_first_step (JArr [])
    (JArr [unified_column "label"
             [Placeholder "name"; Literal " ("; Placeholder "gid";
              Literal ")"]])
  = Ok (map (fun record =>
               JObj [("label",
                      JStr (filled_template record
                              [Placeholder "name"; Literal " (";
                               Placeholder "gid"; Literal ")"]))])
          (allData Sample2.after_first_step)).
Proof.
  apply (applyTransformation_fills_template Sample2.after_first_step "label"
           [Placeholder "name"; Literal " ("; Placeholder "gid"; Literal ")"]).
  - reflexivity.
  - discriminate.
  - let l := eval vm_compute in (allData Sample2.after_first_step) in
    change (allData Sample2.after_first_step) with l.
    repeat constructor.
Defined.

(** The two records of [Sample2.after_first_step] under three mappings
    and under a unified column; with the mappings that
    [autoPopulateFieldMappings] proposes the rows are the records as
    they are, without the columns of metadata. *)
Example transformation_of_two_records :
  applyTransformation Sample2.after_first_step
    (mappings_of [("gid", "id"); ("name", "title"); ("owner", "note")])
    (JArr [unified_column "label"
             [Placeholder "name"; Literal " ("; Placeholder "gid";
              Literal ")"]])
  = Ok [JObj [("id", JStr "101"); ("title", JStr "first"); ("note", JStr "");
              ("label", JStr "first (101)")];
        JObj [("id", JStr "102"); ("title", JStr "second"); ("note", JStr "");
              ("label", JStr "second (102)")]]
  /\ match autoPopulateFieldMappings Sample2.after_first_step with
     | Some fieldMappings =>
         applyTransformation Sample2.after_first_step (JArr fieldMappings)
           (JArr [])
         = Ok [JObj [("gid", JStr "101"); ("name", JStr "first")];
               JObj [("gid", JStr "102"); ("name", JStr "second")]]
     | None => False
     end.
Proof. split; vm_compute; reflexivity. Qed.

(** A dollar sign in a cell is read as a pattern of [replace]: [$&]
    brings the placeholder back. *)
Example template_with_dollar_sign :
  fill_placeholder [("price", JStr "$& or $$5")] "cost: {price}" "price"
  = "cost: {price} or $5".
Proof. reflexivity. Qed.

(** ** What the resolvers never return *)

Section ResolverExtras.

Variable store : gmap string jsvalue.

Lemma resolve_parts_defined (pathParts : list string) : forall value,
  nullish value = false ->
  resolve_parts value pathParts = JNull
  \/ nullish (resolve_parts value pathParts) = false.
Proof.
  induction pathParts as [|part pathParts IH]; intros value Hvalue.
  - now right.
  - cbn [resolve_parts].
    destruct (nullish (resolve_part value part)) eqn:E; [now left|].
    now apply IH.
Qed.

(** Neither resolver ever returns [undefined]: a reference that leads
    nowhere gives [null], which is the one value the callers test for
    before they use what was resolved. *)
Theorem resolvers_never_return_undefined (text : string) :
  resolveVariable store text <> JUndefined
  /\ resolveVariablePlaceholder store text <> JUndefined.
Proof.
  assert (H : forall variablePath,
             resolveVariable store variablePath <> JUndefined).
  { intros variablePath. unfold resolveVariable.
    destruct (Str.split_char "." variablePath) as [itemId pathParts].
    destruct (store !! itemId) as [result|]; [|discriminate].
    destruct (truthy result) eqn:Ht; [|discriminate].
    destruct (resolve_parts_defined pathParts result) as [->| Hdef].
    - now destruct result.
    - discriminate.
    - intros E. now rewrite E in Hdef. }
  split; [apply H|].
  unfold resolveVariablePlaceholder.
  destruct (find_placeholder text); [apply H|discriminate].
Qed.

End ResolverExtras.

(** ** A mapped path parameter *)

Section MappingExtras.

Variable encodeURIComponent : string -> string.
Variable searchParamsToString : list (string * string) -> string.

Lemma replace_first_found (p r done rest : string) :
  Str.startsWith "{" p = true ->
  Str.includes_char "{" done = false ->
  Str.replace_first p r (done +:+ p +:+ rest) = done +:+ r +:+ rest.
Proof.
  intros Hp. induction done as [|a done IH]; intros Hdone.
  - cbn [String.append]. rewrite replace_first_unfold.
    now rewrite startsWith_append, drop_append.
  - rewrite includes_char_cons in Hdone.
    apply orb_false_iff in Hdone as [Ha Hdone].
    cbn [String.append]. rewrite replace_first_unfold.
    destruct p as [|b p]; [discriminate Hp|].
    cbn [Str.startsWith] in Hp |- *.
    apply andb_true_iff in Hp as [Hb _].
    apply Ascii.eqb_eq in Hb. subst b.
    rewrite Ascii.eqb_sym, Ha. cbn [andb].
    now rewrite (IH Hdone).
Qed.

Lemma literal_value_kept (store : gmap string jsvalue) v :
  literal_value v = true ->
  match v with
  | JStr s =>
      if truthy v && Str.includes "{{" s && Str.includes "}}" s
      then resolveVariablePlaceholder store s
      else v
  | _ => v
  end = v.
Proof.
  destruct v as [| | | |s| |]; try reflexivity.
  cbn [literal_value]. intros H%negb_true_iff.
  now rewrite <- andb_assoc, H, andb_false_r.
Qed.

(** A mapped path parameter takes the value the mapping leads to.  For
    a step whose path declares one parameter, mapped to a valid
    expression over the result of an earlier step, with an empty query
    table: when the walk along the expression ends at a truthy value
    that is no placeholder itself (and is encoded without dollar sign,
    as [encodeURIComponent] encodes every text), the request goes to
    the base URL followed by the path with the encoded text of that
    value in the place of the parameter, whatever literal value the
    step holds for the parameter. *)
Theorem mapped_path_parameter_is_substituted
    (st : State) (item : SequenceItem) (pre param post stepId : string)
    (segs : list segment) (pathValues body entry : jsvalue) :
  Str.includes_char "{" (baseUrl st) = false ->
  Str.includes_char "{" pre = false ->
  Str.includes_char "{" post = false ->
  String.eqb param "" = false ->
  Str.includes_char "}" param = false ->
  path (endpoint item) = JStr (pre +:+ "{" +:+ param +:+ "}" +:+ post) ->
  parameters item
  = JObj [("path", pathValues); ("query", JObj []); ("body", body)] ->
  nullish pathValues = false ->
  variableMappings item = JObj [(param, JStr (render_expression stepId segs))] ->
  String.eqb stepId "" = false ->
  Str.includes_char "." stepId = false ->
  forallb segment_ok segs = true ->
  sequenceResults st !! stepId = Some entry ->
  truthy entry = true ->
  truthy (handWalk entry segs) = true ->
  literal_value (handWalk entry segs) = true ->
  Str.includes_char "$" (encodeURIComponent (to_string (handWalk entry segs)))
  = false ->
  exists req,
    build_request encodeURIComponent searchParamsToString st item = Ok req
    /\ req_url req
       = (baseUrl st +:+ pre
          +:+ encodeURIComponent (to_string (handWalk entry segs)) +:+ post)
         +:+ (if String.eqb (searchParamsToString [("opt_pretty", "true")]) ""
              then ""
              else "?" +:+ searchParamsToString [("opt_pretty", "true")]).
Proof.
  intros Hbase Hpre Hpost Hne Hparam Hpath Hparams Hvalues Hmappings Hstep
    Hdot Hsegs Hentry Htruthy Hvalue Hliteral _.
  assert (Hturn :
            apply_path_param encodeURIComponent (sequenceResults st) item
              (baseUrl st +:+ pre +:+ "{" +:+ param +:+ "}" +:+ post) param
            = Ok (baseUrl st +:+ pre
                  +:+ encodeURIComponent (to_string (handWalk entry segs))
                  +:+ post)).
  { unfold apply_path_param. rewrite Hparams, Hmappings.
    change (get_or_throw (JObj [("path", pathValues); ("query", JObj []);
                                ("body", body)]) "path")
      with (Ok pathValues).
    cbn [bind]. unfold get_or_throw at 1. rewrite Hvalues. cbn [bind].
    unfold get_or_throw. cbn [nullish js_get assoc bind].
    rewrite String.eqb_refl.
    assert (Hmapping : truthy (JStr (render_expression stepId segs)) = true).
    { unfold render_expression. cbn [truthy]. apply negb_true_iff.
      destruct stepId as [|a stepId]; [discriminate Hstep|].
      now destruct segs. }
    rewrite Hmapping. cbn [bind].
    rewrite resolveVariable_rendered, Hentry, Htruthy by assumption.
    rewrite literal_value_kept by exact Hliteral. rewrite Hvalue.
    f_equal.
    replace (baseUrl st +:+ pre +:+ "{" +:+ param +:+ "}" +:+ post)
      with ((baseUrl st +:+ pre) +:+ ("{" +:+ param +:+ "}") +:+ post)
      by (now rewrite !append_assoc).
    rewrite replace_first_found;
      [now rewrite !append_assoc|reflexivity|].
    now rewrite includes_char_append, Hbase, Hpre. }
  unfold build_request.
  rewrite Hpath, extractPathParameters_single by assumption.
  cbn [bind apply_path_params to_string]. rewrite Hturn. cbn [bind].
  unfold buildQueryParameters. rewrite Hparams.
  change (get_or_throw (JObj [("path", pathValues); ("query", JObj []);
                              ("body", body)]) "query")
    with (Ok (JObj [])).
  cbn [bind nullish own_entries flat_map List.app].
  change (get_or_throw (JObj [("path", pathValues); ("query", JObj []);
                              ("body", body)]) "body")
    with (Ok body).
  cbn [bind].
  eexists. split; [reflexivity|]. cbn [req_url].
  destruct (String.eqb (searchParamsToString [("opt_pretty", "true")]) "");
    [now rewrite append_nil_r|reflexivity].
Qed.

End MappingExtras.

Lemma mapped_path_parameter_is_substituted_witness :
  let item :=
    Sample.item "seq_2_b" "GET" "/workspaces/{workspace_gid}/projects"
      [("workspace_gid", JStr "typed")] []
      [("workspace_gid", JStr "seq_1_a.data[0].gid")] in
  let st := Sample2.after_first_step in
  exists req,
    build_request Sample.encode Sample.serialize st item = Ok req
    /\ req_url req
       = (baseUrl st +:+ "/workspaces/"
          +:+ Sample.encode
                (to_string
                   (handWalk Sample.two_records
                      [Index "data" 0; Field "gid"]))
          +:+ "/projects")
         +:+ (if String.eqb (Sample.serialize [("opt_pretty", "true")]) ""
              then ""
              else "?" +:+ Sample.serialize [("opt_pretty", "true")]).
Proof.
  intros item st.
  apply (mapped_path_parameter_is_substituted Sample.encode Sample.serialize
           st item "/workspaces/" "workspace_gid" "/projects" "seq_1_a"
           [Index "data" 0; Field "gid"]
           (JObj [("workspace_gid", JStr "typed")]) JNull Sample.two_records);
    reflexivity.
Defined.

(** The request of the second of [Sample.three_steps] once the first
    has answered. *)
Example second_step_request :
  match
    build_request Sample.encode Sample.serialize Sample2.after_first_step
      (Sample.item "seq_2_b" "GET" "/workspaces/{workspace_gid}/projects"
         [("workspace_gid", JStr "")] []
         [("workspace_gid", JStr "seq_1_a.data[0].gid")])
  with
  | Ok req =>
      req_url req
      = "https://app.asana.com/api/1.0/workspaces/101/projects?opt_pretty=true"
  | Throw _ => False
  end.
Proof. vm_compute. reflexivity. Qed.

(** ** Literal path parameters *)

Section PathExtras.

Variable encodeURIComponent : string -> string.
Variable searchParamsToString : list (string * string) -> string.

Lemma scan_path pathValues (parts : list template_part) :
  forallb (path_part_ok encodeURIComponent pathValues) parts = true ->
  scan_matches match_path_parameter 0 (render_template parts)
  = placeholders parts.
Proof.
  induction parts as [|part parts IH]; [reflexivity|].
  cbn [forallb]. intros [Hpart Hparts]%andb_true_iff.
  cbn [render_template placeholders].
  destruct part as [text|name].
  - cbn [path_part_ok] in Hpart. apply negb_true_iff in Hpart.
    cbn [render_part].
    rewrite scan_matches_text;
      [now apply IH|apply match_path_parameter_other|exact Hpart].
  - cbn [path_part_ok] in Hpart.
    apply andb_true_iff in Hpart as [[[[[Hne Hclose]%andb_true_iff _]
                                         %andb_true_iff _]%andb_true_iff _]
                                       %andb_true_iff _].
    apply negb_true_iff in Hne, Hclose.
    cbn [render_part].
    change (("{" +:+ name +:+ "}") +:+ render_template parts)
      with (String "{" ((name +:+ "}") +:+ render_template parts)).
    rewrite append_assoc. cbn [scan_matches].
    rewrite match_path_parameter_found by assumption.
    f_equal.
    replace (2 + String.length name - 1)%nat
      with (String.length (name +:+ "}"))
      by (rewrite length_append; simpl; lia).
    rewrite <- append_assoc, scan_matches_skip. now apply IH.
Qed.

Lemma apply_path_params_fill (store : gmap string jsvalue)
    (item : SequenceItem) (pathValues queryTable body : jsvalue)
    (parts : list template_part) :
  parameters item
  = JObj [("path", pathValues); ("query", queryTable); ("body", body)] ->
  nullish pathValues = false ->
  variableMappings item = JObj [] ->
  forall done,
  Str.includes_char "{" done = false ->
  forallb (path_part_ok encodeURIComponent pathValues) parts = true ->
  apply_path_params encodeURIComponent store item
    (done +:+ render_template parts) (placeholders parts)
  = Ok (done +:+ filled_path encodeURIComponent pathValues parts).
Proof.
  intros Hparams Hvalues Hmappings.
  induction parts as [|part parts IH]; intros done Hdone Hparts;
    [reflexivity|].
  cbn [forallb] in Hparts. apply andb_true_iff in Hparts as [Hpart Hparts].
  cbn [render_template placeholders filled_path].
  destruct part as [text|name].
  - cbn [path_part_ok] in Hpart. apply negb_true_iff in Hpart.
    cbn [render_part filled_path_part]. rewrite <- !append_assoc.
    apply IH; [|exact Hparts].
    now rewrite includes_char_append, Hdone, Hpart.
  - cbn [path_part_ok] in Hpart.
    apply andb_true_iff in Hpart as [[[[_ Htruthy]%andb_true_iff Hliteral]
                                        %andb_true_iff Hopen%negb_true_iff]
                                       %andb_true_iff _].
    cbn [render_part filled_path_part apply_path_params].
    assert (Hone : apply_path_param encodeURIComponent store item
                     (done +:+ ("{" +:+ name +:+ "}")
                      +:+ render_template parts) name
                   = Ok ((done
                          +:+ encodeURIComponent
                                (to_string (js_get pathValues name)))
                         +:+ render_template parts)).
    { unfold apply_path_param. rewrite Hparams, Hmappings.
      change (get_or_throw (JObj [("path", pathValues); ("query", queryTable);
                                  ("body", body)]) "path")
        with (Ok pathValues).
      cbn [bind]. unfold get_or_throw at 1. rewrite Hvalues. cbn [bind].
      change (get_or_throw (JObj []) name) with (@Ok jsvalue JUndefined).
      cbn [bind truthy].
      rewrite literal_value_kept by exact Hliteral. rewrite Htruthy.
      f_equal. rewrite replace_first_found; [|reflexivity|exact Hdone].
      now rewrite append_assoc. }
    rewrite Hone. cbn [bind]. rewrite IH; [now rewrite append_assoc| |exact Hparts].
    now rewrite includes_char_append, Hdone, Hopen.
Qed.

(** Literal path parameters are substituted in place.  For a step
    without mappings whose path is made of literal text and
    parameters, each with a truthy literal value, the request goes to
    the base URL followed by the path with the encoded value of every
    parameter in its place, then the query string if there is one. *)
Theorem literal_path_parameters_are_substituted
    (st : State) (item : SequenceItem) (parts : list template_part)
    (pathValues queryTable body : jsvalue) :
  Str.includes_char "{" (baseUrl st) = false ->
  path (endpoint item) = JStr (render_template parts) ->
  parameters item
  = JObj [("path", pathValues); ("query", queryTable); ("body", body)] ->
  nullish pathValues = false ->
  nullish queryTable = false ->
  variableMappings item = JObj [] ->
  forallb (path_part_ok encodeURIComponent pathValues) parts = true ->
  exists req queryParams,
    build_request encodeURIComponent searchParamsToString st item = Ok req
    /\ buildQueryParameters (sequenceResults st) item = Ok queryParams
    /\ req_url req
       = (baseUrl st +:+ filled_path encodeURIComponent pathValues parts)
         +:+ (if String.eqb (searchParamsToString queryParams) "" then ""
              else "?" +:+ searchParamsToString queryParams).
Proof.
  intros Hbase Hpath Hparams Hvalues Hquery Hmappings Hparts.
  assert (Hqueryparams :
            buildQueryParameters (sequenceResults st) item
            = Ok (List.app
                    (flat_map (query_entry (sequenceResults st))
                       (own_entries queryTable))
                    [("opt_pretty", "true")])).
  { unfold buildQueryParameters. rewrite Hparams.
    change (get_or_throw (JObj [("path", pathValues); ("query", queryTable);
                                ("body", body)]) "query")
      with (Ok queryTable).
    cbn [bind]. now rewrite Hquery. }
  unfold build_request. rewrite Hpath. cbn [extractPathParameters to_string].
  rewrite (scan_path pathValues parts Hparts). cbn [bind].
  rewrite (apply_path_params_fill (sequenceResults st) item pathValues
             queryTable body parts Hparams Hvalues Hmappings (baseUrl st)
             Hbase Hparts).
  cbn [bind]. rewrite Hqueryparams. cbn [bind]. rewrite Hparams.
  change (get_or_throw (JObj [("path", pathValues); ("query", queryTable);
                              ("body", body)]) "body")
    with (Ok body).
  cbn [bind]. eexists. eexists. split; [reflexivity|].
  split; [reflexivity|]. cbn [req_url].
  destruct (String.eqb (searchParamsToString _) "");
    [now rewrite append_nil_r|reflexivity].
Qed.

End PathExtras.

Lemma literal_path_parameters_are_substituted_witness :
  let item :=
    Sample.item "seq_1_a" "GET" "/workspaces/{workspace_gid}/tasks/{task_gid}"
      [("workspace_gid", JStr "12"); ("task_gid", JNum 7)]
      [("limit", JStr "5")] [] in
  let st := Sample.session [item] in
  exists req queryParams,
    build_request Sample.encode Sample.serialize st item = Ok req
    /\ buildQueryParameters (sequenceResults st) item = Ok queryParams
    /\ req_url req
       = (baseUrl st
          +:+ filled_path Sample.encode
                (JObj [("workspace_gid", JStr "12"); ("task_gid", JNum 7)])
                [Literal "/workspaces/"; Placeholder "workspace_gid";
                 Literal "/tasks/"; Placeholder "task_gid"])
         +:+ (if String.eqb (Sample.serialize queryParams) "" then ""
              else "?" +:+ Sample.serialize queryParams).
Proof.
  intros item st.
  apply (literal_path_parameters_are_substituted Sample.encode
           Sample.serialize st item
           [Literal "/workspaces/"; Placeholder "workspace_gid";
            Literal "/tasks/"; Placeholder "task_gid"]
           (JObj [("workspace_gid", JStr "12"); ("task_gid", JNum 7)])
           (JObj [("limit", JStr "5")]) JNull);
    reflexivity.
Defined.

(** The request of a step with two literal path parameters. *)
Example two_path_parameters_request :
  match
    build_request Sample.encode Sample.serialize (Sample.session [])
      (Sample.item "seq_1_a" "GET"
         "/workspaces/{workspace_gid}/tasks/{task_gid}"
         [("workspace_gid", JStr "12"); ("task_gid", JNum 7)]
         [("limit", JStr "5")] [])
  with
  | Ok req =>
      req_url req
      = "https://app.asana.com/api/1.0/workspaces/12/tasks/7?limit=5&opt_pretty=true"
  | Throw _ => False
  end.
Proof. vm_compute. reflexivity. Qed.
